(** * Legal document manager: analyzer, generator and facade

    A shallow embedding of [document-analyzer.js], [document-generator.js],
    [case-manager.js] (the part the facade calls) and [index.js], followed by
    the properties the design document states about them.

    Conventions of the embedding.
    - A JavaScript string is a [string]: a sequence of code units, each below
      256.  Character classes ([\s], [\w], [\b], the case mapping of
      [toLowerCase] and of the [i] flag) are the ECMAScript ones restricted to
      that range.
    - Counts and lengths are [nat] or [Z]; the one place where the source
      computes with IEEE doubles ([_calculateReadability]) uses [spec_float]
      at binary64.
    - The clock ([new Date()]), [uuidv4] and [moment(..).format(..)] are
      collaborators outside the repository: they are oracles in [World]. *)

From Stdlib Require Import ZArith Lia Bool Ascii String List Permutation Sorted.
From Stdlib Require Import SpecFloat.
From Stdlib Require QArith.
From stdpp Require Import gmap strings list.

Import ListNotations.
Local Open Scope string_scope.
Local Open Scope list_scope.

(** ** Code units and character classes *)

Module Js.

Definition code (c : ascii) : N := N_of_ascii c.

Definition between (lo hi : N) (c : ascii) : bool :=
  ((lo <=? code c) && (code c <=? hi))%N.

(** [\s]: WhiteSpace and LineTerminator code units below 256
    (TAB, LF, VT, FF, CR, SP, NBSP). *)
Definition is_space (c : ascii) : bool :=
  between 9 13 c || (code c =? 32)%N || (code c =? 160)%N.

Definition is_upper (c : ascii) : bool := between 65 90 c.
Definition is_lower (c : ascii) : bool := between 97 122 c.
Definition is_digit (c : ascii) : bool := between 48 57 c.

(** [\w] is [[A-Za-z0-9_]]. *)
Definition is_word (c : ascii) : bool :=
  is_upper c || is_lower c || is_digit c || (code c =? 95)%N.

(** Upper-case letters of Latin-1 apart from the ASCII ones: U+00C0..U+00DE
    without the multiplication sign U+00D7. *)
Definition is_upper_latin1 (c : ascii) : bool :=
  between 192 222 c && negb (code c =? 215)%N.

(** [String.prototype.toLowerCase] on one code unit. *)
Definition lower_char (c : ascii) : ascii :=
  if is_upper c || is_upper_latin1 c then ascii_of_N (code c + 32) else c.

(** [Canonicalize] of a regular expression with the [i] flag and without the
    [u] flag, as far as a comparison with an ASCII pattern character goes:
    the upper-case mapping of the ASCII letters.  A code unit of 128 or more
    is never sent to an ASCII one, so it equals no pattern character of this
    program whatever its own image is. *)
Definition canon_char (c : ascii) : ascii :=
  if is_lower c then ascii_of_N (code c - 32) else c.

Definition eqb_ci (p c : ascii) : bool :=
  Ascii.eqb (canon_char p) (canon_char c).

(** [[aeiou]] under the [i] flag. *)
Definition is_vowel (c : ascii) : bool :=
  existsb (eqb_ci c) ["a"; "e"; "i"; "o"; "u"]%char.

(** ** String primitives *)

Fixpoint toLowerCase (s : string) : string :=
  match s with
  | EmptyString => EmptyString
  | String c s' => String (lower_char c) (toLowerCase s')
  end.

(** [s.includes(sub)] *)
Fixpoint includes (s sub : string) : bool :=
  String.prefix sub s ||
  match s with
  | EmptyString => false
  | String _ s' => includes s' sub
  end.

(** [s.split(sep)] for a separator that matches exactly one code unit:
    [split('.')] and [split(/[.!?]/)].  The first component is the segment
    in progress, the second the segments after it. *)
Fixpoint split_by_aux (sep : ascii -> bool) (s : string) : string * list string :=
  match s with
  | EmptyString => (EmptyString, [])
  | String c s' =>
      let (h, t) := split_by_aux sep s' in
      if sep c then (EmptyString, h :: t) else (String c h, t)
  end.

Definition split_by (sep : ascii -> bool) (s : string) : list string :=
  let (h, t) := split_by_aux sep s in h :: t.

Definition is_dot (c : ascii) : bool := Ascii.eqb c ".".
Definition is_terminator (c : ascii) : bool :=
  Ascii.eqb c "." || Ascii.eqb c "!" || Ascii.eqb c "?".

Definition starts_with_space (s : string) : bool :=
  match s with
  | EmptyString => false
  | String c _ => is_space c
  end.

(** [s.split(/\s+/)]: a separator is a maximal run of white space, so a white
    space character followed by another one belongs to the same separator. *)
Fixpoint split_ws_aux (s : string) : string * list string :=
  match s with
  | EmptyString => (EmptyString, [])
  | String c s' =>
      let (h, t) := split_ws_aux s' in
      if is_space c
      then (if starts_with_space s' then (h, t) else (EmptyString, h :: t))
      else (String c h, t)
  end.

Definition split_ws (s : string) : list string :=
  let (h, t) := split_ws_aux s in h :: t.

Fixpoint trimStart (s : string) : string :=
  match s with
  | EmptyString => EmptyString
  | String c s' => if is_space c then trimStart s' else s
  end.

(** The string without its trailing white space. *)
Fixpoint trimEnd (s : string) : string :=
  match s with
  | EmptyString => EmptyString
  | String c s' =>
      match trimEnd s' with
      | EmptyString => if is_space c then EmptyString else String c EmptyString
      | r => String c r
      end
  end.

Definition trim (s : string) : string := trimEnd (trimStart s).

(** [[...new Set(l)]]: the distinct elements in order of first insertion. *)
Fixpoint Set_of (l : list string) (seen : list string) : list string :=
  match l with
  | [] => []
  | x :: l' =>
      if existsb (String.eqb x) seen then Set_of l' seen
      else x :: Set_of l' (x :: seen)
  end.

Definition Set_has (s : list string) (x : string) : bool :=
  existsb (String.eqb x) s.

(** [a.slice(0, n)] *)
Definition slice0 {A} (n : nat) (l : list A) : list A := firstn n l.

(** The double quote character. *)
Definition dquote : ascii := ascii_of_N 34.

(** [x || d] on strings: the empty string is falsy. *)
Definition or_else (x : option string) (d : string) : string :=
  match x with
  | Some (String c s) => String c s
  | _ => d
  end.

End Js.

(** ** Regular expressions of the analyzer *)

Module Regex.
Import Js.

Definition word_at (c : option ascii) : bool :=
  match c with
  | Some c => is_word c
  | None => false
  end.

Definition head (s : string) : option ascii :=
  match s with
  | EmptyString => None
  | String c _ => Some c
  end.

(** [\b] between the code unit before the current position and the rest of
    the input. *)
Definition word_boundary (prev : option ascii) (rest : string) : bool :=
  xorb (word_at prev) (word_at (head rest)).

(** The literal [word] under the [i] flag, then [\b]: [prev] is the code unit
    before the current position. *)
Fixpoint literal_then_boundary (word : string) (prev : option ascii) (s : string) : bool :=
  match word with
  | EmptyString => word_boundary prev s
  | String p word' =>
      match s with
      | EmptyString => false
      | String c s' => eqb_ci p c && literal_then_boundary word' (Some c) s'
      end
  end.

(** [/\bword\b/i] matches at the current position. *)
Definition matches_at (word : string) (prev : option ascii) (s : string) : bool :=
  word_boundary prev s && literal_then_boundary word prev s.

(** [text.match(/\bword\b/gi)]: the matches are searched from left to right,
    each search starting where the previous match ended; [skip] is the number
    of code units still covered by the last match.  [word] is not empty at
    any call of the source. *)
Fixpoint count_matches (word : string) (prev : option ascii) (s : string) (skip : nat) : nat :=
  match s with
  | EmptyString => 0
  | String c s' =>
      match skip with
      | S k => count_matches word (Some c) s' k
      | O =>
          if matches_at word prev s
          then S (count_matches word (Some c) s' (String.length word - 1))
          else count_matches word (Some c) s' 0
      end
  end.

(** [text.match(/[aeiou]{1,2}/gi)]: the quantifier is greedy, so a match
    takes a second vowel when there is one. *)
Fixpoint count_vowel_clusters (s : string) : nat :=
  match s with
  | EmptyString => 0
  | String c s' =>
      if is_vowel c then
        S (match s' with
           | EmptyString => 0
           | String c' s'' =>
               if is_vowel c' then count_vowel_clusters s''
               else count_vowel_clusters s'
           end)
      else count_vowel_clusters s'
  end.

End Regex.

(** ** Data model *)

(** Milliseconds since the epoch: the value of a [Date]. *)
Definition Time := Z.

Record Section_ := mkSection {
  sec_heading : string;
  sec_content : string;
  sec_timestamp : Time
}.

(** [sections] is a JavaScript object used as an ordered map; the list gives
    its own enumerable properties in enumeration order (the order of
    [Object.keys], [Object.values] and [Object.entries]).  [content_extra]
    holds the properties other than [title] and [sections] that an update
    may have spread into the content. *)
Record Content := mkContent {
  content_title : string;
  content_sections : list (string * Section_);
  content_extra : list (string * string)
}.

Record Metadata := mkMetadata {
  meta_created : Time;
  meta_modified : Time;
  meta_author : string;
  meta_status : string
}.

Record Template := mkTemplate {
  tpl_title : string;
  tpl_sections : list string
}.

Record Summary := mkSummary {
  sum_text : string;
  sum_wordCount : nat;
  sum_sentenceCount : nat;
  sum_characterCount : nat
}.

Record KeyPoint := mkKeyPoint {
  kp_category : string;
  kp_text : string;
  kp_importance : string
}.

Record LegalTerm := mkLegalTerm {
  lt_term : string;
  lt_occurrences : nat
}.

Record SectionStats := mkSectionStats {
  st_name : string;
  st_wordCount : nat;
  st_isEmpty : bool
}.

Record Structure := mkStructure {
  str_totalSections : nat;
  str_sections : list SectionStats
}.

Record Sentiment := mkSentiment {
  sen_overall : string;
  sen_positiveIndicators : nat;
  sen_negativeIndicators : nat
}.

Record Risk := mkRisk {
  risk_type : string;
  risk_severity : string;
  risk_description : string
}.

Record Recommendation := mkRecommendation {
  rec_priority : string;
  rec_text : string
}.

(** ** JavaScript numbers

    A Number is an IEEE 754 binary64 value: [spec_float] with a precision of
    53 bits and [emax = 1024], and the operations of [SpecFloat], which round
    to nearest, ties to even. *)

Module Num.

Definition prec : Z := 53.
Definition emax : Z := 1024.

Definition number := spec_float.

(** An integer as a Number. *)
Definition of_Z (z : Z) : number := binary_normalize prec emax z 0 false.
Definition of_nat (n : nat) : number := of_Z (Z.of_nat n).

Definition div : number -> number -> number := SFdiv prec emax.
Definition mul : number -> number -> number := SFmul prec emax.
Definition sub : number -> number -> number := SFsub prec emax.
Definition add : number -> number -> number := SFadd prec emax.

(** [a > b] *)
Definition gt (a b : number) : bool := SFltb b a.

(** The decimal literals of [_calculateReadability]: a literal denotes the
    double nearest to its decimal value, which is the correctly rounded
    quotient of two integers that are doubles themselves. *)
Definition lit_206_835 : number := Eval vm_compute in div (of_Z 206835) (of_Z 1000).
Definition lit_1_015 : number := Eval vm_compute in div (of_Z 1015) (of_Z 1000).
Definition lit_84_6 : number := Eval vm_compute in div (of_Z 846) (of_Z 10).
Definition lit_0 : number := S754_zero false.
Definition lit_1 : number := Eval vm_compute in of_Z 1.
Definition lit_30 : number := Eval vm_compute in of_Z 30.
Definition lit_50 : number := Eval vm_compute in of_Z 50.
Definition lit_80 : number := Eval vm_compute in of_Z 80.
Definition lit_100 : number := Eval vm_compute in of_Z 100.

(** [Math.min(a, b)] and [Math.max(a, b)]: NaN if an argument is NaN, and
    [-0] is smaller than [+0]. *)
Definition is_neg_zero (x : number) : bool :=
  match x with
  | S754_zero true => true
  | _ => false
  end.

Definition Math_min (a b : number) : number :=
  match SFcompare a b with
  | None => S754_nan
  | Some Lt => a
  | Some Gt => b
  | Some Eq => if is_neg_zero a then a else b
  end.

Definition Math_max (a b : number) : number :=
  match SFcompare a b with
  | None => S754_nan
  | Some Gt => a
  | Some Lt => b
  | Some Eq => if is_neg_zero a then b else a
  end.

(** [Math.round(x)]: [x] itself when it is not finite or is an integer,
    otherwise the integer nearest to [x], the one towards +infinity on a tie;
    a result of zero keeps the sign of [x].  On a finite [x = m * 2^e] with
    [e < 0] the integer is [floor ((2 m + 2^(-e)) / 2^(1-e))]. *)
Definition round_Z (s : bool) (m : positive) (e : Z) : Z :=
  let v := if s then Z.neg m else Z.pos m in
  (2 * v + 2 ^ (- e)) / 2 ^ (1 - e).

Definition Math_round (x : number) : number :=
  match x with
  | S754_finite s m e =>
      if (0 <=? e)%Z then x
      else
        match round_Z s m e with
        | Z0 => S754_zero s
        | z => of_Z z
        end
  | _ => x
  end.

(** A float that is a zero or a finite number of at most [prec] digits and
    of magnitude at most [k]: neither an infinity nor NaN. *)
Definition Fin (k : Z) (x : number) : Prop :=
  match x with
  | S754_zero _ => True
  | S754_finite _ m e => (Zdigits2 (Zpos m) <= prec /\ Zdigits2 (Zpos m) + e <= k)%Z
  | _ => False
  end.

End Num.

Record Readability := mkReadability {
  rd_score : Num.number;
  rd_difficulty : string;
  rd_wordCount : nat;
  rd_sentenceCount : nat
}.

Record Analysis := mkAnalysis {
  an_documentId : string;
  an_documentType : string;
  an_analyzedAt : Time;
  an_summary : Summary;
  an_keyPoints : list KeyPoint;
  an_legalTerms : list LegalTerm;
  an_sections : Structure;
  an_sentiment : Sentiment;
  an_risks : list Risk;
  an_recommendations : list Recommendation;
  an_readability : Readability
}.

(** [version] is a Number: a double, like every Number of the language. *)
Record Document := mkDocument {
  doc_id : string;
  doc_name : string;
  doc_type : string;
  doc_caseId : option string;
  doc_template : Template;
  doc_content : Content;
  doc_metadata : Metadata;
  doc_version : Num.number;
  doc_tags : list string;
  doc_analysis : option Analysis
}.

Record Similarities := mkSimilarities {
  sim_commonWords : nat;
  sim_commonTerms : list string
}.

Record Differences := mkDifferences {
  diff_lengthDifference : nat;
  diff_wordCountDifference : nat
}.

Record StructuralDifferences := mkStructuralDifferences {
  sd_doc1Sections : nat;
  sd_doc2Sections : nat
}.

Record Comparison := mkComparison {
  cmp_similarities : Similarities;
  cmp_differences : Differences;
  cmp_structuralDifferences : StructuralDifferences
}.

(** ** The environment: clock, identifiers, date formatting

    [new Date()] returns the next reading of [clock], [uuidv4()] the next
    identifier of [uuids]. *)

Record World := mkWorld {
  clock : nat -> Time;
  ticks : nat;
  uuids : nat -> string;
  drawn : nat;
  moment_format : Time -> string
}.

Inductive JsError :=
| Error (message : string)
| TypeError (message : string).

Inductive Result (A : Type) :=
| Ok (a : A)
| Throw (e : JsError).
Arguments Ok {A} a.
Arguments Throw {A} e.

(** Computations that read the environment and may throw. *)
Definition M (A : Type) : Type := World -> Result A * World.

Definition ret {A} (a : A) : M A := fun w => (Ok a, w).
Definition throw {A} (e : JsError) : M A := fun w => (Throw e, w).
Definition bind {A B} (m : M A) (k : A -> M B) : M B :=
  fun w =>
    match m w with
    | (Ok a, w') => k a w'
    | (Throw e, w') => (Throw e, w')
    end.

Declare Scope js_scope.
Delimit Scope js_scope with js.
Notation "'let*' x ':=' m 'in' k" := (bind m (fun x => k))
  (at level 10, x name, m at level 100, k at level 200) : js_scope.

Definition new_Date : M Time :=
  fun w => (Ok (clock w (ticks w)),
            mkWorld (clock w) (S (ticks w)) (uuids w) (drawn w) (moment_format w)).

Definition uuidv4 : M string :=
  fun w => (Ok (uuids w (drawn w)),
            mkWorld (clock w) (ticks w) (uuids w) (S (drawn w)) (moment_format w)).

Definition moment_format_stamp (t : Time) : M string :=
  fun w => (Ok (moment_format w t), w).

(** [try { m } catch (error) { throw h(error) }] *)
Definition try_catch {A} (m : M A) (h : JsError -> JsError) : M A :=
  fun w =>
    match m w with
    | (Ok a, w') => (Ok a, w')
    | (Throw e, w') => (Throw (h e), w')
    end.

Definition error_message (e : JsError) : string :=
  match e with
  | Error m => m
  | TypeError m => m
  end.

(** [arr.forEach(f)] where [f] runs in [M]. *)
Fixpoint forEachM {A S} (f : S -> A -> M S) (l : list A) (s : S) : M S :=
  match l with
  | [] => ret s
  | x :: l' => bind (f s x) (forEachM f l')
  end.

(** ** Document analyzer *)

Module DocumentAnalyzer.
Import Js.

(** The constructor's [legalKeywords], in the order [Object.entries]
    enumerates it. *)
Definition legalKeywords : list (string * list string) :=
  [ ("obligations", ["must"; "shall"; "required to"; "obligated to"]);
    ("rights", ["may"; "entitled to"; "has the right to"; "can"]);
    ("penalties", ["penalty"; "fine"; "breach"; "violation"; "damages"]);
    ("dates", ["on or before"; "within"; "by"; "effective date"; "expiration"]);
    ("parties", ["party"; "parties"; "hereinafter"; "referred to as"]) ].

(** [forEach] with a callback that pushes on an array: the array is the
    accumulator. *)
Definition forEach {A S} (f : S -> A -> S) (l : list A) (s : S) : S :=
  fold_left f l s.

Definition push {A} (arr : list A) (x : A) : list A := arr ++ [x].

Definition _extractAllText (document : Document) : string :=
  forEach (fun text section => text +:+ " " +:+ sec_content section)
          (map snd (content_sections (doc_content document)))
          (content_title (doc_content document)).

Definition _countOccurrences (text word : string) : nat :=
  Regex.count_matches word None text 0.

Definition _estimateSyllables (text : string) : nat :=
  Regex.count_vowel_clusters text.

(** [arr.join(sep)] *)
Fixpoint join (sep : string) (l : list string) : string :=
  match l with
  | [] => EmptyString
  | [x] => x
  | x :: l' => x +:+ sep +:+ join sep l'
  end.

Definition nonblank (s : string) : bool :=
  negb (Nat.eqb (String.length (trim s)) 0).

Definition _generateSummary (document : Document) : Summary :=
  let contentText := _extractAllText document in
  let sentences := List.filter nonblank (split_by is_dot contentText) in
  let summary := join ". " (slice0 3 sentences) in
  {| sum_text := summary;
     sum_wordCount := length (split_ws contentText);
     sum_sentenceCount := length sentences;
     sum_characterCount := String.length contentText |}.

Definition _extractKeyPoints (document : Document) : list KeyPoint :=
  let contentText := _extractAllText document in
  let sentences := split_by is_dot contentText in
  let keyPoints :=
    forEach (fun keyPoints sentence =>
      forEach (fun keyPoints '(category, keywords) =>
        forEach (fun keyPoints keyword =>
          if includes (toLowerCase sentence) keyword
          then push keyPoints
                 {| kp_category := category;
                    kp_text := trim sentence;
                    kp_importance := "high" |}
          else keyPoints)
          keywords keyPoints)
        legalKeywords keyPoints)
      sentences [] in
  slice0 10 keyPoints.

Definition commonLegalTerms : list string :=
  [ "agreement"; "contract"; "party"; "obligation"; "breach";
    "indemnify"; "liability"; "damages"; "force majeure";
    "arbitration"; "governing law"; "jurisdiction";
    "entire agreement"; "amendment"; "severability" ].

(** [arr.sort((a, b) => b.occurrences - a.occurrences)]: [Array.prototype.sort]
    is stable, and the comparator orders by decreasing [occurrences]; the
    result is the one of a stable insertion sort. *)
Fixpoint sort_insert (x : LegalTerm) (l : list LegalTerm) : list LegalTerm :=
  match l with
  | [] => [x]
  | y :: l' =>
      if Nat.ltb (lt_occurrences x) (lt_occurrences y)
      then y :: sort_insert x l'
      else x :: l
  end.

Definition sort_by_occurrences (l : list LegalTerm) : list LegalTerm :=
  fold_right sort_insert [] l.

Definition _extractLegalTerms (document : Document) : list LegalTerm :=
  let contentText := toLowerCase (_extractAllText document) in
  let foundTerms :=
    forEach (fun foundTerms term =>
      if includes contentText term
      then push foundTerms
             {| lt_term := term;
                lt_occurrences := _countOccurrences contentText term |}
      else foundTerms)
      commonLegalTerms [] in
  sort_by_occurrences foundTerms.

Definition is_placeholder (text : string) : bool :=
  includes text "[Add" && includes text "here]".

Definition _analyzeStructure (document : Document) : Structure :=
  let sections := content_sections (doc_content document) in
  {| str_totalSections := length (map fst sections);
     str_sections :=
       map (fun '(key, section) =>
              {| st_name := sec_heading section;
                 st_wordCount := length (split_ws (sec_content section));
                 st_isEmpty := is_placeholder (sec_content section) |})
           sections |}.

Definition positiveWords : list string :=
  ["agree"; "beneficial"; "clear"; "fair"; "reasonable"].
Definition negativeWords : list string :=
  ["breach"; "liable"; "penalty"; "violation"; "dispute"].

Definition _analyzeSentiment (document : Document) : Sentiment :=
  let contentText := toLowerCase (_extractAllText document) in
  let positiveCount :=
    length (List.filter (fun word => includes contentText word) positiveWords) in
  let negativeCount :=
    length (List.filter (fun word => includes contentText word) negativeWords) in
  let sentiment :=
    if Nat.ltb negativeCount positiveCount then "positive"
    else if Nat.ltb positiveCount negativeCount then "negative"
    else "neutral" in
  {| sen_overall := sentiment;
     sen_positiveIndicators := positiveCount;
     sen_negativeIndicators := negativeCount |}.

Definition risk_incomplete : Risk :=
  {| risk_type := "incomplete_content";
     risk_severity := "high";
     risk_description := "Document contains placeholder text that needs to be filled" |}.

Definition risk_liability : Risk :=
  {| risk_type := "liability_clause";
     risk_severity := "medium";
     risk_description := "Document contains liability provisions" |}.

Definition risk_ambiguous : Risk :=
  {| risk_type := "ambiguous_language";
     risk_severity := "low";
     risk_description :=
       "Document contains optional language (" +:+ String dquote "may" +:+ String dquote ")" |}.

Definition _identifyRisks (document : Document) : list Risk :=
  let risks := [] in
  let contentText := _extractAllText document in
  let risks := if is_placeholder contentText then push risks risk_incomplete else risks in
  let risks :=
    if includes (toLowerCase contentText) "liable" then push risks risk_liability else risks in
  let risks :=
    if includes (toLowerCase contentText) "may" then push risks risk_ambiguous else risks in
  risks.

Definition is_empty_string (s : string) : bool :=
  match s with
  | EmptyString => true
  | _ => false
  end.

Definition _generateRecommendations (document : Document) : list Recommendation :=
  let recommendations := [] in
  let recommendations :=
    if String.eqb (meta_status (doc_metadata document)) "draft"
    then push recommendations
           {| rec_priority := "high";
              rec_text := "Document is still in draft status. Review and finalize before use." |}
    else recommendations in
  let recommendations :=
    if is_empty_string (meta_author (doc_metadata document))
       || String.eqb (meta_author (doc_metadata document)) "System"
    then push recommendations
           {| rec_priority := "medium";
              rec_text := "Assign proper author to document" |}
    else recommendations in
  let recommendations :=
    match doc_analysis document with
    | None =>
        push recommendations
          {| rec_priority := "medium";
             rec_text := "Run full legal analysis for comprehensive review" |}
    | Some _ => recommendations
    end in
  recommendations.

(** The reading ease before rounding. *)
Definition readingEase_of (words sentences syllables : nat) : Num.number :=
  Num.Math_max Num.lit_0 (Num.Math_min Num.lit_100
    (Num.sub
       (Num.sub Num.lit_206_835
          (Num.mul Num.lit_1_015 (Num.div (Num.of_nat words) (Num.of_nat sentences))))
       (Num.mul Num.lit_84_6 (Num.div (Num.of_nat syllables) (Num.of_nat words))))).

Definition difficulty_of (readingEase : Num.number) : string :=
  if Num.gt readingEase Num.lit_80 then "Easy"
  else if Num.gt readingEase Num.lit_50 then "Medium"
  else if Num.gt readingEase Num.lit_30 then "Difficult"
  else "Very Difficult".

Definition _calculateReadability (document : Document) : Readability :=
  let contentText := _extractAllText document in
  let words := length (split_ws contentText) in
  let sentences := length (split_by is_terminator contentText) in
  let syllables := _estimateSyllables contentText in
  let readingEase := readingEase_of words sentences syllables in
  {| rd_score := Num.Math_round readingEase;
     rd_difficulty := difficulty_of readingEase;
     rd_wordCount := words;
     rd_sentenceCount := sentences |}.

Definition analyze (document : Document) : M Analysis :=
  try_catch
    (let* analyzedAt := new_Date in
     ret {| an_documentId := doc_id document;
            an_documentType := doc_type document;
            an_analyzedAt := analyzedAt;
            an_summary := _generateSummary document;
            an_keyPoints := _extractKeyPoints document;
            an_legalTerms := _extractLegalTerms document;
            an_sections := _analyzeStructure document;
            an_sentiment := _analyzeSentiment document;
            an_risks := _identifyRisks document;
            an_recommendations := _generateRecommendations document;
            an_readability := _calculateReadability document |})%js
    (fun error => Error ("Analysis failed: " +:+ error_message error)).

(** [Math.abs(a - b)] on two lengths. *)
Definition abs_diff (a b : nat) : nat := Z.to_nat (Z.abs (Z.of_nat a - Z.of_nat b)).

Definition _findSimilarities (doc1 doc2 : Document) : Similarities :=
  let text1 := toLowerCase (_extractAllText doc1) in
  let text2 := toLowerCase (_extractAllText doc2) in
  let words1 := Set_of (split_ws text1) [] in
  let words2 := Set_of (split_ws text2) [] in
  let common := List.filter (fun word => Set_has words2 word) words1 in
  {| sim_commonWords := length common;
     sim_commonTerms := slice0 20 common |}.

Definition _findDifferences (doc1 doc2 : Document) : Differences :=
  let text1 := toLowerCase (_extractAllText doc1) in
  let text2 := toLowerCase (_extractAllText doc2) in
  {| diff_lengthDifference := abs_diff (String.length text1) (String.length text2);
     diff_wordCountDifference :=
       abs_diff (length (split_ws text1)) (length (split_ws text2)) |}.

Definition _compareStructure (doc1 doc2 : Document) : StructuralDifferences :=
  {| sd_doc1Sections := length (map fst (content_sections (doc_content doc1)));
     sd_doc2Sections := length (map fst (content_sections (doc_content doc2))) |}.

Definition comparDocuments (doc1 doc2 : Document) : Comparison :=
  {| cmp_similarities := _findSimilarities doc1 doc2;
     cmp_differences := _findDifferences doc1 doc2;
     cmp_structuralDifferences := _compareStructure doc1 doc2 |}.

End DocumentAnalyzer.

(** ** JavaScript objects used as maps *)

Module Obj.

(** The array index that a property key stands for, if any: the canonical
    decimal numeral of an integer from 0 to 2^32 - 2. *)
Fixpoint decimal_value (s : string) (acc : N) : option N :=
  match s with
  | EmptyString => Some acc
  | String c s' =>
      if Js.is_digit c then decimal_value s' (10 * acc + (Js.code c - 48))%N else None
  end.

Definition array_index (key : string) : option N :=
  match key with
  | EmptyString => None
  | String c rest =>
      if Ascii.eqb c "0"
      then match rest with
           | EmptyString => Some 0%N
           | _ => None
           end
      else match decimal_value key 0 with
           | Some n => if (n <=? 4294967294)%N then Some n else None
           | None => None
           end
  end.

(** A new property [key] is enumerated before the existing property [k]:
    array indices come first, in ascending order; the other keys follow in
    order of creation. *)
Definition enumerated_before (key k : string) : bool :=
  match array_index key, array_index k with
  | Some i, Some j => (i <? j)%N
  | Some _, None => true
  | None, _ => false
  end.

(** [obj[key] = v] on an object given by its own properties in enumeration
    order: an existing property keeps its place, a new array index goes to
    its place among the indices, and another new key goes last. *)
Fixpoint set {V} (obj : list (string * V)) (key : string) (v : V) : list (string * V) :=
  match obj with
  | [] => [(key, v)]
  | (k, x) :: obj' =>
      if String.eqb k key then (k, v) :: obj'
      else if enumerated_before key k then (key, v) :: (k, x) :: obj'
      else (k, x) :: set obj' key v
  end.

Fixpoint get {V} (obj : list (string * V)) (key : string) : option V :=
  match obj with
  | [] => None
  | (k, x) :: obj' => if String.eqb k key then Some x else get obj' key
  end.

(** [{...a, ...b}] *)
Definition spread {V} (a b : list (string * V)) : list (string * V) :=
  fold_left (fun acc '(k, v) => set acc k v) b a.

(** The properties every object literal inherits from [Object.prototype];
    the value of each is a function, or an object for [__proto__]: truthy. *)
Definition prototype_keys : list string :=
  [ "constructor"; "__proto__"; "hasOwnProperty"; "isPrototypeOf";
    "propertyIsEnumerable"; "toLocaleString"; "toString"; "valueOf";
    "__defineGetter__"; "__defineSetter__"; "__lookupGetter__"; "__lookupSetter__" ].

(** The value of [obj[key]] for an object literal whose own properties hold
    values of type [V]. *)
Inductive lookup (V : Type) :=
| Undefined
| Own (v : V)
| Inherited (key : string).
Arguments Undefined {V}.
Arguments Own {V} v.
Arguments Inherited {V} key.

Definition get_chain {V} (obj : list (string * V)) (key : string) : lookup V :=
  match get obj key with
  | Some v => Own v
  | None =>
      if existsb (String.eqb key) prototype_keys then Inherited key else Undefined
  end.

End Obj.

(** ** Document generator *)

(** The caller's [content] argument: string-valued properties ([title],
    [author], one per section name) and [tags]. *)
Record ContentData := mkContentData {
  cd_props : list (string * string);
  cd_tags : option (list string)
}.

Record Options := mkOptions {
  opt_caseId : option string;
  opt_documentType : option string;
  opt_content : option ContentData;
  opt_timestamp : option Time
}.

(** The [updates] argument of [updateDocument]. *)
Record Updates := mkUpdates {
  upd_title : option string;
  upd_sections : option (list (string * Section_));
  upd_extra : list (string * string)
}.

Module DocumentGenerator.

Definition templates : list (string * Template) :=
  [ ("contract",
     {| tpl_title := "Legal Contract";
        tpl_sections := ["Header"; "Parties"; "Terms"; "Conditions"; "Signatures"] |});
    ("brief",
     {| tpl_title := "Legal Brief";
        tpl_sections := ["Title"; "Statement of Facts"; "Legal Issues"; "Arguments"; "Conclusion"] |});
    ("memo",
     {| tpl_title := "Legal Memorandum";
        tpl_sections := ["To"; "From"; "Date"; "Subject"; "Issue"; "Analysis"; "Conclusion"] |});
    ("complaint",
     {| tpl_title := "Legal Complaint";
        tpl_sections := ["Heading"; "Introduction"; "Jurisdiction"; "Parties"; "Facts";
                         "Claims"; "Prayer for Relief"] |});
    ("agreement",
     {| tpl_title := "Agreement";
        tpl_sections := ["Preamble"; "Recitals"; "Terms and Conditions"; "Signatures"] |}) ].

Definition empty_content : ContentData := {| cd_props := []; cd_tags := None |}.

Definition placeholder (section : string) : string :=
  "[Add " +:+ section +:+ " content here]".

Definition _generateContent (template : Template) (contentData : ContentData) : M Content :=
  (let title := Js.or_else (Obj.get (cd_props contentData) "title") (tpl_title template) in
   let* sections :=
     forEachM (fun sections section =>
       let* timestamp := new_Date in
       ret (Obj.set sections section
              {| sec_heading := section;
                 sec_content :=
                   Js.or_else (Obj.get (cd_props contentData) section) (placeholder section);
                 sec_timestamp := timestamp |}))
       (tpl_sections template) [] in
   ret {| content_title := title; content_sections := sections; content_extra := [] |})%js.

Definition default {A} (x : option A) (d : A) : A :=
  match x with
  | Some a => a
  | None => d
  end.

Definition generate (options : Options) : M Document :=
  (let caseId := opt_caseId options in
   let documentType := default (opt_documentType options) "memo" in
   let content := default (opt_content options) empty_content in
   let* timestamp :=
     match opt_timestamp options with
     | Some t => ret t
     | None => new_Date
     end in
   match Obj.get_chain templates documentType with
   | Obj.Undefined => throw (Error ("Unknown document type: " +:+ documentType))
   | Obj.Inherited _ =>
       (* [template] is a member of [Object.prototype]: [template.title] and
          [template.sections] are undefined, and [_generateContent] calls
          [forEach] on the latter *)
       let* documentId := uuidv4 in
       let* stamp := moment_format_stamp timestamp in
       throw (TypeError "Cannot read properties of undefined (reading 'forEach')")
   | Obj.Own template =>
       let* documentId := uuidv4 in
       let* stamp := moment_format_stamp timestamp in
       let documentName := tpl_title template +:+ "_" +:+ stamp in
       let* generated := _generateContent template content in
       ret {| doc_id := documentId;
              doc_name := documentName;
              doc_type := documentType;
              doc_caseId := caseId;
              doc_template := template;
              doc_content := generated;
              doc_metadata :=
                {| meta_created := timestamp;
                   meta_modified := timestamp;
                   meta_author := Js.or_else (Obj.get (cd_props content) "author") "System";
                   meta_status := "draft" |};
              doc_version := Num.lit_1;
              doc_tags := default (cd_tags content) [];
              doc_analysis := None |}
   end)%js.

Definition updateDocument (document : Document) (updates : Updates) : M Document :=
  (let old := doc_content document in
   let content :=
     {| content_title := default (upd_title updates) (content_title old);
        content_sections := default (upd_sections updates) (content_sections old);
        content_extra := Obj.spread (content_extra old) (upd_extra updates) |} in
   let* modified := new_Date in
   ret {| doc_id := doc_id document;
          doc_name := doc_name document;
          doc_type := doc_type document;
          doc_caseId := doc_caseId document;
          doc_template := doc_template document;
          doc_content := content;
          doc_metadata :=
            {| meta_created := meta_created (doc_metadata document);
               meta_modified := modified;
               meta_author := meta_author (doc_metadata document);
               meta_status := meta_status (doc_metadata document) |};
          doc_version := Num.add (doc_version document) Num.lit_1;
          doc_tags := doc_tags document;
          doc_analysis := doc_analysis document |})%js.

End DocumentGenerator.

(** ** Case manager *)

Record Case := mkCase {
  case_id : string;
  case_name : string;
  case_status : string;
  case_type : string;
  case_client : string;
  case_opponent : string;
  case_courtName : string;
  case_caseNumber : string;
  case_judge : string;
  case_description : string;
  case_priority : string;
  case_createdAt : Time;
  case_modifiedAt : Time;
  case_createdBy : string;
  case_dueDate : option Time;
  case_documents : list string;
  case_folders : list string;
  case_tags : list string;
  case_customFields : list (string * string)
}.

(** The [metadata] argument of [createCase]. *)
Record CaseMetadata := mkCaseMetadata {
  cmeta_props : list (string * string);
  cmeta_dueDate : option Time;
  cmeta_tags : option (list string);
  cmeta_customFields : option (list (string * string))
}.

Record CaseManager := mkCaseManager {
  cm_cases : gmap string Case;
  cm_caseDocuments : gmap string (list string);
  cm_caseChats : gmap string (list string)
}.

Module CaseManagerOps.

Definition empty : CaseManager :=
  {| cm_cases := ∅; cm_caseDocuments := ∅; cm_caseChats := ∅ |}.

Definition set_documents (c : Case) (documents : list string) (modifiedAt : Time) : Case :=
  mkCase (case_id c) (case_name c) (case_status c) (case_type c) (case_client c)
         (case_opponent c) (case_courtName c) (case_caseNumber c) (case_judge c)
         (case_description c) (case_priority c) (case_createdAt c) modifiedAt
         (case_createdBy c) (case_dueDate c) documents (case_folders c)
         (case_tags c) (case_customFields c).

Definition createCase (cm : CaseManager) (caseName : string) (metadata : CaseMetadata)
  : M (Case * CaseManager) :=
  (let prop key d := Js.or_else (Obj.get (cmeta_props metadata) key) d in
   let* caseId := uuidv4 in
   let* createdAt := new_Date in
   let* modifiedAt := new_Date in
   let caseObj :=
     {| case_id := caseId;
        case_name := caseName;
        case_status := prop "status" "open";
        case_type := prop "type" "general";
        case_client := prop "client" EmptyString;
        case_opponent := prop "opponent" EmptyString;
        case_courtName := prop "courtName" EmptyString;
        case_caseNumber := prop "caseNumber" EmptyString;
        case_judge := prop "judge" EmptyString;
        case_description := prop "description" EmptyString;
        case_priority := prop "priority" "medium";
        case_createdAt := createdAt;
        case_modifiedAt := modifiedAt;
        case_createdBy := prop "createdBy" "System";
        case_dueDate := cmeta_dueDate metadata;
        case_documents := [];
        case_folders := [];
        case_tags := DocumentGenerator.default (cmeta_tags metadata) [];
        case_customFields := DocumentGenerator.default (cmeta_customFields metadata) [] |} in
   ret (caseObj,
        {| cm_cases := <[caseId := caseObj]> (cm_cases cm);
           cm_caseDocuments := <[caseId := []]> (cm_caseDocuments cm);
           cm_caseChats := <[caseId := []]> (cm_caseChats cm) |}))%js.

(** The case object is mutated in place: the map keeps the same key. *)
Definition addDocumentToCase (cm : CaseManager) (caseId documentId : string)
  : M (Case * CaseManager) :=
  match cm_cases cm !! caseId with
  | None => throw (Error "Case not found")
  | Some caseObj =>
      if existsb (String.eqb documentId) (case_documents caseObj)
      then ret (caseObj, cm)
      else
        (let* modifiedAt := new_Date in
         let caseObj' :=
           set_documents caseObj (case_documents caseObj ++ [documentId]) modifiedAt in
         ret (caseObj',
              {| cm_cases := <[caseId := caseObj']> (cm_cases cm);
                 cm_caseDocuments := cm_caseDocuments cm;
                 cm_caseChats := cm_caseChats cm |}))%js
  end.

Definition set_status (c : Case) (status : string) (modifiedAt : Time) : Case :=
  mkCase (case_id c) (case_name c) status (case_type c) (case_client c)
         (case_opponent c) (case_courtName c) (case_caseNumber c) (case_judge c)
         (case_description c) (case_priority c) (case_createdAt c) modifiedAt
         (case_createdBy c) (case_dueDate c) (case_documents c) (case_folders c)
         (case_tags c) (case_customFields c).

(** The manager after a mutation of the case object stored at [caseId]. *)
Definition with_case (cm : CaseManager) (caseId : string) (caseObj : Case) : CaseManager :=
  {| cm_cases := <[caseId := caseObj]> (cm_cases cm);
     cm_caseDocuments := cm_caseDocuments cm;
     cm_caseChats := cm_caseChats cm |}.

(** [if (!documents.includes(docId)) documents.push(docId)] *)
Definition push_new (documents : list string) (docId : string) : list string :=
  if existsb (String.eqb docId) documents then documents else documents ++ [docId].

Definition addDocumentsToCase (cm : CaseManager) (caseId : string)
    (documentIds : list string) : M (Case * CaseManager) :=
  match cm_cases cm !! caseId with
  | None => throw (Error "Case not found")
  | Some caseObj =>
      (let documents := fold_left push_new documentIds (case_documents caseObj) in
       let* modifiedAt := new_Date in
       let caseObj' := set_documents caseObj documents modifiedAt in
       ret (caseObj', with_case cm caseId caseObj'))%js
  end.

Definition getDocuments (cm : CaseManager) (caseId : string) : M (list string) :=
  match cm_cases cm !! caseId with
  | None => throw (Error "Case not found")
  | Some caseObj => ret (case_documents caseObj)
  end.

Definition removeDocumentFromCase (cm : CaseManager) (caseId documentId : string)
  : M (Case * CaseManager) :=
  match cm_cases cm !! caseId with
  | None => throw (Error "Case not found")
  | Some caseObj =>
      (let documents :=
         List.filter (fun id => negb (String.eqb id documentId)) (case_documents caseObj) in
       let* modifiedAt := new_Date in
       let caseObj' := set_documents caseObj documents modifiedAt in
       ret (caseObj', with_case cm caseId caseObj'))%js
  end.

Definition validStatuses : list string :=
  ["open"; "active"; "pending"; "closed"; "archived"].

Definition updateCaseStatus (cm : CaseManager) (caseId status : string)
  : M (Case * CaseManager) :=
  match cm_cases cm !! caseId with
  | None => throw (Error "Case not found")
  | Some caseObj =>
      if existsb (String.eqb status) validStatuses
      then
        (let* modifiedAt := new_Date in
         let caseObj' := set_status caseObj status modifiedAt in
         ret (caseObj', with_case cm caseId caseObj'))%js
      else throw (Error ("Invalid status: " +:+ status))
  end.

Definition getCase (cm : CaseManager) (caseId : string) : M Case :=
  match cm_cases cm !! caseId with
  | None => throw (Error "Case not found")
  | Some caseObj => ret caseObj
  end.

End CaseManagerOps.

(** ** Facade *)

(** [fm_documents] is [this.documents].  [fm_cases] is the key set of
    [this.cases]: its values are the very case objects held by the case
    manager, which never replaces them. *)
Record LegalDocumentManager := mkManager {
  fm_documents : gmap string Document;
  fm_cases : gset string;
  fm_caseManager : CaseManager
}.

Record CreateDocumentResult := mkCreateDocumentResult {
  cdr_success : bool;
  cdr_document : Document;
  cdr_message : string
}.

Module Facade.

Definition empty : LegalDocumentManager :=
  {| fm_documents := ∅; fm_cases := ∅; fm_caseManager := CaseManagerOps.empty |}.

(** [if (caseId)]: [undefined] and the empty string are falsy. *)
Definition truthy (caseId : option string) : option string :=
  match caseId with
  | Some (String c s) => Some (String c s)
  | _ => None
  end.

(** [createDocument] returns the state of the facade next to its result: what
    it has stored before an exception stays stored. *)
Definition createDocument (this : LegalDocumentManager)
    (caseId documentType : option string) (content : option ContentData)
  : World -> Result CreateDocumentResult * LegalDocumentManager * World :=
  fun w =>
    match (let* timestamp := new_Date in
           DocumentGenerator.generate
             {| opt_caseId := caseId; opt_documentType := documentType;
                opt_content := content; opt_timestamp := Some timestamp |})%js w with
    | (Throw e, w) => (Throw e, this, w)
    | (Ok document, w) =>
        let this1 :=
          {| fm_documents := <[doc_id document := document]> (fm_documents this);
             fm_cases := fm_cases this;
             fm_caseManager := fm_caseManager this |} in
        let result :=
          {| cdr_success := true;
             cdr_document := document;
             cdr_message :=
               "Document " +:+ String Js.dquote (doc_name document) +:+ String Js.dquote " created" |} in
        match truthy caseId with
        | None => (Ok result, this1, w)
        | Some cid =>
            match CaseManagerOps.addDocumentToCase (fm_caseManager this1) cid (doc_id document) w with
            | (Throw e, w) => (Throw e, this1, w)
            | (Ok (_, cm), w) =>
                (Ok result,
                 {| fm_documents := fm_documents this1;
                    fm_cases := fm_cases this1;
                    fm_caseManager := cm |},
                 w)
            end
        end
    end.

Definition createCase (this : LegalDocumentManager) (caseName : string)
    (metadata : CaseMetadata)
  : World -> Result Case * LegalDocumentManager * World :=
  fun w =>
    match CaseManagerOps.createCase (fm_caseManager this) caseName metadata w with
    | (Throw e, w) => (Throw e, this, w)
    | (Ok (caseObj, cm), w) =>
        (Ok caseObj,
         {| fm_documents := fm_documents this;
            fm_cases := {[ case_id caseObj ]} ∪ fm_cases this;
            fm_caseManager := cm |},
         w)
    end.

End Facade.

(** ** Concrete documents and environments *)

Module Sample.

(** A clock that advances by one millisecond per reading. *)
Definition world : World :=
  {| clock := fun n => (1700000000000 + Z.of_nat n)%Z;
     ticks := 0;
     uuids := fun n => "uuid-" +:+ String (ascii_of_nat (97 + n)) EmptyString;
     drawn := 0;
     moment_format := fun _ => "2023-11-14_221320" |}.

Definition section (heading text : string) : string * Section_ :=
  (heading, {| sec_heading := heading; sec_content := text; sec_timestamp := 0%Z |}).

(** A draft with the given title and sections. *)
Definition doc (title : string) (sections : list (string * string)) : Document :=
  {| doc_id := "doc-1";
     doc_name := "sample";
     doc_type := "memo";
     doc_caseId := None;
     doc_template := {| tpl_title := title; tpl_sections := map fst sections |};
     doc_content :=
       {| content_title := title;
          content_sections := map (fun '(h, t) => section h t) sections;
          content_extra := [] |};
     doc_metadata :=
       {| meta_created := 0%Z; meta_modified := 0%Z;
          meta_author := "System"; meta_status := "draft" |};
     doc_version := Num.lit_1;
     doc_tags := [];
     doc_analysis := None |}.

End Sample.

(** The options of a memo without content. *)
Definition memo_options (caseId : option string) (timestamp : option Time) : Options :=
  {| opt_caseId := caseId; opt_documentType := Some "memo";
     opt_content := None; opt_timestamp := timestamp |}.

(** The type asked for, [memo] when none is given. *)
Definition requested_type (options : Options) : string :=
  DocumentGenerator.default (opt_documentType options) "memo".

(** The properties of the content passed, none when no content is. *)
Definition content_props (options : Options) : list (string * string) :=
  cd_props (DocumentGenerator.default (opt_content options) DocumentGenerator.empty_content).

(** ** Exporting a document *)

(** What the host provides to the export: the text of a [Date] in a template
    string, and [JSON.stringify(document, null, 2)], which may throw. *)
Record Host := mkHost {
  date_toString : Time -> string;
  JSON_stringify : Document -> Result string
}.

(** The object [exportDocument] returns: [{success: true, format, filename,
    content}] or [{success: false, error}]. *)
Inductive ExportResult :=
| Exported (format filename content : string)
| ExportFailed (error : string).

Module Exporter.

(** The line feed. *)
Definition nl : string := String (ascii_of_N 10) EmptyString.

(** [s.repeat(n)] *)
Fixpoint repeat (s : string) (n : nat) : string :=
  match n with
  | O => EmptyString
  | S n' => s +:+ repeat s n'
  end.

Definition sections_of (document : Document) : list Section_ :=
  map snd (content_sections (doc_content document)).

Definition _exportAsText (host : Host) (document : Document) : string :=
  let text := content_title (doc_content document) +:+ nl in
  let text := text +:+ ("Type: " +:+ doc_type document +:+ nl) in
  let text :=
    text +:+ ("Created: " +:+ date_toString host (meta_created (doc_metadata document)) +:+ nl) in
  let text := text +:+ ("Author: " +:+ meta_author (doc_metadata document) +:+ nl) in
  let text := text +:+ (nl +:+ repeat "=" 50 +:+ nl +:+ nl) in
  fold_left
    (fun text section =>
       let text := text +:+ (sec_heading section +:+ nl) in
       let text := text +:+ (repeat "-" (String.length (sec_heading section)) +:+ nl) in
       text +:+ (sec_content section +:+ nl +:+ nl))
    (sections_of document) text.

Definition _exportAsHTML (document : Document) : string :=
  let title := content_title (doc_content document) in
  let html := "<html><head><title>" +:+ title +:+ "</title></head><body>" +:+ nl in
  let html := html +:+ ("<h1>" +:+ title +:+ "</h1>" +:+ nl) in
  let html :=
    html +:+ ("<p><small>Type: " +:+ doc_type document +:+ " | Author: "
              +:+ meta_author (doc_metadata document) +:+ "</small></p>" +:+ nl) in
  let html := html +:+ ("<hr>" +:+ nl) in
  let html :=
    fold_left
      (fun html section =>
         let html := html +:+ ("<h2>" +:+ sec_heading section +:+ "</h2>" +:+ nl) in
         html +:+ ("<p>" +:+ sec_content section +:+ "</p>" +:+ nl))
      (sections_of document) html in
  html +:+ "</body></html>".

Definition supportedFormats : list string := ["txt"; "html"; "json"; "pdf"].

(** The [switch] of [exportDocument]; its [default] branch is the text
    export. *)
Definition render (host : Host) (document : Document) (format : string) : Result string :=
  if String.eqb format "txt" then Ok (_exportAsText host document)
  else if String.eqb format "html" then Ok (_exportAsHTML document)
  else if String.eqb format "json" then JSON_stringify host document
  else if String.eqb format "pdf" then Ok ("[PDF Export: " +:+ doc_name document +:+ "]")
  else Ok (_exportAsText host document).

(** An unsupported format is thrown before the [try]; what the rendering
    throws is caught and reported in the result. *)
Definition exportDocument (host : Host) (document : Document) (format : option string)
  : M ExportResult :=
  let format := DocumentGenerator.default format "txt" in
  if existsb (String.eqb format) supportedFormats
  then
    match render host document format with
    | Ok exportedContent =>
        ret (Exported format (doc_name document +:+ "." +:+ format) exportedContent)
    | Throw error => ret (ExportFailed (error_message error))
    end
  else throw (Error ("Unsupported format: " +:+ format)).

End Exporter.

(** ** File manager: folders *)

Record Folder := mkFolder {
  folder_id : string;
  folder_name : string;
  folder_parentId : option string;
  folder_children : list string;
  folder_documents : list string;
  folder_created : Time;
  folder_modified : Time
}.

Module FileManager.

Definition add_child (parent : Folder) (folderId : string) : Folder :=
  mkFolder (folder_id parent) (folder_name parent) (folder_parentId parent)
           (folder_children parent ++ [folderId]) (folder_documents parent)
           (folder_created parent) (folder_modified parent).

(** [createFolder] on [this.folders].  The folder returned is the object
    stored in the map, so it shows the child pushed on it when the new
    identifier is the one of the parent. *)
Definition createFolder (folders : gmap string Folder) (folderName : string)
    (parentFolderId : option string) : M (Folder * gmap string Folder) :=
  (let* folderId := uuidv4 in
   let* created := new_Date in
   let* modified := new_Date in
   let folder :=
     {| folder_id := folderId;
        folder_name := folderName;
        folder_parentId := parentFolderId;
        folder_children := [];
        folder_documents := [];
        folder_created := created;
        folder_modified := modified |} in
   let folders := <[folderId := folder]> folders in
   let folders :=
     match Facade.truthy parentFolderId with
     | Some parentId =>
         match folders !! parentId with
         | Some parent => <[parentId := add_child parent folderId]> folders
         | None => folders
         end
     | None => folders
     end in
   ret (match folders !! folderId with
        | Some stored => stored
        | None => folder
        end,
        folders))%js.

(** Every child listed by a folder is a folder of the map. *)
Definition children_known (folders : gmap string Folder) : Prop :=
  forall id folder child,
    folders !! id = Some folder -> child ∈ folder_children folder ->
    is_Some (folders !! child).

End FileManager.

(** ** The facade and its case manager *)

(** Every case the facade has registered is a case of its case manager. *)
Definition cases_known (this : LegalDocumentManager) : Prop :=
  forall caseId, caseId ∈ fm_cases this ->
                 is_Some (cm_cases (fm_caseManager this) !! caseId).

(** ** What a generated document looks like *)

Module Generated.

(** The environment after [n] more readings of the clock. *)
Definition later (w : World) (n : nat) : World :=
  mkWorld (clock w) (ticks w + n) (uuids w) (drawn w) (moment_format w).

(** The section of the given name, built at the [i]-th reading after [w]. *)
Definition section_at (props : list (string * string)) (w : World) (i : nat)
    (name : string) : string * Section_ :=
  (name,
   {| sec_heading := name;
      sec_content := Js.or_else (Obj.get props name) (DocumentGenerator.placeholder name);
      sec_timestamp := clock w (ticks w + i) |}).

Definition sections (props : list (string * string)) (w : World) (names : list string)
  : list (string * Section_) :=
  imap (section_at props w) names.

(** A section left without content: no property of its name, or an empty
    one. *)
Definition unfilled (props : list (string * string)) (name : string) : Prop :=
  Obj.get props name = None \/ Obj.get props name = Some EmptyString.

(** The time stamp of the document: the one passed, or else a reading of
    the clock. *)
Definition stamp (options : Options) (w : World) : Time :=
  DocumentGenerator.default (opt_timestamp options) (clock w (ticks w)).

(** The environment in which the sections are built: the time stamp has
    been read, unless it was passed, and one identifier drawn. *)
Definition start (options : Options) (w : World) : World :=
  mkWorld (clock w)
          (match opt_timestamp options with Some _ => ticks w | None => S (ticks w) end)
          (uuids w) (S (drawn w)) (moment_format w).

(** The document of the given template. *)
Definition document (options : Options) (w : World) (template : Template) : Document :=
  let content :=
    DocumentGenerator.default (opt_content options) DocumentGenerator.empty_content in
  {| doc_id := uuids w (drawn w);
     doc_name := tpl_title template +:+ "_" +:+ moment_format w (stamp options w);
     doc_type := DocumentGenerator.default (opt_documentType options) "memo";
     doc_caseId := opt_caseId options;
     doc_template := template;
     doc_content :=
       {| content_title :=
            Js.or_else (Obj.get (cd_props content) "title") (tpl_title template);
          content_sections :=
            sections (cd_props content) (start options w) (tpl_sections template);
          content_extra := [] |};
     doc_metadata :=
       {| meta_created := stamp options w;
          meta_modified := stamp options w;
          meta_author := Js.or_else (Obj.get (cd_props content) "author") "System";
          meta_status := "draft" |};
     doc_version := Num.lit_1;
     doc_tags := DocumentGenerator.default (cd_tags content) [];
     doc_analysis := None |}.

End Generated.

(** ** A concrete case and folder *)

Module SampleCase.

Definition case : Case :=
  {| case_id := "case-1";
     case_name := "Acme v. Bolt";
     case_status := "open";
     case_type := "general";
     case_client := "Acme";
     case_opponent := "Bolt";
     case_courtName := EmptyString;
     case_caseNumber := EmptyString;
     case_judge := EmptyString;
     case_description := EmptyString;
     case_priority := "medium";
     case_createdAt := 0%Z;
     case_modifiedAt := 0%Z;
     case_createdBy := "System";
     case_dueDate := None;
     case_documents := ["doc-1"; "doc-2"];
     case_folders := [];
     case_tags := [];
     case_customFields := [] |}.

Definition manager : CaseManager :=
  {| cm_cases := {[ "case-1" := case ]};
     cm_caseDocuments := {[ "case-1" := [] ]};
     cm_caseChats := {[ "case-1" := [] ]} |}.

Definition facade : LegalDocumentManager :=
  {| fm_documents := ∅; fm_cases := {[ "case-1" ]}; fm_caseManager := manager |}.

Definition root : Folder :=
  {| folder_id := "folder-1";
     folder_name := "Pleadings";
     folder_parentId := None;
     folder_children := [];
     folder_documents := [];
     folder_created := 0%Z;
     folder_modified := 0%Z |}.

Definition folders : gmap string Folder := {[ "folder-1" := root ]}.

End SampleCase.

(** * The design document's descriptions

    Definitions that follow the wording of the design document, to be compared
    with the functions embedded from the source. *)

(** The scan the design document describes: every (sentence, category,
    keyword) triple, sentence-major, then category, then keyword. *)
Module KeyPointsSpec.
Import Js DocumentAnalyzer.

Definition scan_order (sentences : list string) : list (string * string * string) :=
  flat_map (fun sentence =>
    flat_map (fun '(category, keywords) =>
      map (fun keyword => (sentence, category, keyword)) keywords)
      legalKeywords)
    sentences.

Definition is_match (t : string * string * string) : bool :=
  let '(sentence, _, keyword) := t in includes (toLowerCase sentence) keyword.

Definition point_of (t : string * string * string) : KeyPoint :=
  let '(sentence, category, _) := t in
  {| kp_category := category; kp_text := trim sentence; kp_importance := "high" |}.

Definition matches (text : string) : list KeyPoint :=
  map point_of (List.filter is_match (scan_order (split_by is_dot text))).

End KeyPointsSpec.


(** The tokens of a text, and the set they form. *)
Module CompareSpec.

Definition tokens (text : string) : list string :=
  Js.split_ws (Js.toLowerCase text).

Definition distinct_tokens (text : string) : gset string :=
  list_to_set (tokens text).

End CompareSpec.

(** Occurrences of a word in a text as a substring. *)
Module SentimentSpec.

(** The number of positions of [text] at which [word] starts. *)
Fixpoint occurrences (text word : string) : nat :=
  (if String.prefix word text then 1 else 0) +
  match text with
  | EmptyString => 0
  | String _ text' => occurrences text' word
  end.

(** The occurrences of all the words of a list together. *)
Definition total_occurrences (words : list string) (text : string) : nat :=
  list_sum (map (occurrences text) words).

(** The words of a list that occur at least once. *)
Definition present (words : list string) (text : string) : list string :=
  List.filter (fun word => Nat.leb 1 (occurrences text word)) words.

End SentimentSpec.

(** Two analysis results that agree on every field but [analyzedAt]. *)
Definition same_but_analyzedAt (a1 a2 : Analysis) : Prop :=
  an_documentId a1 = an_documentId a2
  /\ an_documentType a1 = an_documentType a2
  /\ an_summary a1 = an_summary a2
  /\ an_keyPoints a1 = an_keyPoints a2
  /\ an_legalTerms a1 = an_legalTerms a2
  /\ an_sections a1 = an_sections a2
  /\ an_sentiment a1 = an_sentiment a2
  /\ an_risks a1 = an_risks a2
  /\ an_recommendations a1 = an_recommendations a2
  /\ an_readability a1 = an_readability a2.

(** Whole-word matches of a legal term. *)
Module LegalTermsSpec.

(** The number of positions at which [word] stands, in whatever case, between
    two word boundaries; [prev] is the code unit before the text. *)
Fixpoint match_positions (word : string) (prev : option ascii) (text : string) : nat :=
  (if Regex.matches_at word prev text then 1 else 0) +
  match text with
  | EmptyString => 0
  | String c text' => match_positions word (Some c) text'
  end.

Definition whole_word_matches (text word : string) : nat :=
  match_positions word None text.

(** The entry of a term. *)
Definition entry (text term : string) : LegalTerm :=
  {| lt_term := term; lt_occurrences := whole_word_matches text term |}.

(** Decreasing occurrence counts. *)
Definition descending (a b : LegalTerm) : Prop :=
  lt_occurrences b <= lt_occurrences a.

(** No whole-word match of [word] can start inside another one: at a
    position after the first, either there is no word boundary or the code
    unit differs from the first one of [word]. *)
Fixpoint inner_ok (p0 prevp : ascii) (rest : string) : bool :=
  match rest with
  | EmptyString => true
  | String p rest' =>
      negb (xorb (Js.is_word prevp) (Js.is_word p) && Js.eqb_ci p0 p)
      && inner_ok p0 p rest'
  end.

Definition inner_start_free (word : string) : bool :=
  match word with
  | EmptyString => false
  | String p0 rest => inner_ok p0 p0 rest
  end.

(** A string without upper-case ASCII letters. *)
Fixpoint no_upper (s : string) : bool :=
  match s with
  | EmptyString => true
  | String c s' => negb (Js.is_upper c) && no_upper s'
  end.

End LegalTermsSpec.

(** Readability, as the design document words it. *)
Module ReadabilitySpec.

(** The number of code units of a text that satisfy [p]. *)
Fixpoint count_chars (p : ascii -> bool) (text : string) : nat :=
  match text with
  | EmptyString => 0
  | String c text' => (if p c then 1 else 0) + count_chars p text'
  end.

(** The lengths of the maximal runs of code units that satisfy [p], from
    left to right; [current] is the length of the run in progress. *)
Definition close_run (current : nat) : list nat :=
  match current with
  | O => []
  | S _ => [current]
  end.

Fixpoint run_lengths (p : ascii -> bool) (current : nat) (text : string) : list nat :=
  match text with
  | EmptyString => close_run current
  | String c text' =>
      if p c then run_lengths p (S current) text'
      else close_run current ++ run_lengths p 0 text'
  end.

(** The pieces of a split on white space: one more than there are maximal
    runs of white space. *)
Definition words (text : string) : nat :=
  S (length (run_lengths Js.is_space 0 text)).

(** The pieces of a split on [.], [!] and [?]: one more than there are such
    characters. *)
Definition sentences (text : string) : nat :=
  S (count_chars Js.is_terminator text).

(** The matches of one or two consecutive vowels that a run of [n] vowels
    holds: [n / 2], rounded up. *)
Fixpoint half_up (n : nat) : nat :=
  match n with
  | S (S k) => S (half_up k)
  | _ => n
  end.

Definition syllables (text : string) : nat :=
  list_sum (map half_up (run_lengths Js.is_vowel 0 text)).

(** 206.835 - 1.015 * (words / sentences) - 84.6 * (syllables / words),
    evaluated in doubles in the order written. *)
Definition raw (words sentences syllables : nat) : Num.number :=
  Num.sub
    (Num.sub Num.lit_206_835
       (Num.mul Num.lit_1_015 (Num.div (Num.of_nat words) (Num.of_nat sentences))))
    (Num.mul Num.lit_84_6 (Num.div (Num.of_nat syllables) (Num.of_nat words))).

(** clamp(0, 100, x) *)
Definition clamp (x : Num.number) : Num.number :=
  Num.Math_max Num.lit_0 (Num.Math_min Num.lit_100 x).

(** The same formula on rational numbers, without rounding. *)
Definition decimal (n : Z) (d : positive) : QArith_base.Q := QArith_base.Qmake n d.

Definition ratio (a b : nat) : QArith_base.Q :=
  QArith_base.Qdiv (QArith_base.inject_Z (Z.of_nat a)) (QArith_base.inject_Z (Z.of_nat b)).

Definition exact (words sentences syllables : nat) : QArith_base.Q :=
  QArith_base.Qminus
    (QArith_base.Qminus (decimal 206835 1000)
       (QArith_base.Qmult (decimal 1015 1000) (ratio words sentences)))
    (QArith_base.Qmult (decimal 846 10) (ratio syllables words)).

(** [x > n] on rational numbers. *)
Definition above (x : QArith_base.Q) (n : Z) : bool :=
  negb (QArith_base.Qle_bool x (QArith_base.inject_Z n)).

(** clamp(0, 100, x) on rational numbers. *)
Definition clamp_exact (x : QArith_base.Q) : QArith_base.Q :=
  if above x 100 then QArith_base.inject_Z 100
  else if above x 0 then x
  else QArith_base.inject_Z 0.

(** The label of an unrounded score: >80 Easy, >50 Medium, >30 Difficult,
    else Very Difficult. *)
Definition label (x : QArith_base.Q) : string :=
  if above x 80 then "Easy"
  else if above x 50 then "Medium"
  else if above x 30 then "Difficult"
  else "Very Difficult".

(** The greatest length of an ECMAScript string. *)
Definition max_string_length : Z := 9007199254740991.

(** A text of 160 words in 7 segments with 196 vowel clusters. *)
Definition threshold_text : string :=
  Exporter.repeat "a. " 6 +:+ Exporter.repeat "a " 118 +:+ Exporter.repeat "aba " 35 +:+ "aba".

End ReadabilitySpec.

(** The integer a Number stands for, when it stands for one. *)
Module VersionSpec.

Definition integer (x : Num.number) : option Z :=
  match x with
  | S754_zero _ => Some 0%Z
  | S754_finite s m e =>
      if (0 <=? e)%Z then Some (cond_Zopp s (Zpos m * 2 ^ e))%Z
      else if (Zpos m mod 2 ^ (- e) =? 0)%Z then Some (cond_Zopp s (Zpos m / 2 ^ (- e)))%Z
      else None
  | _ => None
  end.

(** The sample draft at the given version. *)
Definition at_version (version : Z) : Document :=
  let document := Sample.doc "Lease" [("Rent", "Due monthly")] in
  mkDocument (doc_id document) (doc_name document) (doc_type document) (doc_caseId document)
             (doc_template document) (doc_content document) (doc_metadata document)
             (Num.of_Z version) (doc_tags document) (doc_analysis document).

(** An update that holds nothing. *)
Definition no_updates : Updates :=
  {| upd_title := None; upd_sections := None; upd_extra := [] |}.

End VersionSpec.

(** * Properties *)

(** ** The primitives on examples *)

Example split_ws_ex1 : Js.split_ws "a  b" = ["a"; "b"].
Proof. reflexivity. Qed.
Example split_ws_ex2 : Js.split_ws " a " = [EmptyString; "a"; EmptyString].
Proof. reflexivity. Qed.
Example split_ws_ex3 : Js.split_ws EmptyString = [EmptyString].
Proof. reflexivity. Qed.
Example split_by_ex1 : Js.split_by Js.is_dot "a.b." = ["a"; "b"; EmptyString].
Proof. reflexivity. Qed.
Example trim_ex1 : Js.trim "  a b  " = "a b".
Proof. reflexivity. Qed.
Example lower_ex1 : Js.toLowerCase "Force MAJEURE" = "force majeure".
Proof. reflexivity. Qed.
Example vowel_ex1 : map Js.is_vowel ["a"; "E"; "y"; "U"]%char = [true; true; false; true].
Proof. reflexivity. Qed.
Example count_matches_ex1 :
  Regex.count_matches "party" None "party, counterparty and third party" 0 = 2.
Proof. reflexivity. Qed.
Example count_matches_ex2 :
  Regex.count_matches "force majeure" None "a force majeure event; force majeures" 0 = 1.
Proof. reflexivity. Qed.
Example count_vowel_clusters_ex1 : Regex.count_vowel_clusters "queueing a" = 4.
Proof. reflexivity. Qed.
Example lit_100_ex : Num.lit_100 = S754_finite false 7036874417766400 (-46).
Proof. reflexivity. Qed.
Example Math_round_ex1 :
  Num.Math_round (Num.div (Num.of_Z 5) (Num.of_Z 2)) = Num.of_Z 3.
Proof. vm_compute. reflexivity. Qed.
Example Math_round_ex2 :
  Num.Math_round (Num.div (Num.of_Z (-5)) (Num.of_Z 2)) = Num.of_Z (-2).
Proof. vm_compute. reflexivity. Qed.
Example Math_round_ex3 :
  Num.Math_round (Num.div (Num.of_Z (-1)) (Num.of_Z 4)) = S754_zero true.
Proof. vm_compute. reflexivity. Qed.
Example Math_round_ex4 :
  Num.Math_round (Num.div (Num.of_Z 4999) (Num.of_Z 100)) = Num.of_Z 50.
Proof. vm_compute. reflexivity. Qed.
Example array_index_ex :
  map Obj.array_index ["0"; "10"; "01"; "4294967294"; "4294967295"; "1e3"; "title"]
  = [Some 0%N; Some 10%N; None; Some 4294967294%N; None; None; None].
Proof. reflexivity. Qed.
Example set_index_ex :
  Obj.set [("2", "b"); ("note", "n")] "10" "x" = [("2", "b"); ("10", "x"); ("note", "n")].
Proof. reflexivity. Qed.
Example set_last_ex :
  Obj.set [("2", "b"); ("note", "n")] "01" "x" = [("2", "b"); ("note", "n"); ("01", "x")].
Proof. reflexivity. Qed.
Example add_ex1 : Num.add (Num.of_Z 41) Num.lit_1 = Num.of_Z 42.
Proof. vm_compute. reflexivity. Qed.
Example add_ex2 :
  Num.add (Num.of_Z 9007199254740994) Num.lit_1 = Num.of_Z 9007199254740996.
Proof. vm_compute. reflexivity. Qed.

(** ** Loops that push on an array *)

Section ForEach.
Import DocumentAnalyzer.
Context {A B : Type}.

(** A callback that only pushes makes [forEach] append. *)
Lemma forEach_append (f : list B -> A -> list B) (h : A -> list B) :
  (forall acc x, f acc x = acc ++ h x) ->
  forall l acc, forEach f l acc = acc ++ flat_map h l.
Proof.
  intros Hf l. unfold forEach.
  induction l as [|x l IH]; intros acc; simpl.
  - now rewrite app_nil_r.
  - rewrite IH, Hf, <- app_assoc. reflexivity.
Qed.

Lemma flat_map_filter_map (p : A -> bool) (g : A -> B) (l : list A) :
  flat_map (fun x => if p x then [g x] else []) l = map g (List.filter p l).
Proof.
  induction l as [|x l IH]; simpl; [reflexivity|].
  destruct (p x); simpl; now rewrite IH.
Qed.

End ForEach.

Lemma flat_map_flat_map {A B C} (f : A -> list B) (g : B -> list C) (l : list A) :
  flat_map g (flat_map f l) = flat_map (fun x => flat_map g (f x)) l.
Proof.
  induction l as [|x l IH]; simpl; [reflexivity|].
  now rewrite flat_map_app, IH.
Qed.

Lemma flat_map_map {A B C} (f : A -> B) (g : B -> list C) (l : list A) :
  flat_map g (map f l) = flat_map (fun x => g (f x)) l.
Proof. induction l as [|x l IH]; simpl; [reflexivity|]. now rewrite IH. Qed.

(** ** Key points *)

Lemma all_key_points (text : string) :
  DocumentAnalyzer.forEach (fun keyPoints sentence =>
      DocumentAnalyzer.forEach (fun keyPoints '(category, keywords) =>
        DocumentAnalyzer.forEach (fun keyPoints keyword =>
          if Js.includes (Js.toLowerCase sentence) keyword
          then DocumentAnalyzer.push keyPoints
                 {| kp_category := category;
                    kp_text := Js.trim sentence;
                    kp_importance := "high" |}
          else keyPoints)
          keywords keyPoints)
        DocumentAnalyzer.legalKeywords keyPoints)
      (Js.split_by Js.is_dot text) []
  = KeyPointsSpec.matches text.
Proof.
  unfold KeyPointsSpec.matches, KeyPointsSpec.scan_order.
  rewrite <- flat_map_filter_map.
  rewrite (@flat_map_flat_map string (string * string * string) KeyPoint).
  erewrite forEach_append; [reflexivity|].
  intros acc sentence. cbv beta.
  rewrite (@flat_map_flat_map (string * list string) (string * string * string) KeyPoint).
  erewrite forEach_append; [reflexivity|].
  intros acc' [category keywords]. cbv beta.
  rewrite (@flat_map_map string (string * string * string) KeyPoint).
  erewrite forEach_append; [reflexivity|].
  intros acc'' keyword. cbv beta. unfold DocumentAnalyzer.push. simpl.
  destruct (Js.includes _ _); [reflexivity | now rewrite app_nil_r].
Qed.

(** C6: the key points are the first ten matches of the scan in
    sentence-major, then category, then keyword order, the categories being
    obligations, rights, penalties, dates, parties; so there are at most ten. *)
Theorem key_points_first_ten_matches (document : Document) :
  length (DocumentAnalyzer._extractKeyPoints document) <= 10
  /\ DocumentAnalyzer._extractKeyPoints document
     = firstn 10 (KeyPointsSpec.matches (DocumentAnalyzer._extractAllText document))
  /\ map fst DocumentAnalyzer.legalKeywords
     = ["obligations"; "rights"; "penalties"; "dates"; "parties"].
Proof.
  unfold DocumentAnalyzer._extractKeyPoints, Js.slice0.
  rewrite all_key_points. split; [|split; reflexivity].
  rewrite length_firstn. lia.
Qed.

(** A sentence is listed once for every keyword it holds, [may] and [party]
    here, and [by] as a substring of [thereby]. *)
Example key_points_scan :
  DocumentAnalyzer._extractKeyPoints
    (Sample.doc "Notice" [("Terms", "Either party may leave. The lease thereby ends")])
  = [ {| kp_category := "rights"; kp_text := "Notice Either party may leave";
         kp_importance := "high" |};
      {| kp_category := "parties"; kp_text := "Notice Either party may leave";
         kp_importance := "high" |};
      {| kp_category := "dates"; kp_text := "The lease thereby ends";
         kp_importance := "high" |} ].
Proof. reflexivity. Qed.

(** ** Legal terms *)

Section WholeWord.
Import Js Regex LegalTermsSpec.

Lemma is_word_canon (c : ascii) : is_word (canon_char c) = is_word c.
Proof. destruct c as [[] [] [] [] [] [] [] []]; reflexivity. Qed.

Lemma eqb_ci_word (p c : ascii) : eqb_ci p c = true -> is_word c = is_word p.
Proof.
  unfold eqb_ci. intros H. apply Ascii.eqb_eq in H.
  rewrite <- (is_word_canon c), <- (is_word_canon p). now rewrite H.
Qed.

Lemma eqb_ci_trans (p0 p c : ascii) : eqb_ci p c = true -> eqb_ci p0 c = eqb_ci p0 p.
Proof.
  unfold eqb_ci. intros H. apply Ascii.eqb_eq in H. now rewrite H.
Qed.

Variables (p0 : ascii) (tail : string).
Hypothesis tail_ok : inner_ok p0 p0 tail = true.
Let word := String p0 tail.

(** While the scan is inside a match, with [rest] of the word still ahead,
    no other match starts. *)
Lemma inside_no_match (p : ascii) (rest : string) (prevp : ascii)
    (prev : option ascii) (c : ascii) (s : string) :
  inner_ok p0 prevp (String p rest) = true ->
  word_at prev = is_word prevp ->
  eqb_ci p c = true ->
  matches_at word prev (String c s) = false.
Proof.
  simpl. intros Hok Hprev Hc.
  apply andb_true_iff in Hok as [Hok _]. apply negb_true_iff in Hok.
  unfold matches_at, word_boundary. simpl.
  rewrite Hprev, (eqb_ci_word _ _ Hc), (eqb_ci_trans p0 _ _ Hc).
  destruct (xorb (is_word prevp) (is_word p)); simpl in *; [|reflexivity].
  now rewrite Hok.
Qed.

Lemma scan_counts_positions (s : string) :
  (forall prev, count_matches word prev s 0 = match_positions word prev s)
  /\ (forall rest prevp prev,
        inner_ok p0 prevp rest = true ->
        word_at prev = is_word prevp ->
        literal_then_boundary rest prev s = true ->
        count_matches word prev s (String.length rest) = match_positions word prev s).
Proof.
  induction s as [|c s [IH0 IHin]].
  - split; [intros prev | intros rest prevp prev _ _ _]; simpl.
    all: unfold matches_at; simpl; now rewrite andb_false_r.
  - assert (forall prev,
              count_matches word prev (String c s) 0
              = match_positions word prev (String c s)) as H0.
    { intros prev. cbn [count_matches match_positions].
      destruct (matches_at word prev (String c s)) eqn:Hm.
      - simpl. f_equal. rewrite Nat.sub_0_r.
        unfold matches_at in Hm. apply andb_true_iff in Hm as [_ Hm].
        simpl in Hm. apply andb_true_iff in Hm as [Hc Hm].
        apply (IHin tail p0); [exact tail_ok | | exact Hm].
        simpl. now apply eqb_ci_word.
      - simpl. apply IH0. }
    split; [exact H0|].
    intros [|p rest] prevp prev Hok Hprev Hlit; [apply H0|].
    cbn [String.length count_matches match_positions].
    pose proof Hlit as Hlit'. simpl in Hlit'.
    apply andb_true_iff in Hlit' as [Hc Hrest].
    rewrite (inside_no_match p rest prevp prev c s Hok Hprev Hc). simpl.
    simpl in Hok. apply andb_true_iff in Hok as [_ Hok].
    apply (IHin rest p); [exact Hok | | exact Hrest].
    simpl. now apply eqb_ci_word.
Qed.

End WholeWord.

(** The matches the regular expression finds, one after the other, are all
    the positions of a whole-word match. *)
Lemma countOccurrences_positions (text word : string) :
  LegalTermsSpec.inner_start_free word = true ->
  DocumentAnalyzer._countOccurrences text word
  = LegalTermsSpec.whole_word_matches text word.
Proof.
  destruct word as [|p0 tail]; [discriminate|]. simpl. intros Hok.
  apply (scan_counts_positions p0 tail Hok text).
Qed.

Lemma legal_terms_inner_start_free :
  forallb LegalTermsSpec.inner_start_free DocumentAnalyzer.commonLegalTerms = true.
Proof. reflexivity. Qed.

Lemma countOccurrences_legal_term (text term : string) :
  In term DocumentAnalyzer.commonLegalTerms ->
  DocumentAnalyzer._countOccurrences text term
  = LegalTermsSpec.whole_word_matches text term.
Proof.
  intros Hin. apply countOccurrences_positions.
  pose proof legal_terms_inner_start_free as H.
  rewrite forallb_forall in H. now apply H.
Qed.

(** A whole-word match in a lower-cased text is an occurrence of the term as
    a substring: the substring test lets every matched term through. *)
Section MatchIsSubstring.
Import Js Regex LegalTermsSpec.

Lemma lower_char_not_upper (c : ascii) : is_upper (lower_char c) = false.
Proof. destruct c as [[] [] [] [] [] [] [] []]; reflexivity. Qed.

Lemma toLowerCase_no_upper (s : string) : no_upper (toLowerCase s) = true.
Proof.
  induction s as [|c s IH]; [reflexivity|]. simpl.
  now rewrite lower_char_not_upper, IH.
Qed.

Lemma canon_char_upper (c : ascii) : is_lower c = true -> is_upper (canon_char c) = true.
Proof. destruct c as [[] [] [] [] [] [] [] []]; vm_compute; congruence. Qed.

Lemma canon_char_inv (c : ascii) : is_lower c = true -> lower_char (canon_char c) = c.
Proof. destruct c as [[] [] [] [] [] [] [] []]; vm_compute; congruence. Qed.

Lemma canon_char_id (c : ascii) : is_lower c = false -> canon_char c = c.
Proof. unfold canon_char. now intros ->. Qed.

Lemma eqb_ci_eq (p c : ascii) :
  is_upper p = false -> is_upper c = false -> eqb_ci p c = true -> p = c.
Proof.
  unfold eqb_ci. intros Hp Hc H. apply Ascii.eqb_eq in H.
  destruct (is_lower p) eqn:Lp, (is_lower c) eqn:Lc.
  - rewrite <- (canon_char_inv p Lp), <- (canon_char_inv c Lc). now rewrite H.
  - rewrite (canon_char_id c Lc) in H. rewrite <- H, canon_char_upper in Hc; congruence.
  - rewrite (canon_char_id p Lp) in H. rewrite H, canon_char_upper in Hp; congruence.
  - now rewrite (canon_char_id p Lp), (canon_char_id c Lc) in H.
Qed.

Lemma literal_prefix (word : string) (prev : option ascii) (s : string) :
  no_upper word = true -> no_upper s = true ->
  literal_then_boundary word prev s = true -> String.prefix word s = true.
Proof.
  revert prev s. induction word as [|p word IH]; intros prev s Hw Hs Hlit.
  - destruct s; reflexivity.
  - destruct s as [|c s]; [discriminate|]. simpl in *.
    apply andb_true_iff in Hw as [Hp Hw]. apply andb_true_iff in Hs as [Hc Hs].
    apply andb_true_iff in Hlit as [Hpc Hlit].
    apply negb_true_iff in Hp, Hc.
    rewrite (eqb_ci_eq p c Hp Hc Hpc).
    destruct (ascii_dec c c); [|congruence]. now apply (IH (Some c)).
Qed.

Lemma match_includes (word : string) (prev : option ascii) (s : string) :
  no_upper word = true -> no_upper s = true ->
  1 <= match_positions word prev s -> includes s word = true.
Proof.
  intros Hw. revert prev. induction s as [|c s IH]; intros prev Hs Hpos.
  - cbn [match_positions includes] in *.
    destruct (matches_at word prev EmptyString) eqn:Hm; [|lia].
    unfold matches_at in Hm. apply andb_true_iff in Hm as [_ Hm].
    now rewrite (literal_prefix word prev _ Hw Hs Hm).
  - cbn [match_positions includes] in *.
    destruct (matches_at word prev (String c s)) eqn:Hm.
    + unfold matches_at in Hm. apply andb_true_iff in Hm as [_ Hm].
      now rewrite (literal_prefix word prev _ Hw Hs Hm).
    + simpl in Hs. apply andb_true_iff in Hs as [_ Hs].
      rewrite (IH (Some c) Hs); [apply orb_true_r | lia].
Qed.

Lemma legal_terms_no_upper :
  forallb no_upper DocumentAnalyzer.commonLegalTerms = true.
Proof. reflexivity. Qed.

Lemma whole_word_match_includes (text term : string) :
  In term DocumentAnalyzer.commonLegalTerms ->
  1 <= whole_word_matches (toLowerCase text) term ->
  includes (toLowerCase text) term = true.
Proof.
  intros Hin. apply match_includes; [|apply toLowerCase_no_upper].
  pose proof legal_terms_no_upper as H. rewrite forallb_forall in H. now apply H.
Qed.

End MatchIsSubstring.

Section StableSort.
Import DocumentAnalyzer LegalTermsSpec.

Lemma sort_insert_In (x e : LegalTerm) (l : list LegalTerm) :
  In e (sort_insert x l) <-> e = x \/ In e l.
Proof.
  induction l as [|y l IH]; simpl; [intuition|].
  destruct (Nat.ltb _ _); simpl; [rewrite IH|]; intuition.
Qed.

Lemma sort_In (e : LegalTerm) (l : list LegalTerm) :
  In e (sort_by_occurrences l) <-> In e l.
Proof.
  induction l as [|x l IH]; simpl; [reflexivity|].
  rewrite sort_insert_In, IH. intuition.
Qed.

Lemma sort_insert_sorted (x : LegalTerm) (l : list LegalTerm) :
  StronglySorted descending l -> StronglySorted descending (sort_insert x l).
Proof.
  induction 1 as [|y l Hl IH Hy]; simpl.
  - repeat constructor.
  - destruct (Nat.ltb_spec (lt_occurrences x) (lt_occurrences y)) as [Hlt|Hge].
    + constructor; [exact IH|].
      rewrite List.Forall_forall in *. intros e He.
      apply sort_insert_In in He as [->|He]; [unfold descending; lia | now apply Hy].
    + constructor; [now constructor|].
      constructor; [exact Hge|].
      rewrite List.Forall_forall in *. intros e He.
      specialize (Hy e He). unfold descending in *. lia.
Qed.

Lemma sort_sorted (l : list LegalTerm) :
  StronglySorted descending (sort_by_occurrences l).
Proof.
  induction l as [|x l IH]; simpl; [constructor | now apply sort_insert_sorted].
Qed.

(** Stability: among the entries with a given count the order is kept. *)
Lemma sort_insert_stable (n : nat) (x : LegalTerm) (l : list LegalTerm) :
  List.filter (fun e => Nat.eqb (lt_occurrences e) n) (sort_insert x l)
  = List.filter (fun e => Nat.eqb (lt_occurrences e) n) (x :: l).
Proof.
  induction l as [|y l IH]; [reflexivity|].
  cbn [sort_insert].
  destruct (Nat.ltb_spec (lt_occurrences x) (lt_occurrences y)) as [Hlt|Hge];
    [|reflexivity].
  cbn [List.filter] in *. rewrite IH.
  destruct (Nat.eqb_spec (lt_occurrences x) n) as [Hx|Hx]; [|reflexivity].
  destruct (Nat.eqb_spec (lt_occurrences y) n) as [Hy|Hy]; [lia | reflexivity].
Qed.

Lemma sort_stable (n : nat) (l : list LegalTerm) :
  List.filter (fun e => Nat.eqb (lt_occurrences e) n) (sort_by_occurrences l)
  = List.filter (fun e => Nat.eqb (lt_occurrences e) n) l.
Proof.
  induction l as [|x l IH]; [reflexivity|].
  cbn [sort_by_occurrences fold_right]. fold (sort_by_occurrences l).
  rewrite sort_insert_stable. cbn [List.filter]. now rewrite IH.
Qed.

(** The terms found, before sorting. *)
Lemma found_terms (text : string) :
  forEach (fun foundTerms term =>
      if Js.includes text term
      then push foundTerms
             {| lt_term := term; lt_occurrences := _countOccurrences text term |}
      else foundTerms)
    commonLegalTerms []
  = map (entry text) (List.filter (Js.includes text) commonLegalTerms).
Proof.
  erewrite forEach_append with
    (h := fun term => if Js.includes text term
                      then [{| lt_term := term;
                               lt_occurrences := _countOccurrences text term |}]
                      else []).
  - rewrite (flat_map_filter_map (Js.includes text)
               (fun term => {| lt_term := term;
                               lt_occurrences := _countOccurrences text term |})).
    apply map_ext_in. intros term Hin.
    apply filter_In in Hin as [Hin _]. unfold entry.
    now rewrite countOccurrences_legal_term.
  - intros acc term. destruct (Js.includes text term); [reflexivity|].
    now rewrite app_nil_r.
Qed.

End StableSort.

(** C1, as amended: a term of the fixed list has an entry exactly when it is
    a substring of the lower-cased flattened text, as it is whenever it has a
    whole-word match; the entry holds the number of its whole-word matches,
    which may be zero; the entries are in decreasing order of that number,
    and entries with the same number are in the order of the fixed list. *)
Theorem legal_terms_substring_gate (document : Document) :
  let text := Js.toLowerCase (DocumentAnalyzer._extractAllText document) in
  let result := DocumentAnalyzer._extractLegalTerms document in
  (forall term n,
      In {| lt_term := term; lt_occurrences := n |} result
      <-> In term DocumentAnalyzer.commonLegalTerms
          /\ Js.includes text term = true
          /\ n = LegalTermsSpec.whole_word_matches text term)
  /\ (forall term,
        In term DocumentAnalyzer.commonLegalTerms ->
        1 <= LegalTermsSpec.whole_word_matches text term ->
        In (LegalTermsSpec.entry text term) result)
  /\ StronglySorted LegalTermsSpec.descending result
  /\ (forall n,
        map lt_term (List.filter (fun e => Nat.eqb (lt_occurrences e) n) result)
        = List.filter (fun term =>
                         Js.includes text term
                         && Nat.eqb (LegalTermsSpec.whole_word_matches text term) n)
                      DocumentAnalyzer.commonLegalTerms).
Proof.
  intros text result. subst result. unfold DocumentAnalyzer._extractLegalTerms.
  cbv zeta. fold text. rewrite found_terms.
  split; [|split; [|split]].
  - intros term n. rewrite sort_In, in_map_iff. split.
    + intros [t [Ht Hin]]. injection Ht as <- <-.
      apply filter_In in Hin. tauto.
    + intros (Hin & Hinc & ->). exists term. split; [reflexivity|].
      apply filter_In. tauto.
  - intros term Hin Hpos. rewrite sort_In. apply in_map, filter_In.
    split; [assumption|]. now apply whole_word_match_includes.
  - apply sort_sorted.
  - intros n. rewrite sort_stable.
    induction DocumentAnalyzer.commonLegalTerms as [|t l IH]; [reflexivity|].
    cbn [List.filter map].
    destruct (Js.includes text t); cbn [map List.filter andb]; [|exact IH].
    destruct (Nat.eqb _ n); cbn [map]; now rewrite IH.
Qed.

(** C1 fails as stated: [contracts] holds the term [contract] but no
    whole-word match of it, and the term is listed, with no occurrence. *)
Lemma legal_terms_entry_without_match :
  let document := Sample.doc "Contracts" [] in
  let text := Js.toLowerCase (DocumentAnalyzer._extractAllText document) in
  LegalTermsSpec.whole_word_matches text "contract" = 0
  /\ In {| lt_term := "contract"; lt_occurrences := 0 |}
        (DocumentAnalyzer._extractLegalTerms document).
Proof. split; [reflexivity | left; reflexivity]. Qed.

(** Two terms with the same count keep the order of the list, below a term
    with a greater count that comes later in the list. *)
Example legal_terms_order :
  DocumentAnalyzer._extractLegalTerms
    (Sample.doc "Agreement"
       [("Terms", "Each party to this contract accepts liability. Liability is capped.")])
  = [ {| lt_term := "liability"; lt_occurrences := 2 |};
      {| lt_term := "agreement"; lt_occurrences := 1 |};
      {| lt_term := "contract"; lt_occurrences := 1 |};
      {| lt_term := "party"; lt_occurrences := 1 |} ].
Proof. reflexivity. Qed.

(** ** Sentiment *)

Lemma includes_occurrences (text word : string) :
  Js.includes text word = Nat.leb 1 (SentimentSpec.occurrences text word).
Proof.
  induction text as [|c text IH]; cbn [Js.includes SentimentSpec.occurrences].
  - destruct (String.prefix word EmptyString); reflexivity.
  - destruct (String.prefix word (String c text)); [reflexivity|].
    exact IH.
Qed.

Lemma filter_includes_present (words : list string) (text : string) :
  List.filter (fun word => Js.includes text word) words = SentimentSpec.present words text.
Proof.
  unfold SentimentSpec.present. apply filter_ext. intros word. apply includes_occurrences.
Qed.

(** C2, as amended: each indicator is the number of the five fixed words
    that occur at least once in the lower-cased flattened text, however often
    each occurs; [overall] compares the two indicators, and is neutral on a
    tie. *)
Theorem sentiment_counts_present_words (document : Document) :
  let text := Js.toLowerCase (DocumentAnalyzer._extractAllText document) in
  let s := DocumentAnalyzer._analyzeSentiment document in
  sen_positiveIndicators s
    = length (SentimentSpec.present DocumentAnalyzer.positiveWords text)
  /\ sen_negativeIndicators s
    = length (SentimentSpec.present DocumentAnalyzer.negativeWords text)
  /\ (sen_overall s = "positive" <-> sen_negativeIndicators s < sen_positiveIndicators s)
  /\ (sen_overall s = "negative" <-> sen_positiveIndicators s < sen_negativeIndicators s)
  /\ (sen_overall s = "neutral" <-> sen_positiveIndicators s = sen_negativeIndicators s).
Proof.
  intros text s. subst s. unfold DocumentAnalyzer._analyzeSentiment.
  cbn [sen_overall sen_positiveIndicators sen_negativeIndicators].
  fold text. rewrite !filter_includes_present.
  set (p := length (SentimentSpec.present DocumentAnalyzer.positiveWords text)).
  set (n := length (SentimentSpec.present DocumentAnalyzer.negativeWords text)).
  split; [reflexivity|]. split; [reflexivity|].
  destruct (Nat.ltb_spec n p); [|destruct (Nat.ltb_spec p n)].
  all: repeat split; intros; try discriminate; try lia; try reflexivity.
Qed.

(** The example of the design document: agree and breach once each. *)
Example sentiment_agree_breach :
  DocumentAnalyzer._analyzeSentiment
    (Sample.doc "Notice" [("Terms", "The parties agree that a breach ends the lease.")])
  = {| sen_overall := "neutral"; sen_positiveIndicators := 1; sen_negativeIndicators := 1 |}.
Proof. reflexivity. Qed.

(** C2 fails as stated: two occurrences of one positive word against a single
    negative one count as one indicator each, and the text is neutral. *)
Lemma sentiment_not_occurrences :
  let document := Sample.doc "We agree. You agree. No breach." [] in
  let text := Js.toLowerCase (DocumentAnalyzer._extractAllText document) in
  let s := DocumentAnalyzer._analyzeSentiment document in
  SentimentSpec.total_occurrences DocumentAnalyzer.positiveWords text = 2
  /\ SentimentSpec.total_occurrences DocumentAnalyzer.negativeWords text = 1
  /\ sen_positiveIndicators s <> SentimentSpec.total_occurrences DocumentAnalyzer.positiveWords text
  /\ sen_overall s <> "positive".
Proof.
  simpl. repeat split; try reflexivity; discriminate.
Qed.

(** ** Readability *)

(** *** Bounds on the floating-point operations *)

Section NumFacts.
Local Open Scope Z_scope.
Local Abbreviation prec := Num.prec.
Local Abbreviation emax := Num.emax.
Local Abbreviation of_Z := Num.of_Z.
Local Abbreviation Fin := Num.Fin.

(** The number of binary digits is [Pos.size]. *)
Lemma digits2_size (p : positive) : digits2_pos p = Pos.size p.
Proof. induction p; simpl; congruence. Qed.

Lemma Zdigits2_nonneg (m : Z) : 0 <= Zdigits2 m.
Proof. destruct m; simpl; lia. Qed.

(** A number is below two to the power of its number of digits. *)
Lemma Zdigits2_lt_pow (m : Z) : 0 <= m -> m < 2 ^ Zdigits2 m.
Proof.
  destruct m as [|p|p]; simpl; intros H; [lia| |lia].
  rewrite digits2_size. pose proof (Pos.size_gt p) as Hp.
  apply Pos2Z.pos_lt_pos in Hp. now rewrite Pos2Z.inj_pow in Hp.
Qed.

Lemma Zdigits2_ge_pow (p : positive) : 2 ^ (Zdigits2 (Zpos p) - 1) <= Zpos p.
Proof.
  simpl. rewrite digits2_size. pose proof (Pos.size_le p) as Hp.
  apply Pos2Z.pos_le_pos in Hp. rewrite Pos2Z.inj_pow in Hp.
  replace (Zpos (Pos.size p)) with (Zpos (Pos.size p) - 1 + 1) in Hp by lia.
  rewrite Z.pow_add_r in Hp by lia. change (2 ^ 1) with 2 in Hp. lia.
Qed.

(** A number below [2^k] has at most [k] digits. *)
Lemma Zdigits2_le (m k : Z) : 0 <= m -> 0 <= k -> m < 2 ^ k -> Zdigits2 m <= k.
Proof.
  intros Hm Hk Hlt. destruct m as [|p|p]; [simpl; lia| |lia].
  destruct (Z_le_gt_dec (Zdigits2 (Zpos p)) k) as [|Hgt]; [assumption|exfalso].
  pose proof (Zdigits2_ge_pow p) as Hge.
  assert (2 ^ k <= 2 ^ (Zdigits2 (Zpos p) - 1)) by (apply Z.pow_le_mono_r; lia).
  lia.
Qed.

Lemma Zdigits2_pos (p : positive) : 1 <= Zdigits2 (Zpos p).
Proof. simpl. lia. Qed.

Lemma Zdigits2_mono (a b : Z) : 0 <= a <= b -> Zdigits2 a <= Zdigits2 b.
Proof.
  intros H. apply Zdigits2_le; [lia | apply Zdigits2_nonneg|].
  pose proof (Zdigits2_lt_pow b). lia.
Qed.

Lemma Zdigits2_mul_pow (m n : Z) :
  0 <= m -> 0 <= n -> Zdigits2 (m * 2 ^ n) <= Zdigits2 m + n.
Proof.
  intros Hm Hn. pose proof (Zdigits2_nonneg m).
  apply Zdigits2_le; [ | lia | ].
  - apply Z.mul_nonneg_nonneg; [lia|]. apply Z.pow_nonneg; lia.
  - rewrite Z.pow_add_r by lia. apply Z.mul_lt_mono_pos_r.
    + apply Z.pow_pos_nonneg; lia.
    + now apply Zdigits2_lt_pow.
Qed.

(** Dropping [n] low bits drops [n] digits. *)
Lemma Zdigits2_div_pow (m n : Z) :
  0 <= m -> 0 < n -> Zdigits2 (m / 2 ^ n) <= Z.max (Zdigits2 m - n) 0.
Proof.
  intros Hm Hn. pose proof (Zdigits2_nonneg m) as Hd.
  assert (0 < 2 ^ n) as Hpow by (apply Z.pow_pos_nonneg; lia).
  apply Zdigits2_le; [apply Z.div_pos; lia | lia |].
  apply Z.div_lt_upper_bound; [lia|].
  pose proof (Zdigits2_lt_pow m Hm) as Hlt.
  destruct (Z_le_gt_dec n (Zdigits2 m)) as [Hle|Hgt].
  - rewrite Z.max_l by lia. rewrite <- Z.pow_add_r by lia.
    now replace (n + (Zdigits2 m - n)) with (Zdigits2 m) by lia.
  - rewrite Z.max_r by lia. change (2 ^ 0) with 1.
    assert (2 ^ Zdigits2 m <= 2 ^ n) by (apply Z.pow_le_mono_r; lia). lia.
Qed.

Lemma Zdigits2_succ (m : Z) : 0 <= m -> Zdigits2 (m + 1) <= Zdigits2 m + 1.
Proof.
  intros Hm. pose proof (Zdigits2_nonneg m). pose proof (Zdigits2_lt_pow m Hm).
  apply Zdigits2_le; [lia | lia |].
  rewrite Z.pow_add_r by lia. change (2 ^ 1) with 2. lia.
Qed.


(** One step of [shr] halves the mantissa. *)
Lemma shr_1_m (r : shr_record) :
  0 <= shr_m r -> shr_m (shr_1 r) = shr_m r / 2.
Proof.
  destruct r as [m rb sb]. cbn [shr_m]. intros Hm.
  destruct m as [|[p|p|]|p]; cbn [shr_1 shr_m]; try lia.
  - reflexivity.
  - apply Z.div_unique with (r := 1); lia.
  - apply Z.div_unique with (r := 0); lia.
  - reflexivity.
Qed.

(** [p] steps of [shr] divide the mantissa by [2^p]. *)
Lemma iter_shr_m (p : positive) (r : shr_record) :
  0 <= shr_m r -> shr_m (SpecFloat.iter_pos shr_1 p r) = shr_m r / 2 ^ Zpos p.
Proof.
  revert r. induction p as [p IH|p IH|]; intros r Hr; cbn [SpecFloat.iter_pos].
  - assert (0 <= shr_m (shr_1 r)) as H1
        by (rewrite shr_1_m by assumption; apply Z.div_pos; lia).
    assert (0 < 2 ^ Zpos p) as Hpow by (apply Z.pow_pos_nonneg; lia).
    assert (0 <= shr_m (SpecFloat.iter_pos shr_1 p (shr_1 r))) as H2
        by (rewrite IH by assumption; apply Z.div_pos; lia).
    rewrite IH, IH, shr_1_m by assumption.
    rewrite !Z.div_div by lia. f_equal.
    replace (Zpos p~1) with (1 + Zpos p + Zpos p) by lia.
    rewrite !Z.pow_add_r by lia. change (2 ^ 1) with 2. lia.
  - assert (0 < 2 ^ Zpos p) as Hpow by (apply Z.pow_pos_nonneg; lia).
    assert (0 <= shr_m (SpecFloat.iter_pos shr_1 p r)) as H2
        by (rewrite IH by assumption; apply Z.div_pos; lia).
    rewrite IH, IH by assumption.
    rewrite !Z.div_div by lia. f_equal.
    replace (Zpos p~0) with (Zpos p + Zpos p) by lia.
    rewrite !Z.pow_add_r by lia. lia.
  - rewrite shr_1_m by assumption. reflexivity.
Qed.

Lemma shr_record_of_loc_m (m : Z) (l : location) : shr_m (shr_record_of_loc m l) = m.
Proof. destruct l as [|[]]; reflexivity. Qed.

(** What [shr_fexp] returns: at most [prec] digits, an exponent of [emin] at
    least, and a magnitude that has not grown beyond [emin]. *)
Lemma shr_fexp_spec (m e : Z) (l : location) :
  0 <= m ->
  let '(r, e') := shr_fexp prec emax m e l in
  0 <= shr_m r
  /\ Zdigits2 (shr_m r) <= prec
  /\ Zdigits2 (shr_m r) + e' <= Z.max (Zdigits2 m + e) (emin prec emax)
  /\ emin prec emax <= e'.
Proof.
  intros Hm. unfold shr_fexp, shr, fexp.
  pose proof (Zdigits2_nonneg m) as Hd.
  set (d := Zdigits2 m) in *.
  destruct (Z.max (d + e - prec) (emin prec emax) - e) as [|n|n] eqn:Hn.
  - rewrite shr_record_of_loc_m. fold d. unfold prec, emin, emax in *. lia.
  - assert (0 <= shr_m (shr_record_of_loc m l)) as H0 by (now rewrite shr_record_of_loc_m).
    rewrite iter_shr_m by assumption. rewrite shr_record_of_loc_m.
    pose proof (Zdigits2_div_pow m (Zpos n) Hm ltac:(lia)) as Hdiv. fold d in Hdiv.
    assert (0 < 2 ^ Zpos n) by (apply Z.pow_pos_nonneg; lia).
    split; [apply Z.div_pos; lia|].
    unfold prec, emin, emax in *. lia.
  - rewrite shr_record_of_loc_m. fold d. unfold prec, emin, emax in *. lia.
Qed.

Lemma round_nearest_even_bounds (m : Z) (l : location) :
  m <= round_nearest_even m l <= m + 1.
Proof.
  unfold round_nearest_even. destruct l as [|[]]; try lia.
  destruct (Z.even m); lia.
Qed.

Lemma Fin_mono (k k' : Z) (x : spec_float) : k <= k' -> Fin k x -> Fin k' x.
Proof. destruct x; simpl; try tauto. lia. Qed.

(** Rounding a mantissa of magnitude below [k] gives a zero or a finite
    number of magnitude at most [k]: it does not overflow. *)
Lemma binary_round_aux_Fin (k : Z) (s : bool) (mx ex : Z) (lx : location) :
  0 <= mx ->
  Zdigits2 mx + ex < k ->
  emin prec emax < k ->
  k <= emax - prec + 1 ->
  Fin k (binary_round_aux prec emax s mx ex lx).
Proof.
  intros Hmx Hmag Hemin Hk. unfold binary_round_aux.
  pose proof (shr_fexp_spec mx ex lx Hmx) as H1.
  destruct (shr_fexp prec emax mx ex lx) as [r1 e1].
  destruct H1 as (H1m & H1d & H1mag & H1e).
  pose proof (round_nearest_even_bounds (shr_m r1) (loc_of_shr_record r1)) as Hr.
  set (m2 := round_nearest_even (shr_m r1) (loc_of_shr_record r1)) in *.
  assert (0 <= m2) as Hm2 by lia.
  assert (Zdigits2 m2 <= Zdigits2 (shr_m r1) + 1) as Hd2.
  { etransitivity; [apply (Zdigits2_mono m2 (shr_m r1 + 1)); lia|].
    now apply Zdigits2_succ. }
  pose proof (shr_fexp_spec m2 e1 loc_Exact Hm2) as H3.
  destruct (shr_fexp prec emax m2 e1 loc_Exact) as [r3 e3].
  destruct H3 as (H3m & H3d & H3mag & H3e).
  destruct (shr_m r3) as [|m3|m3] eqn:Hm3; [exact I| |lia].
  pose proof (Zdigits2_pos m3) as Hpos.
  assert (e3 <= emax - prec) as He3 by (unfold emin, prec, emax in *; lia).
  apply Z.leb_le in He3. rewrite He3. unfold Fin, emin, prec, emax in *. lia.
Qed.


Lemma iter_xO_pow (m d : positive) : Zpos (Pos.iter xO m d) = Zpos m * 2 ^ Zpos d.
Proof.
  induction d as [|d IH] using Pos.peano_ind.
  - simpl. lia.
  - rewrite Pos.iter_succ, Pos2Z.inj_xO, IH, Pos2Z.inj_succ, Z.pow_succ_r by lia. lia.
Qed.

(** Aligning to a lower exponent keeps the value. *)
Lemma shl_align_spec (m : positive) (e e0 : Z) :
  let '(m', e') := shl_align m e e0 in
  Zpos m' = Zpos m * 2 ^ (e - e') /\ e' <= e.
Proof.
  unfold shl_align. destruct (e0 - e) as [|d|d] eqn:Hd.
  - rewrite Z.sub_diag. simpl. lia.
  - rewrite Z.sub_diag. simpl. lia.
  - rewrite iter_xO_pow. replace (e - e0) with (Zpos d) by lia. lia.
Qed.

Lemma shl_align_digits (m : positive) (e e0 : Z) :
  let '(m', e') := shl_align m e e0 in
  Zdigits2 (Zpos m') + e' <= Zdigits2 (Zpos m) + e.
Proof.
  pose proof (shl_align_spec m e e0) as H.
  destruct (shl_align m e e0) as [m' e']. destruct H as [Hm He].
  rewrite Hm. pose proof (Zdigits2_mul_pow (Zpos m) (e - e')). lia.
Qed.

Lemma binary_round_Fin (k : Z) (s : bool) (m : positive) (e : Z) :
  Zdigits2 (Zpos m) + e < k ->
  emin prec emax < k ->
  k <= emax - prec + 1 ->
  Fin k (binary_round prec emax s m e).
Proof.
  intros Hmag Hemin Hk. unfold binary_round.
  pose proof (shl_align_digits m e (fexp prec emax (Zpos (digits2_pos m) + e))) as H.
  destruct (shl_align m e _) as [m' e'].
  apply binary_round_aux_Fin; lia.
Qed.

Lemma binary_normalize_Fin (k : Z) (z e : Z) (s : bool) :
  Zdigits2 z + e < k ->
  emin prec emax < k ->
  k <= emax - prec + 1 ->
  Fin k (binary_normalize prec emax z e s).
Proof.
  intros Hmag Hemin Hk. destruct z as [|m|m]; simpl; [exact I| |];
    apply binary_round_Fin; assumption.
Qed.

Lemma Zdigits2_mul (a b : positive) :
  Zdigits2 (Zpos (a * b)) <= Zdigits2 (Zpos a) + Zdigits2 (Zpos b).
Proof.
  pose proof (Zdigits2_lt_pow (Zpos a)). pose proof (Zdigits2_lt_pow (Zpos b)).
  pose proof (Zdigits2_nonneg (Zpos a)). pose proof (Zdigits2_nonneg (Zpos b)).
  apply Zdigits2_le; [lia | lia |].
  rewrite Pos2Z.inj_mul, Z.pow_add_r by lia.
  apply Z.mul_lt_mono_nonneg; lia.
Qed.

(** Magnitudes add up under multiplication. *)
Lemma SFmul_Fin (k1 k2 k : Z) (x y : spec_float) :
  Fin k1 x -> Fin k2 y ->
  k1 + k2 < k ->
  emin prec emax < k ->
  k <= emax - prec + 1 ->
  Fin k (SFmul prec emax x y).
Proof.
  intros Hx Hy Hsum Hemin Hk.
  destruct x as [sx|sx| |sx mx ex], y as [sy|sy| |sy my ey]; cbn [Fin] in Hx, Hy; try tauto;
    try exact I.
  cbn [SFmul]. apply binary_round_aux_Fin; try assumption; [lia|].
  pose proof (Zdigits2_mul mx my). lia.
Qed.

Lemma Zdigits2_abs (z : Z) : Zdigits2 (Z.abs z) = Zdigits2 z.
Proof. destruct z; reflexivity. Qed.

Lemma Zdigits2_sum (a b d : Z) :
  0 <= d -> Z.abs a < 2 ^ d -> Z.abs b < 2 ^ d -> Zdigits2 (a - b) <= d + 1.
Proof.
  intros Hd Ha Hb. rewrite <- Zdigits2_abs.
  apply Zdigits2_le; [lia | lia |].
  rewrite Z.pow_add_r by lia. change (2 ^ 1) with 2. lia.
Qed.

Lemma aligned_bound (s : bool) (m : positive) (e ez k : Z) :
  ez <= e ->
  Zdigits2 (Zpos m) + e <= k ->
  Z.abs (cond_Zopp s (Zpos (fst (shl_align m e ez)))) < 2 ^ (k - ez).
Proof.
  intros Hez Hk.
  pose proof (shl_align_spec m e ez) as H.
  assert (snd (shl_align m e ez) = ez) as He'.
  { unfold shl_align. destruct (ez - e) eqn:Hd; simpl; lia. }
  destruct (shl_align m e ez) as [m' e']. cbn [fst snd] in *. subst e'.
  destruct H as [Hm _].
  replace (Z.abs (cond_Zopp s (Zpos m'))) with (Zpos m') by (destruct s; simpl; lia).
  rewrite Hm.
  pose proof (Zdigits2_lt_pow (Zpos m) ltac:(lia)) as Hlt.
  pose proof (Zdigits2_nonneg (Zpos m)).
  assert (0 < 2 ^ (e - ez)) by (apply Z.pow_pos_nonneg; lia).
  apply Z.lt_le_trans with (2 ^ Zdigits2 (Zpos m) * 2 ^ (e - ez)); [nia|].
  rewrite <- Z.pow_add_r by lia. apply Z.pow_le_mono_r; lia.
Qed.

(** A difference has at most one digit more than its greater operand, and
    rounding may add another one. *)
Lemma SFsub_Fin (k1 k : Z) (x y : spec_float) :
  Fin k1 x -> Fin k1 y ->
  k1 + 1 < k ->
  emin prec emax < k ->
  k <= emax - prec + 1 ->
  Fin k (SFsub prec emax x y).
Proof.
  intros Hx Hy Hsum Hemin Hk.
  destruct x as [sx|sx| |sx mx ex], y as [sy|sy| |sy my ey]; cbn [Fin] in Hx, Hy; try tauto.
  - destruct sx, sy; exact I.
  - cbn [SFsub Fin]. lia.
  - cbn [SFsub Fin]. lia.
  - cbn [SFsub]. apply binary_normalize_Fin; try assumption.
    set (ez := Z.min ex ey).
    pose proof (aligned_bound sx mx ex ez k1 ltac:(lia) ltac:(lia)) as Ha.
    pose proof (aligned_bound sy my ey ez k1 ltac:(lia) ltac:(lia)) as Hb.
    pose proof (Zdigits2_pos mx).
    pose proof (Zdigits2_sum _ _ (k1 - ez) ltac:(lia) Ha Hb). lia.
Qed.


(** The quotient before rounding is not negative, and its magnitude is at
    most that of the dividend less the exponent of the divisor. *)
Lemma SFdiv_core_bounds (m1 m2 : positive) (e1 e2 : Z) :
  let '(q, e', _) := SFdiv_core_binary prec emax (Zpos m1) e1 (Zpos m2) e2 in
  0 <= q /\ Zdigits2 q + e' <= Zdigits2 (Zpos m1) + e1 - e2.
Proof.
  unfold SFdiv_core_binary.
  set (e' := Z.min _ (e1 - e2)).
  assert (e' <= e1 - e2) as He' by (subst e'; lia).
  set (m' := match e1 - e2 - e' with
             | 0 => Zpos m1
             | Zpos _ => Z.shiftl (Zpos m1) (e1 - e2 - e')
             | Zneg _ => 0
             end).
  assert (m' = Zpos m1 * 2 ^ (e1 - e2 - e')) as Hm'.
  { subst m'. destruct (e1 - e2 - e') as [|n|n] eqn:Hn; [simpl; lia| |lia].
    now rewrite Z.shiftl_mul_pow2 by lia. }
  destruct (Z.div_eucl m' (Zpos m2)) as [q r] eqn:Hdiv.
  assert (q = m' / Zpos m2) as Hq by (unfold Z.div; now rewrite Hdiv).
  assert (0 < 2 ^ (e1 - e2 - e')) by (apply Z.pow_pos_nonneg; lia).
  assert (0 <= m') as Hm'0 by (rewrite Hm'; lia).
  assert (0 <= q) as Hq0 by (rewrite Hq; apply Z.div_pos; lia).
  assert (q <= m') as Hqm.
  { rewrite Hq. apply Z.div_le_upper_bound; [lia | nia]. }
  split; [assumption|].
  pose proof (Zdigits2_mono q m' ltac:(lia)) as H1.
  pose proof (Zdigits2_mul_pow (Zpos m1) (e1 - e2 - e') ltac:(lia) ltac:(lia)) as H2.
  rewrite <- Hm' in H2. lia.
Qed.

(** A quotient whose divisor has an exponent of [- l] at least. *)
Lemma SFdiv_Fin (k1 l k : Z) (x : spec_float) (sy : bool) (my : positive) (ey : Z) :
  Fin k1 x ->
  - l <= ey ->
  k1 + l < k ->
  emin prec emax < k ->
  k <= emax - prec + 1 ->
  Fin k (SFdiv prec emax x (S754_finite sy my ey)).
Proof.
  intros Hx Hey Hsum Hemin Hk.
  destruct x as [sx|sx| |sx mx ex]; cbn [Fin] in Hx; try tauto; try exact I.
  cbn [SFdiv].
  pose proof (SFdiv_core_bounds mx my ex ey) as H.
  destruct (SFdiv_core_binary prec emax (Zpos mx) ex (Zpos my) ey) as [[q e'] lz].
  destruct H as [Hq Hmag].
  apply binary_round_aux_Fin; try assumption. lia.
Qed.

Lemma Zdigits2_unique (m k : Z) : 2 ^ (k - 1) <= m < 2 ^ k -> 1 <= k -> Zdigits2 m = k.
Proof.
  intros [Hlo Hhi] Hk.
  assert (0 < 2 ^ (k - 1)) by (apply Z.pow_pos_nonneg; lia).
  pose proof (Zdigits2_le m k ltac:(lia) ltac:(lia) Hhi) as Hle.
  destruct (Z.eq_dec (Zdigits2 m) k) as [|Hne]; [assumption|exfalso].
  pose proof (Zdigits2_lt_pow m ltac:(lia)) as Hlt.
  pose proof (Zdigits2_nonneg m).
  assert (2 ^ Zdigits2 m <= 2 ^ (k - 1)) by (apply Z.pow_le_mono_r; lia).
  lia.
Qed.

(** Rounding a number that already has [prec] digits and an exponent in
    range returns it. *)
Lemma binary_round_aux_canonical (s : bool) (m : positive) (e : Z) :
  Zdigits2 (Zpos m) = prec ->
  emin prec emax <= e <= emax - prec ->
  binary_round_aux prec emax s (Zpos m) e loc_Exact = S754_finite s m e.
Proof.
  intros Hd He.
  assert (fexp prec emax (Zdigits2 (Zpos m) + e) - e = 0) as H0
      by (unfold fexp; rewrite Hd; unfold prec, emax, emin in *; lia).
  unfold binary_round_aux, shr_fexp. rewrite H0. cbn [shr shr_record_of_loc shr_m
    loc_of_shr_record round_nearest_even]. rewrite H0. cbn [shr shr_record_of_loc shr_m].
  destruct He as [_ He]. apply Z.leb_le in He. now rewrite He.
Qed.

(** The Number of a positive integer below [2^53] is the integer itself,
    with a mantissa of 53 digits. *)
Lemma binary_round_small (p : positive) :
  Zpos p < 2 ^ 53 ->
  exists m,
    binary_round prec emax false p 0 = S754_finite false m (Zdigits2 (Zpos p) - 53)
    /\ Zdigits2 (Zpos m) = prec.
Proof.
  intros Hp. unfold binary_round.
  pose proof (Zdigits2_pos p) as Hd1.
  pose proof (Zdigits2_le (Zpos p) 53 ltac:(lia) ltac:(lia) Hp) as Hd2.
  pose proof (Zdigits2_lt_pow (Zpos p) ltac:(lia)) as Hhi.
  pose proof (Zdigits2_ge_pow p) as Hlo.
  set (d := Zdigits2 (Zpos p)) in *.
  assert (fexp prec emax (Zpos (digits2_pos p) + 0) = d - 53) as Hf.
  { unfold fexp, prec, emax, emin. subst d. simpl Zdigits2 in *. lia. }
  rewrite Hf.
  pose proof (shl_align_spec p 0 (d - 53)) as Hal.
  assert (snd (shl_align p 0 (d - 53)) = d - 53) as Hsnd.
  { unfold shl_align. destruct (d - 53 - 0) eqn:Hz; simpl; lia. }
  destruct (shl_align p 0 (d - 53)) as [mz ez]. cbn [snd] in Hsnd. subst ez.
  destruct Hal as [Hmz _].
  replace (0 - (d - 53)) with (53 - d) in Hmz by lia.
  assert (Zdigits2 (Zpos mz) = prec) as Hdz.
  { apply Zdigits2_unique; [|unfold prec; lia]. rewrite Hmz. unfold prec.
    assert (0 < 2 ^ (53 - d)) by (apply Z.pow_pos_nonneg; lia).
    replace (2 ^ (53 - 1)) with (2 ^ (d - 1) * 2 ^ (53 - d))
      by (rewrite <- Z.pow_add_r by lia; f_equal; lia).
    replace (2 ^ 53) with (2 ^ d * 2 ^ (53 - d))
      by (rewrite <- Z.pow_add_r by lia; f_equal; lia).
    split; nia. }
  exists mz. split; [|assumption].
  apply binary_round_aux_canonical; [assumption|].
  unfold prec, emax, emin. lia.
Qed.

(** The Number of an integer from 1 to [2^53]: finite, positive, with an
    exponent of -52 at least. *)
Lemma of_Z_positive (z : Z) :
  1 <= z <= 2 ^ 53 ->
  exists m e,
    of_Z z = S754_finite false m e
    /\ Zdigits2 (Zpos m) <= prec /\ -52 <= e /\ Zdigits2 (Zpos m) + e <= 54.
Proof.
  intros Hz. destruct (Z.eq_dec z (2 ^ 53)) as [->|Hne].
  - exists 4503599627370496%positive, 1. split; [vm_compute; reflexivity|].
    vm_compute. repeat split; discriminate.
  - destruct z as [|p|p]; try lia. unfold of_Z. cbn [binary_normalize].
    destruct (binary_round_small p ltac:(lia)) as (m & Hm & Hd).
    exists m, (Zdigits2 (Zpos p) - 53). split; [assumption|].
    pose proof (Zdigits2_pos p).
    pose proof (Zdigits2_le (Zpos p) 53 ltac:(lia) ltac:(lia) ltac:(lia)).
    unfold prec in *. lia.
Qed.


End NumFacts.

(** *** Counts *)

Section Counts.
Import Js.

Lemma split_by_aux_length (sep : ascii -> bool) (s : string) :
  length (snd (split_by_aux sep s)) = ReadabilitySpec.count_chars sep s.
Proof.
  induction s as [|c s IH]; [reflexivity|]. simpl.
  destruct (split_by_aux sep s) as [h t]. simpl in IH.
  destruct (sep c); simpl; now rewrite IH.
Qed.

(** A split on single code units has one segment more than separators. *)
Lemma split_by_length (sep : ascii -> bool) (s : string) :
  length (split_by sep s) = S (ReadabilitySpec.count_chars sep s).
Proof.
  unfold split_by. pose proof (split_by_aux_length sep s) as H.
  destruct (split_by_aux sep s) as [h t]. simpl in *. now rewrite H.
Qed.

Lemma count_chars_le (p : ascii -> bool) (s : string) :
  ReadabilitySpec.count_chars p s <= String.length s.
Proof. induction s as [|c s IH]; simpl; [lia|]. destruct (p c); lia. Qed.

Lemma split_ws_aux_length (s : string) :
  length (snd (split_ws_aux s)) <= String.length s.
Proof.
  induction s as [|c s IH]; [reflexivity|]. cbn [split_ws_aux String.length].
  destruct (split_ws_aux s) as [h t]. cbn [snd] in *.
  destruct (is_space c); [destruct (starts_with_space s)|]; cbn [snd length]; lia.
Qed.

Lemma split_ws_length (s : string) :
  1 <= length (split_ws s) <= S (String.length s).
Proof.
  unfold split_ws. pose proof (split_ws_aux_length s) as H.
  destruct (split_ws_aux s) as [h t]. cbn [snd length] in *. lia.
Qed.

Lemma count_vowel_clusters_le (s : string) :
  Regex.count_vowel_clusters s <= String.length s
  /\ forall c, Regex.count_vowel_clusters (String c s) <= S (String.length s).
Proof.
  induction s as [|a s [IH1 IH2]].
  - split; [reflexivity|]. intros c. simpl. destruct (is_vowel c); lia.
  - split; [apply IH2|]. intros c.
    cbn [Regex.count_vowel_clusters String.length] in *.
    specialize (IH2 a).
    destruct (is_vowel c); [destruct (is_vowel a)|]; lia.
Qed.

(** The runs in progress all close alike. *)
Lemma run_lengths_length (s : string) :
  length (ReadabilitySpec.run_lengths is_space 0 s) = length (snd (split_ws_aux s))
  /\ forall k, length (ReadabilitySpec.run_lengths is_space (S k) s)
               = (if starts_with_space s then 0 else 1) + length (snd (split_ws_aux s)).
Proof.
  induction s as [|c s [IH0 IH1]]; [split; reflexivity|].
  cbn [ReadabilitySpec.run_lengths split_ws_aux starts_with_space].
  destruct (split_ws_aux s) as [h t]. cbn [snd] in *.
  destruct (is_space c).
  - split; [|intros k]; rewrite IH1; destruct (starts_with_space s); reflexivity.
  - cbn [ReadabilitySpec.close_run app snd]. split; [exact IH0|].
    intros k. cbn [app length]. now rewrite IH0.
Qed.

(** The split on white space has one piece more than there are runs of
    white space. *)
Lemma split_ws_words (s : string) : length (split_ws s) = ReadabilitySpec.words s.
Proof.
  unfold split_ws, ReadabilitySpec.words.
  rewrite (proj1 (run_lengths_length s)).
  destruct (split_ws_aux s) as [h t]. reflexivity.
Qed.

(** Two more vowels in the run in progress make one more match. *)
Lemma run_lengths_two_more (s : string) (k : nat) :
  list_sum (map ReadabilitySpec.half_up (ReadabilitySpec.run_lengths is_vowel (S (S k)) s))
  = S (list_sum (map ReadabilitySpec.half_up (ReadabilitySpec.run_lengths is_vowel k s))).
Proof.
  revert k. induction s as [|c s IH]; intros k.
  - cbn [ReadabilitySpec.run_lengths ReadabilitySpec.close_run map list_sum fold_right
         ReadabilitySpec.half_up].
    destruct k; cbn [ReadabilitySpec.close_run map list_sum fold_right ReadabilitySpec.half_up];
      lia.
  - cbn [ReadabilitySpec.run_lengths]. destruct (is_vowel c); [apply IH|].
    rewrite !map_app, !list_sum_app.
    destruct k; cbn [ReadabilitySpec.close_run map list_sum fold_right ReadabilitySpec.half_up];
      lia.
Qed.

(** The greedy matches of one or two vowels, run by run. *)
Lemma vowel_clusters_syllables (s : string) :
  Regex.count_vowel_clusters s = ReadabilitySpec.syllables s
  /\ S (match s with
        | EmptyString => 0
        | String c s' =>
            if is_vowel c then Regex.count_vowel_clusters s' else Regex.count_vowel_clusters s
        end)
     = list_sum (map ReadabilitySpec.half_up (ReadabilitySpec.run_lengths is_vowel 1 s)).
Proof.
  unfold ReadabilitySpec.syllables.
  induction s as [|c s [IH0 IH1]]; [split; reflexivity|].
  cbn [Regex.count_vowel_clusters ReadabilitySpec.run_lengths].
  destruct (is_vowel c) eqn:Hc.
  - split; [exact IH1|]. rewrite run_lengths_two_more. now rewrite IH0.
  - cbn [ReadabilitySpec.close_run app map list_sum fold_right ReadabilitySpec.half_up].
    split; [exact IH0|]. now rewrite IH0.
Qed.

End Counts.

(** *** The score *)

Section Score.
Local Open Scope Z_scope.

(** Closed comparisons of integer constants. *)
Local Ltac side := vm_compute; solve [reflexivity | discriminate].

(** The Number of a count. *)
Lemma of_nat_zero_or_positive (n : nat) :
  Z.of_nat n <= 2 ^ 53 ->
  Num.Fin 54 (Num.of_nat n).
Proof.
  intros Hn. destruct (Z.eq_dec (Z.of_nat n) 0) as [H0|H0].
  - unfold Num.of_nat. rewrite H0. exact I.
  - destruct (of_Z_positive (Z.of_nat n) ltac:(lia)) as (m & e & Hm & Hd & He & Hmag).
    unfold Num.of_nat. rewrite Hm. cbn [Num.Fin]. lia.
Qed.

Lemma lit_206_835_Fin : Num.Fin 116 Num.lit_206_835.
Proof. vm_compute. split; discriminate. Qed.

Lemma lit_1_015_Fin : Num.Fin 8 Num.lit_1_015.
Proof. vm_compute. split; discriminate. Qed.

Lemma lit_84_6_Fin : Num.Fin 8 Num.lit_84_6.
Proof. vm_compute. split; discriminate. Qed.

(** Before the clamp the reading ease is a finite number: it is neither NaN
    nor an infinity. *)
Lemma raw_Fin (words sentences syllables : nat) :
  1 <= Z.of_nat words <= 2 ^ 53 ->
  1 <= Z.of_nat sentences <= 2 ^ 53 ->
  Z.of_nat syllables <= 2 ^ 53 ->
  Num.Fin 120 (ReadabilitySpec.raw words sentences syllables).
Proof.
  intros Hw Hs Hy. unfold ReadabilitySpec.raw, Num.sub, Num.mul, Num.div.
  destruct (of_Z_positive (Z.of_nat words) Hw) as (mw & ew & HW & HWd & HWe & HWmag).
  destruct (of_Z_positive (Z.of_nat sentences) Hs) as (ms & es & HS & HSd & HSe & HSmag).
  pose proof (of_nat_zero_or_positive syllables Hy) as HY.
  pose proof (of_nat_zero_or_positive words ltac:(lia)) as HW'.
  set (Y := Num.of_nat syllables) in *.
  unfold Num.of_nat. rewrite HS, HW.
  assert (Num.Fin 54 (S754_finite false mw ew)) as HWf by (cbn [Num.Fin]; lia).
  apply SFsub_Fin with (k1 := 118); [ | | side | side | side].
  - apply SFsub_Fin with (k1 := 116); [ | | side | side | side].
    + exact lit_206_835_Fin.
    + apply SFmul_Fin with (k1 := 8) (k2 := 107); [ | | side | side | side].
      * exact lit_1_015_Fin.
      * apply SFdiv_Fin with (k1 := 54) (l := 52); [assumption | assumption | side | side | side].
  - apply SFmul_Fin with (k1 := 8) (k2 := 107); [ | | side | side | side].
    + exact lit_84_6_Fin.
    + apply SFdiv_Fin with (k1 := 54) (l := 52); [assumption | assumption | side | side | side].
Qed.


(** [Math.round] of a positive number of at most 100. *)
Lemma Math_round_small (m : positive) (e : Z) :
  e < 0 ->
  Zpos m <= 100 * 2 ^ (- e) ->
  exists z, 0 <= z <= 100 /\ Num.Math_round (S754_finite false m e) = Num.of_Z z.
Proof.
  intros He Hm. unfold Num.Math_round.
  assert ((0 <=? e) = false) as -> by (apply Z.leb_gt; lia).
  assert (0 < 2 ^ (- e)) as Hpow by (apply Z.pow_pos_nonneg; lia).
  assert (2 ^ (1 - e) = 2 * 2 ^ (- e)) as Hpow2.
  { replace (1 - e) with (1 + - e) by lia. rewrite Z.pow_add_r by lia. reflexivity. }
  assert (0 <= Num.round_Z false m e <= 100) as Hz.
  { unfold Num.round_Z. cbv beta iota zeta. rewrite Hpow2. clear Hpow2.
    set (P := 2 ^ (- e)) in *. clearbody P. split.
    - apply Z.div_pos; lia.
    - apply Z.lt_succ_r. apply Z.div_lt_upper_bound; lia. }
  destruct (Num.round_Z false m e) as [|z|z] eqn:Hr.
  - exists 0. split; [lia | reflexivity].
  - exists (Zpos z). split; [lia | reflexivity].
  - lia.
Qed.

(** Clamped and rounded, a finite number is an integer from 0 to 100. *)
Lemma clamp_round (k : Z) (x : Num.number) :
  Num.Fin k x ->
  exists z, 0 <= z <= 100 /\ Num.Math_round (ReadabilitySpec.clamp x) = Num.of_Z z.
Proof.
  intros Hx.
  assert (exists z, 0 <= z <= 100
            /\ Num.Math_round (Num.Math_max Num.lit_0 Num.lit_100) = Num.of_Z z) as H100
      by (exists 100; split; [lia | vm_compute; reflexivity]).
  assert (exists z, 0 <= z <= 100 /\ Num.Math_round Num.lit_0 = Num.of_Z z) as H0
      by (exists 0; split; [lia | reflexivity]).
  unfold ReadabilitySpec.clamp.
  destruct x as [s|s| |s m e]; cbn [Num.Fin] in Hx; [destruct s; exact H0 | tauto | tauto |].
  - destruct Hx as [Hd _]. destruct s; [exact H0|].
    assert (Zpos m < 9007199254740992) as Hlt.
    { pose proof (Zdigits2_lt_pow (Zpos m) ltac:(clear; lia)) as Hlt.
      assert (2 ^ Zdigits2 (Zpos m) <= 2 ^ 53) as Hle
          by (apply Z.pow_le_mono_r; unfold Num.prec in Hd; clear -Hd; lia).
      change (2 ^ 53) with 9007199254740992 in Hle.
      set (P := 2 ^ Zdigits2 (Zpos m)) in *. clearbody P. clear -Hlt Hle. lia. }
    clear Hd.
    unfold Num.Math_min, Num.lit_100. cbn [SFcompare].
    destruct (Z.compare_spec (-46) e) as [He|He|He].
    + change (Pos.compare_cont Eq ?a ?b) with (Z.compare (Zpos a) (Zpos b)).
      destruct (Z.compare_spec (Zpos 7036874417766400) (Zpos m)) as [Hm|Hm|Hm];
        [injection Hm as <- | exact H100 | ]; subst e.
      * exact H100.
      * cbn [Num.is_neg_zero Num.Math_max Num.lit_0 SFcompare].
        apply Math_round_small; [clear; lia|].
        change (2 ^ (- -46)) with 70368744177664. clear -Hm. lia.
    + exact H100.
    + cbn [Num.is_neg_zero Num.Math_max Num.lit_0 SFcompare].
      apply Math_round_small; [clear -He; lia|].
      assert (2 ^ 47 <= 2 ^ (- e)) as Hp by (apply Z.pow_le_mono_r; clear -He; lia).
      change (2 ^ 47) with 140737488355328 in Hp.
      set (P := 2 ^ (- e)) in *. clearbody P. clear -Hlt Hp. lia.
Qed.

End Score.

(** C3: for a text of a length that a string can have, the score is
    [Math.round] of the reading ease clamped to 0..100, the formula being
    evaluated in doubles from the number of pieces of the split on white
    space, one more than the number of [.], [!] and [?], and the number of
    matches of one or two consecutive vowels; the score is an integer from 0
    to 100; and the label follows the unrounded double through the
    thresholds 80, 50 and 30 in that order. *)
Theorem readability_score (document : Document) :
  let text := DocumentAnalyzer._extractAllText document in
  (Z.of_nat (String.length text) <= ReadabilitySpec.max_string_length)%Z ->
  let r := DocumentAnalyzer._calculateReadability document in
  let words := ReadabilitySpec.words text in
  let sentences := ReadabilitySpec.sentences text in
  let syllables := ReadabilitySpec.syllables text in
  let ease := ReadabilitySpec.clamp (ReadabilitySpec.raw words sentences syllables) in
  rd_wordCount r = words
  /\ rd_sentenceCount r = sentences
  /\ words = length (Js.split_ws text)
  /\ sentences = length (Js.split_by Js.is_terminator text)
  /\ syllables = DocumentAnalyzer._estimateSyllables text
  /\ rd_score r = Num.Math_round ease
  /\ (exists z, (0 <= z <= 100)%Z /\ rd_score r = Num.of_Z z)
  /\ (rd_difficulty r = "Easy" <-> Num.gt ease Num.lit_80 = true)
  /\ (rd_difficulty r = "Medium"
      <-> Num.gt ease Num.lit_80 = false /\ Num.gt ease Num.lit_50 = true)
  /\ (rd_difficulty r = "Difficult"
      <-> Num.gt ease Num.lit_80 = false /\ Num.gt ease Num.lit_50 = false
          /\ Num.gt ease Num.lit_30 = true)
  /\ (rd_difficulty r = "Very Difficult"
      <-> Num.gt ease Num.lit_80 = false /\ Num.gt ease Num.lit_50 = false
          /\ Num.gt ease Num.lit_30 = false).
Proof.
  intros text Hlen r words sentences syllables ease.
  assert (length (Js.split_ws text) = words) as Hw by apply split_ws_words.
  assert (length (Js.split_by Js.is_terminator text) = sentences) as Hs
      by apply split_by_length.
  assert (DocumentAnalyzer._estimateSyllables text = syllables) as Hy
      by apply vowel_clusters_syllables.
  assert (r = {| rd_score := Num.Math_round ease;
                 rd_difficulty := DocumentAnalyzer.difficulty_of ease;
                 rd_wordCount := words;
                 rd_sentenceCount := sentences |}) as Hr.
  { subst r. unfold DocumentAnalyzer._calculateReadability. cbv zeta.
    fold text. rewrite Hw, Hs, Hy. reflexivity. }
  rewrite Hr. cbn [rd_score rd_difficulty rd_wordCount rd_sentenceCount].
  split; [reflexivity|]. split; [reflexivity|]. split; [now symmetry|].
  split; [now symmetry|]. split; [now symmetry|].
  split; [reflexivity|]. split.
  - apply clamp_round with (k := 120%Z). unfold ReadabilitySpec.max_string_length in Hlen.
    pose proof (split_ws_length text) as Hwl. rewrite Hw in Hwl.
    pose proof (count_chars_le Js.is_terminator text) as Hc.
    pose proof (proj1 (count_vowel_clusters_le text)) as Hyl.
    unfold DocumentAnalyzer._estimateSyllables in Hy. rewrite Hy in Hyl.
    change (2 ^ 53)%Z with 9007199254740992%Z in *.
    apply raw_Fin; change (2 ^ 53)%Z with 9007199254740992%Z;
      subst sentences; unfold ReadabilitySpec.sentences; lia.
  - unfold DocumentAnalyzer.difficulty_of.
    destruct (Num.gt ease Num.lit_80), (Num.gt ease Num.lit_50), (Num.gt ease Num.lit_30).
    all: repeat split; intros; try discriminate; try reflexivity;
      repeat match goal with H : _ /\ _ |- _ => destruct H end; try discriminate.
Qed.

(** A lease of twelve words and three segments. *)
Lemma readability_score_witness :
  let document := Sample.doc "Lease" [("Body", "Rent is due on the first day. Pay it by noon.")] in
  let text := DocumentAnalyzer._extractAllText document in
  (Z.of_nat (String.length text) <= ReadabilitySpec.max_string_length)%Z
  /\ exists z, (0 <= z <= 100)%Z
       /\ rd_score (DocumentAnalyzer._calculateReadability document) = Num.of_Z z.
Proof.
  intros document text. split; [vm_compute; discriminate|].
  apply (readability_score document). vm_compute. discriminate.
Defined.

(** C3 fails as stated: with 160 words, 7 segments and 196 vowel clusters
    the formula gives 80 exactly, which is not above 80, so the label the
    claim gives is Medium; the doubles give a value just above 80, and the
    label is Easy. *)
Lemma readability_label_at_threshold :
  let document := Sample.doc ReadabilitySpec.threshold_text [] in
  let text := DocumentAnalyzer._extractAllText document in
  let r := DocumentAnalyzer._calculateReadability document in
  ReadabilitySpec.words text = 160
  /\ ReadabilitySpec.sentences text = 7
  /\ ReadabilitySpec.syllables text = 196
  /\ QArith_base.Qeq (ReadabilitySpec.clamp_exact (ReadabilitySpec.exact 160 7 196))
                     (QArith_base.inject_Z 80)
  /\ ReadabilitySpec.label (ReadabilitySpec.clamp_exact (ReadabilitySpec.exact 160 7 196))
     = "Medium"
  /\ rd_difficulty r = "Easy"
  /\ rd_score r = Num.of_Z 80.
Proof.
  cbv zeta. repeat split; vm_compute; reflexivity.
Qed.

(** 19 words, 2 segments, 27 vowel clusters: 206.835 - 9.6425 - 120.22 is
    about 76.97. *)
Example readability_medium :
  DocumentAnalyzer._calculateReadability
    (Sample.doc "Notice"
       [("Body", "The tenant shall pay the monthly rent to the landlord before the fifth day of each calendar month.")])
  = {| rd_score := Num.of_Z 77; rd_difficulty := "Medium";
       rd_wordCount := 19; rd_sentenceCount := 2 |}.
Proof. vm_compute. reflexivity. Qed.

(** The clamp at both ends. *)
Example readability_clamped_above :
  DocumentAnalyzer._calculateReadability
    (Sample.doc "Lease" [("Body", "Rent is due on the first day. Pay it by noon.")])
  = {| rd_score := Num.of_Z 100; rd_difficulty := "Easy";
       rd_wordCount := 12; rd_sentenceCount := 3 |}.
Proof. vm_compute. reflexivity. Qed.

Example readability_clamped_below :
  DocumentAnalyzer._calculateReadability
    (Sample.doc "Indemnification obligations"
       [("Body", "Notwithstanding anything aforementioned, the indemnifying organization unconditionally guarantees reimbursement")])
  = {| rd_score := Num.of_Z 0; rd_difficulty := "Very Difficult";
       rd_wordCount := 11; rd_sentenceCount := 1 |}.
Proof. vm_compute. reflexivity. Qed.

(** ** Integers as Numbers *)

Section IntegerFacts.
Local Open Scope Z_scope.
Local Abbreviation prec := Num.prec.
Local Abbreviation emax := Num.emax.
Local Abbreviation of_Z := Num.of_Z.

Lemma iter_pos_nat {A} (f : A -> A) (p : positive) (x : A) :
  SpecFloat.iter_pos f p x = Nat.iter (Pos.to_nat p) f x.
Proof.
  revert x. induction p as [p IH|p IH|]; intros x; cbn [SpecFloat.iter_pos].
  - rewrite !IH, Pos2Nat.inj_xI, <- Nat.iter_add, <- Nat.iter_succ_r.
    f_equal. lia.
  - rewrite !IH, Pos2Nat.inj_xO, <- Nat.iter_add. f_equal. lia.
  - reflexivity.
Qed.

(** Halving an even mantissa loses nothing. *)
Lemma shr_1_even (n : Z) :
  0 <= n ->
  shr_1 (Build_shr_record (2 * n) false false) = Build_shr_record n false false.
Proof. intros Hn. destruct n as [|p|p]; [reflexivity | reflexivity | lia]. Qed.

Lemma iter_shr_exact (k : nat) (n : Z) :
  0 <= n ->
  Nat.iter k shr_1 (Build_shr_record (n * 2 ^ Z.of_nat k) false false)
  = Build_shr_record n false false.
Proof.
  intros Hn. induction k as [|k IH].
  - cbn [Nat.iter Z.of_nat]. rewrite Z.pow_0_r, Z.mul_1_r. reflexivity.
  - rewrite Nat.iter_succ_r.
    replace (n * 2 ^ Z.of_nat (S k)) with (2 * (n * 2 ^ Z.of_nat k))
      by (rewrite Nat2Z.inj_succ, Z.pow_succ_r by lia; lia).
    rewrite shr_1_even; [exact IH|]. apply Z.mul_nonneg_nonneg; [lia|].
    apply Z.pow_nonneg. lia.
Qed.

(** Rounding a mantissa of [prec] digits followed by [n] zero bits drops the
    zero bits. *)
Lemma binary_round_aux_shift (s : bool) (m : positive) (e n : Z) :
  0 <= n ->
  Zdigits2 (Zpos m) = prec ->
  emin prec emax <= e + n <= emax - prec ->
  binary_round_aux prec emax s (Zpos m * 2 ^ n) e loc_Exact = S754_finite s m (e + n).
Proof.
  intros Hn Hd He.
  destruct n as [|p|p]; [|clear Hn|lia].
  - change (2 ^ 0) with 1. rewrite Z.mul_1_r, Z.add_0_r in *.
    now apply binary_round_aux_canonical.
  - assert (0 < 2 ^ Zpos p) as Hpow by (apply Z.pow_pos_nonneg; lia).
    pose proof (Zdigits2_lt_pow (Zpos m) ltac:(lia)) as Hhi.
    pose proof (Zdigits2_ge_pow m) as Hlo. rewrite Hd in Hhi, Hlo.
    assert (Zdigits2 (Zpos m * 2 ^ Zpos p) = prec + Zpos p) as Hdn.
    { apply Zdigits2_unique; [|unfold prec; lia].
      replace (prec + Zpos p - 1) with (prec - 1 + Zpos p) by lia.
      rewrite !Z.pow_add_r by (unfold prec; lia). split; nia. }
    assert (fexp prec emax (Zdigits2 (Zpos m * 2 ^ Zpos p) + e) - e = Zpos p) as H1
        by (rewrite Hdn; unfold fexp, prec, emax, emin in *; lia).
    assert (fexp prec emax (Zdigits2 (Zpos m) + (e + Zpos p)) - (e + Zpos p) = 0) as H0
        by (rewrite Hd; unfold fexp, prec, emax, emin in *; lia).
    unfold binary_round_aux, shr_fexp. rewrite H1.
    assert (Nat.iter (Pos.to_nat p) shr_1 (Build_shr_record (Zpos m * 2 ^ Zpos p) false false)
            = Build_shr_record (Zpos m) false false) as Hit
        by (rewrite <- (positive_nat_Z p); apply iter_shr_exact; lia).
    cbn [shr shr_record_of_loc]. rewrite iter_pos_nat, Hit.
    cbn [shr_m loc_of_shr_record round_nearest_even]. rewrite H0.
    cbn [shr shr_record_of_loc shr_m].
    destruct He as [_ He]. apply Z.leb_le in He. now rewrite He.
Qed.

Lemma shl_align_fst (m : positive) (e ez : Z) :
  ez <= e -> Zpos (fst (shl_align m e ez)) = Zpos m * 2 ^ (e - ez).
Proof.
  intros Hle. unfold shl_align. destruct (ez - e) as [|d|d] eqn:Hd; cbn [fst].
  - replace (e - ez) with 0 by lia. change (2 ^ 0) with 1. lia.
  - lia.
  - rewrite iter_xO_pow. f_equal. f_equal. lia.
Qed.

(** The Number of an integer other than 0 between [-2^53] and [2^53]: its
    sign, and its magnitude shifted to a mantissa of 53 digits. *)
Lemma of_Z_canonical (z : Z) :
  z <> 0 -> Z.abs z < 2 ^ 53 ->
  exists m,
    of_Z z = S754_finite (z <? 0) m (Zdigits2 (Z.abs z) - 53)
    /\ Zpos m = Z.abs z * 2 ^ (53 - Zdigits2 (Z.abs z))
    /\ Zdigits2 (Zpos m) = prec
    /\ 1 <= Zdigits2 (Z.abs z) <= 53.
Proof.
  intros Hz0 Hz.
  assert (exists p, Z.abs z = Zpos p
                    /\ of_Z z = binary_round prec emax (z <? 0) p 0) as (p & Hp & ->)
      by (destruct z as [|p|p]; [lia | exists p | exists p]; split; reflexivity).
  rewrite Hp in *. clear Hp Hz0. generalize (z <? 0) as s. intros s.
  unfold binary_round.
  pose proof (Zdigits2_pos p) as Hd1.
  pose proof (Zdigits2_le (Zpos p) 53 ltac:(lia) ltac:(lia) ltac:(lia)) as Hd2.
  pose proof (Zdigits2_lt_pow (Zpos p) ltac:(lia)) as Hhi.
  pose proof (Zdigits2_ge_pow p) as Hlo.
  set (d := Zdigits2 (Zpos p)) in *.
  assert (fexp prec emax (Zpos (digits2_pos p) + 0) = d - 53) as Hf.
  { unfold fexp, prec, emax, emin. subst d. simpl Zdigits2 in *. lia. }
  rewrite Hf.
  pose proof (shl_align_fst p 0 (d - 53) ltac:(lia)) as Hmz.
  assert (snd (shl_align p 0 (d - 53)) = d - 53) as Hsnd.
  { unfold shl_align. destruct (d - 53 - 0) eqn:Hz'; simpl; lia. }
  destruct (shl_align p 0 (d - 53)) as [mz ez]. cbn [fst snd] in Hmz, Hsnd. subst ez.
  replace (0 - (d - 53)) with (53 - d) in Hmz by lia.
  assert (Zdigits2 (Zpos mz) = prec) as Hdz.
  { apply Zdigits2_unique; [|unfold prec; lia]. rewrite Hmz. unfold prec.
    assert (0 < 2 ^ (53 - d)) by (apply Z.pow_pos_nonneg; lia).
    replace (2 ^ (53 - 1)) with (2 ^ (d - 1) * 2 ^ (53 - d))
      by (rewrite <- Z.pow_add_r by lia; f_equal; lia).
    replace (2 ^ 53) with (2 ^ d * 2 ^ (53 - d))
      by (rewrite <- Z.pow_add_r by lia; f_equal; lia).
    split; nia. }
  exists mz. split; [|split; [exact Hmz | split; [exact Hdz | lia]]].
  apply binary_round_aux_canonical; [assumption|].
  unfold prec, emax, emin. lia.
Qed.

(** A Number made from an integer between [-2^53] and [2^53] stands for
    that integer. *)
Lemma integer_of_Z (z : Z) :
  - 2 ^ 53 <= z <= 2 ^ 53 -> VersionSpec.integer (of_Z z) = Some z.
Proof.
  intros Hz.
  destruct (Z.eq_dec z 0) as [->|H0]; [reflexivity|].
  destruct (Z.eq_dec z (2 ^ 53)) as [->|H53]; [vm_compute; reflexivity|].
  destruct (Z.eq_dec z (- 2 ^ 53)) as [->|H53']; [vm_compute; reflexivity|].
  destruct (of_Z_canonical z ltac:(lia) ltac:(lia)) as (m & -> & Hm & _ & Hd).
  assert (cond_Zopp (z <? 0) (Z.abs z) = z) as Hsign
      by (destruct (Z.ltb_spec z 0); cbn [cond_Zopp]; lia).
  unfold VersionSpec.integer.
  destruct (Z.leb_spec 0 (Zdigits2 (Z.abs z) - 53)) as [Hle|Hlt].
  - replace (53 - Zdigits2 (Z.abs z)) with 0 in Hm by lia.
    replace (Zdigits2 (Z.abs z) - 53) with 0 by lia.
    rewrite Hm, !Z.pow_0_r, !Z.mul_1_r. now rewrite Hsign.
  - replace (- (Zdigits2 (Z.abs z) - 53)) with (53 - Zdigits2 (Z.abs z)) by lia. rewrite Hm.
    assert (0 < 2 ^ (53 - Zdigits2 (Z.abs z))) as Hpow by (apply Z.pow_pos_nonneg; lia).
    rewrite Z.mod_mul by lia. cbn [Z.eqb]. rewrite Z.div_mul by lia. now rewrite Hsign.
Qed.

(** Rounding the mantissa of an integer of [d] digits that has been aligned
    to the exponent [-52]. *)
Lemma binary_round_aligned (s : bool) (q m : positive) (d : Z) :
  Zpos q = Zpos m * 2 ^ (d - 1) ->
  Zdigits2 (Zpos m) = prec ->
  1 <= d <= 53 ->
  binary_round prec emax s q (-52) = S754_finite s m (d - 53).
Proof.
  intros Hq Hdm Hd.
  assert (Zdigits2 (Zpos q) = d + 52) as Hdq.
  { rewrite Hq. apply Zdigits2_unique; [|lia].
    pose proof (Zdigits2_lt_pow (Zpos m) ltac:(lia)) as Hhi.
    pose proof (Zdigits2_ge_pow m) as Hlo. rewrite Hdm in Hhi, Hlo. unfold prec in Hhi, Hlo.
    assert (0 < 2 ^ (d - 1)) by (apply Z.pow_pos_nonneg; lia).
    replace (d + 52 - 1) with (53 - 1 + (d - 1)) by lia.
    replace (d + 52) with (53 + (d - 1)) by lia.
    rewrite !Z.pow_add_r by lia. split; nia. }
  unfold binary_round.
  change (Zpos (digits2_pos q)) with (Zdigits2 (Zpos q)). rewrite Hdq.
  replace (fexp prec emax (d + 52 + -52)) with (d - 53)
    by (unfold fexp, prec, emax, emin; lia).
  assert (shl_align q (-52) (d - 53) = (q, -52)) as ->.
  { unfold shl_align. destruct (d - 53 - -52) eqn:Hsh; [reflexivity | reflexivity | lia]. }
  rewrite Hq. rewrite binary_round_aux_shift; [f_equal; lia | lia | assumption |].
  unfold prec, emax, emin. lia.
Qed.

(** Adding one to an integer from [-2^53] to [2^53 - 1] is exact. *)
Lemma add_one_exact (z : Z) :
  - 2 ^ 53 <= z < 2 ^ 53 -> Num.add (of_Z z) Num.lit_1 = of_Z (z + 1).
Proof.
  intros Hz.
  destruct (Z.eq_dec z 0) as [->|H0]; [reflexivity|].
  destruct (Z.eq_dec z (-1)) as [->|H1]; [reflexivity|].
  destruct (Z.eq_dec z (2 ^ 53 - 1)) as [->|H53]; [vm_compute; reflexivity|].
  destruct (Z.eq_dec z (- 2 ^ 53)) as [->|H53']; [vm_compute; reflexivity|].
  destruct (of_Z_canonical z ltac:(lia) ltac:(lia)) as (m & -> & Hm & Hdm & Hd).
  destruct (of_Z_canonical (z + 1) ltac:(lia) ltac:(lia)) as (m' & -> & Hm' & Hdm' & Hd').
  set (d := Zdigits2 (Z.abs z)) in *. set (d' := Zdigits2 (Z.abs (z + 1))) in *.
  unfold Num.add, Num.lit_1. cbn [SFadd].
  replace (Z.min (d - 53) (-52)) with (-52) by lia.
  pose proof (shl_align_fst m (d - 53) (-52) ltac:(lia)) as Hx.
  pose proof (shl_align_fst 4503599627370496 (-52) (-52) ltac:(lia)) as Hy.
  set (x := fst (shl_align m (d - 53) (-52))) in *.
  set (y := fst (shl_align 4503599627370496 (-52) (-52))) in *.
  assert (Zpos x = Z.abs z * 2 ^ 52) as Hx'.
  { rewrite Hx, Hm. replace (d - 53 - -52) with (d - 1) by lia.
    rewrite <- Z.mul_assoc, <- Z.pow_add_r by lia. do 2 f_equal. lia. }
  assert (Zpos y = 2 ^ 52) as Hy' by (rewrite Hy; reflexivity).
  assert (Zpos m' * 2 ^ (d' - 1) = Z.abs (z + 1) * 2 ^ 52) as Hq.
  { rewrite Hm'. rewrite <- Z.mul_assoc, <- Z.pow_add_r by lia. do 2 f_equal. lia. }
  clear Hx Hy Hm Hm'. change (2 ^ 52) with 4503599627370496 in *.
  destruct (Z.ltb_spec z 0) as [Hneg|Hpos]; cbn [cond_Zopp].
  - destruct (Z.ltb_spec (z + 1) 0) as [_|?]; [|lia].
    destruct (- Zpos x + Zpos y) as [|q|q] eqn:Hsum; [lia | lia |].
    cbn [binary_normalize]. apply binary_round_aligned; [|assumption|lia].
    rewrite Hq. clear -Hsum Hx' Hy' Hneg H1. lia.
  - destruct (Z.ltb_spec (z + 1) 0) as [?|_]; [lia|].
    destruct (Zpos x + Zpos y) as [|q|q] eqn:Hsum; [lia | | lia].
    cbn [binary_normalize]. apply binary_round_aligned; [|assumption|lia].
    rewrite Hq. clear -Hsum Hx' Hy' Hpos. lia.
Qed.

End IntegerFacts.

(** ** Determinism of the analysis *)

(** C4, as amended: [analyze] always succeeds, and two calls on the same
    document, in whatever environments, agree on every field of the result
    but [analyzedAt], which is the reading of the clock in each call. *)
Theorem analyze_deterministic_but_time (document : Document) (w1 w2 : World) :
  exists a1 w1' a2 w2',
    DocumentAnalyzer.analyze document w1 = (Ok a1, w1')
    /\ DocumentAnalyzer.analyze document w2 = (Ok a2, w2')
    /\ same_but_analyzedAt a1 a2
    /\ an_analyzedAt a1 = clock w1 (ticks w1)
    /\ an_analyzedAt a2 = clock w2 (ticks w2).
Proof.
  do 4 eexists. split; [reflexivity|]. split; [reflexivity|].
  unfold same_but_analyzedAt. simpl. repeat split.
Qed.

(** C4 fails as stated: the second of two calls in a row reads a later time. *)
Lemma analyze_twice_differs :
  exists a1 w1 a2 w2,
    DocumentAnalyzer.analyze (Sample.doc "Memo" []) Sample.world = (Ok a1, w1)
    /\ DocumentAnalyzer.analyze (Sample.doc "Memo" []) w1 = (Ok a2, w2)
    /\ a1 <> a2.
Proof.
  do 4 eexists. split; [reflexivity|]. split; [reflexivity|].
  intros H. apply (f_equal an_analyzedAt) in H. discriminate H.
Qed.

(** ** Document generator *)

(** C9: an update, whatever it holds, succeeds; it sets [modified] to the
    reading the clock gives during the call and keeps [id] and [created];
    and when the version is an integer from -2^53 to 2^53 - 1, the version
    after the update is that integer plus one. *)
Theorem updateDocument_version_and_stamps (document : Document) (updates : Updates) (w : World) :
  exists document' w',
    DocumentGenerator.updateDocument document updates w = (Ok document', w')
    /\ (forall n : Z,
          (- 2 ^ 53 <= n < 2 ^ 53)%Z ->
          doc_version document = Num.of_Z n ->
          doc_version document' = Num.of_Z (n + 1)
          /\ VersionSpec.integer (doc_version document) = Some n
          /\ VersionSpec.integer (doc_version document') = Some (n + 1)%Z)
    /\ meta_modified (doc_metadata document') = clock w (ticks w)
    /\ ticks w' = S (ticks w)
    /\ doc_id document' = doc_id document
    /\ meta_created (doc_metadata document') = meta_created (doc_metadata document).
Proof.
  unfold DocumentGenerator.updateDocument, bind, new_Date, ret.
  do 2 eexists. split; [reflexivity|].
  cbn [doc_version doc_metadata meta_modified meta_created doc_id ticks].
  split; [|repeat split].
  intros n Hn ->. rewrite add_one_exact by exact Hn.
  split; [reflexivity|]. split; apply integer_of_Z; lia.
Qed.

(** The first update of a draft at version 1 gives version 2. *)
Lemma updateDocument_version_and_stamps_witness :
  exists document' w',
    DocumentGenerator.updateDocument (VersionSpec.at_version 1) VersionSpec.no_updates
      Sample.world = (Ok document', w')
    /\ doc_version document' = Num.of_Z 2
    /\ VersionSpec.integer (doc_version document') = Some 2%Z.
Proof.
  destruct (updateDocument_version_and_stamps (VersionSpec.at_version 1) VersionSpec.no_updates
              Sample.world) as (document' & w' & Heq & Hversion & _).
  exists document', w'. split; [exact Heq|].
  destruct (Hversion 1%Z) as (H2 & _ & Hint); [vm_compute; split; discriminate || reflexivity
                                              | reflexivity |].
  split; [exact H2 | exact Hint].
Defined.

(** C9 fails as stated: at version 2^53 the sum of the version and one is
    rounded back to 2^53, and the update leaves the version as it was. *)
Lemma updateDocument_version_stuck :
  let document := VersionSpec.at_version 9007199254740992 in
  exists document' w',
    DocumentGenerator.updateDocument document VersionSpec.no_updates Sample.world
    = (Ok document', w')
    /\ VersionSpec.integer (doc_version document) = Some 9007199254740992%Z
    /\ VersionSpec.integer (doc_version document') = Some 9007199254740992%Z
    /\ doc_version document' = doc_version document.
Proof.
  cbv zeta. do 2 eexists. split; [reflexivity|].
  split; [vm_compute; reflexivity|]. split; vm_compute; reflexivity.
Qed.

(** C5: a memo generated from a content without properties has the
    placeholder of its name in each of its seven sections; its analysis lists
    the incomplete_content risk with severity high and reports every section
    as empty. *)
Theorem memo_without_content (options : Options) (w : World) :
  requested_type options = "memo" ->
  content_props options = [] ->
  exists document w',
    DocumentGenerator.generate options w = (Ok document, w')
    /\ map fst (content_sections (doc_content document))
       = ["To"; "From"; "Date"; "Subject"; "Issue"; "Analysis"; "Conclusion"]
    /\ Forall (fun '(name, section) =>
                 sec_heading section = name
                 /\ sec_content section = "[Add " +:+ name +:+ " content here]")
              (content_sections (doc_content document))
    /\ forall w2, exists analysis w3,
         DocumentAnalyzer.analyze document w2 = (Ok analysis, w3)
         /\ In {| risk_type := "incomplete_content"; risk_severity := "high";
                  risk_description :=
                    "Document contains placeholder text that needs to be filled" |}
               (an_risks analysis)
         /\ map st_name (str_sections (an_sections analysis))
            = ["To"; "From"; "Date"; "Subject"; "Issue"; "Analysis"; "Conclusion"]
         /\ Forall (fun s => st_isEmpty s = true) (str_sections (an_sections analysis)).
Proof.
  unfold requested_type, content_props.
  destruct options as [caseId documentType content timestamp]. cbn [opt_documentType opt_content].
  intros Hty Hprops.
  assert (exists tags, DocumentGenerator.default content DocumentGenerator.empty_content
                       = {| cd_props := []; cd_tags := tags |}) as [tags Hcontent].
  { destruct (DocumentGenerator.default content DocumentGenerator.empty_content) as [props tags].
    simpl in Hprops. subst props. now exists tags. }
  unfold DocumentGenerator.generate.
  cbn [opt_documentType opt_content opt_timestamp opt_caseId].
  rewrite Hty, Hcontent. clear Hty Hcontent Hprops.
  destruct timestamp as [t|]; do 2 eexists.
  all: split; [lazy; reflexivity|].
  all: split; [reflexivity|].
  all: split; [repeat constructor|].
  all: intros w2; do 2 eexists; split; [lazy; reflexivity|].
  all: split; [left; reflexivity|].
  all: split; [reflexivity|].
  all: repeat constructor.
Qed.

(** The memo of the facade's default call. *)
Lemma memo_without_content_witness :
  requested_type (memo_options None None) = "memo"
  /\ content_props (memo_options None None) = []
  /\ exists document w',
       DocumentGenerator.generate (memo_options None None) Sample.world = (Ok document, w')
       /\ map fst (content_sections (doc_content document))
          = ["To"; "From"; "Date"; "Subject"; "Issue"; "Analysis"; "Conclusion"]
       /\ Forall (fun '(name, section) =>
                    sec_heading section = name
                    /\ sec_content section = "[Add " +:+ name +:+ " content here]")
                 (content_sections (doc_content document))
       /\ forall w2, exists analysis w3,
            DocumentAnalyzer.analyze document w2 = (Ok analysis, w3)
            /\ In {| risk_type := "incomplete_content"; risk_severity := "high";
                     risk_description :=
                       "Document contains placeholder text that needs to be filled" |}
                  (an_risks analysis)
            /\ map st_name (str_sections (an_sections analysis))
               = ["To"; "From"; "Date"; "Subject"; "Issue"; "Analysis"; "Conclusion"]
            /\ Forall (fun s => st_isEmpty s = true) (str_sections (an_sections analysis)).
Proof.
  split; [reflexivity|]. split; [reflexivity|].
  apply (memo_without_content (memo_options None None) Sample.world); reflexivity.
Defined.

(** The memo itself. *)
Example memo_sections :
  match DocumentGenerator.generate (memo_options None None) Sample.world with
  | (Ok document, _) =>
      map (fun '(_, section) => sec_content section)
          (content_sections (doc_content document))
  | _ => []
  end
  = [ "[Add To content here]"; "[Add From content here]"; "[Add Date content here]";
      "[Add Subject content here]"; "[Add Issue content here]";
      "[Add Analysis content here]"; "[Add Conclusion content here]" ].
Proof. reflexivity. Qed.

(** ** Facade: creating a document of an unknown type *)

(** A type that [this.templates[documentType]] does not find, on the object
    or on its prototype, is rejected by name, before anything is drawn from
    the environment but the time stamp. *)
Lemma generate_unknown_type (options : Options) (documentType : string) (w : World) :
  DocumentGenerator.default (opt_documentType options) "memo" = documentType ->
  Obj.get_chain DocumentGenerator.templates documentType = Obj.Undefined ->
  exists w',
    DocumentGenerator.generate options w
    = (Throw (Error ("Unknown document type: " +:+ documentType)), w')
    /\ drawn w' = drawn w.
Proof.
  intros Hty Hget. unfold DocumentGenerator.generate, bind.
  rewrite Hty, Hget.
  destruct (opt_timestamp options); eexists; split; reflexivity.
Qed.

(** For such a type [createDocument] fails with that error and leaves the
    facade as it was: no document is stored and no case is touched. *)
Lemma createDocument_unknown_type (this : LegalDocumentManager)
    (caseId documentType : option string) (content : option ContentData)
    (ty : string) (w : World) :
  DocumentGenerator.default documentType "memo" = ty ->
  Obj.get_chain DocumentGenerator.templates ty = Obj.Undefined ->
  exists w',
    Facade.createDocument this caseId documentType content w
    = (Throw (Error ("Unknown document type: " +:+ ty)), this, w').
Proof.
  intros Hty Hget. unfold Facade.createDocument, DocumentGenerator.generate, bind.
  simpl. rewrite Hty, Hget. eexists. reflexivity.
Qed.

(** A type that is not a key of the registry never yields a document:
    [createDocument] throws and leaves the facade as it was. *)
Lemma createDocument_unregistered_type (this : LegalDocumentManager)
    (caseId : option string) (ty : string) (content : option ContentData) (w : World) :
  Obj.get DocumentGenerator.templates ty = None ->
  exists e w',
    Facade.createDocument this caseId (Some ty) content w = (Throw e, this, w').
Proof.
  intros Hget. unfold Facade.createDocument, DocumentGenerator.generate, bind.
  cbn [opt_documentType opt_timestamp DocumentGenerator.default ret].
  unfold Obj.get_chain. rewrite Hget.
  destruct (existsb (String.eqb ty) Obj.prototype_keys); do 2 eexists; reflexivity.
Qed.

(** C8, at the type [constructor]: the registry has no such template, yet
    the guard of [generate] lets the name through, since every object
    inherits a property of that name; the call then fails with a TypeError
    that does not name the type.  Nothing is stored. *)
Theorem createDocument_inherited_type (this : LegalDocumentManager)
    (caseId : option string) (content : option ContentData) (w : World) :
  Obj.get DocumentGenerator.templates "constructor" = None
  /\ exists w',
       Facade.createDocument this caseId (Some "constructor") content w
       = (Throw (TypeError "Cannot read properties of undefined (reading 'forEach')"),
          this, w').
Proof.
  split; [reflexivity|]. eexists. reflexivity.
Qed.

(** ** Document comparison *)

Section JsSet.
Import Js.

Lemma Set_has_elem (s : list string) (x : string) :
  Set_has s x = true <-> x ∈ s.
Proof.
  unfold Set_has. rewrite existsb_exists, list_elem_of_In. split.
  - intros [y [Hy Heq]]. apply String.eqb_eq in Heq. now subst.
  - intros Hx. exists x. split; [assumption | apply String.eqb_refl].
Qed.

Lemma Set_of_elem (l seen : list string) (x : string) :
  x ∈ Set_of l seen <-> x ∈ l /\ x ∉ seen.
Proof.
  revert seen. induction l as [|y l IH]; intros seen; simpl.
  - rewrite elem_of_nil. tauto.
  - fold (Set_has seen y). destruct (Set_has seen y) eqn:Hy.
    + apply Set_has_elem in Hy. rewrite IH, elem_of_cons.
      split; [tauto|]. intros [[->|Hx] Hn]; tauto.
    + assert (y ∉ seen) as Hy' by (rewrite <- Set_has_elem, Hy; discriminate).
      rewrite !elem_of_cons, IH, elem_of_cons.
      destruct (decide (x = y)) as [->|Hne]; tauto.
Qed.

Lemma Set_of_NoDup (l seen : list string) : NoDup (Set_of l seen).
Proof.
  revert seen. induction l as [|y l IH]; intros seen; simpl.
  - constructor.
  - destruct (existsb _ seen); [apply IH|].
    constructor; [|apply IH].
    rewrite Set_of_elem, elem_of_cons. tauto.
Qed.

Lemma Set_of_to_set (l : list string) :
  list_to_set (Set_of l []) =@{gset string} list_to_set l.
Proof.
  apply set_eq. intros x. rewrite !elem_of_list_to_set, Set_of_elem, elem_of_nil. tauto.
Qed.

Lemma Set_of_length (l : list string) :
  length (Set_of l []) = size (list_to_set l : gset string).
Proof.
  rewrite <- Set_of_to_set. symmetry. apply size_list_to_set, Set_of_NoDup.
Qed.

Lemma elem_of_List_filter {A} (f : A -> bool) (l : list A) (x : A) :
  x ∈ List.filter f l <-> x ∈ l /\ f x = true.
Proof. rewrite !list_elem_of_In. apply filter_In. Qed.

Lemma NoDup_List_filter {A} (f : A -> bool) (l : list A) :
  NoDup l -> NoDup (List.filter f l).
Proof.
  induction 1 as [|x l Hx Hl IH]; simpl; [constructor|].
  destruct (f x); [|assumption].
  constructor; [|assumption]. rewrite elem_of_List_filter. tauto.
Qed.

(** The members of one [Set] that the other has are as many as the
    intersection of the two token sets. *)
Lemma common_length (l1 l2 : list string) :
  length (List.filter (fun word => Set_has (Set_of l2 []) word) (Set_of l1 []))
  = size (list_to_set l1 ∩ list_to_set l2 : gset string).
Proof.
  rewrite <- (size_list_to_set (C := gset string)).
  - f_equal. apply set_eq. intros x.
    rewrite elem_of_list_to_set, elem_of_List_filter, Set_has_elem, elem_of_intersection.
    rewrite !Set_of_elem, !elem_of_list_to_set, elem_of_nil. tauto.
  - apply NoDup_List_filter, Set_of_NoDup.
Qed.

End JsSet.

Lemma abs_diff_same (n : nat) : DocumentAnalyzer.abs_diff n n = 0.
Proof. unfold DocumentAnalyzer.abs_diff. lia. Qed.

Lemma abs_diff_comm (a b : nat) :
  DocumentAnalyzer.abs_diff a b = DocumentAnalyzer.abs_diff b a.
Proof. unfold DocumentAnalyzer.abs_diff. lia. Qed.

(** C7: two documents with the same flattened text have as many common words
    as the text has distinct lower-case tokens, and both differences are
    zero. *)
Theorem compare_identical_texts (doc1 doc2 : Document) :
  DocumentAnalyzer._extractAllText doc1 = DocumentAnalyzer._extractAllText doc2 ->
  let r := DocumentAnalyzer.comparDocuments doc1 doc2 in
  sim_commonWords (cmp_similarities r)
    = size (CompareSpec.distinct_tokens (DocumentAnalyzer._extractAllText doc1))
  /\ sim_commonWords (cmp_similarities r)
    = size (CompareSpec.distinct_tokens (DocumentAnalyzer._extractAllText doc2))
  /\ diff_lengthDifference (cmp_differences r) = 0
  /\ diff_wordCountDifference (cmp_differences r) = 0.
Proof.
  intros Htext. simpl.
  unfold DocumentAnalyzer._findSimilarities, DocumentAnalyzer._findDifferences. simpl.
  rewrite <- Htext, !abs_diff_same, common_length.
  unfold CompareSpec.distinct_tokens, CompareSpec.tokens.
  rewrite (idemp_L (∩)). auto.
Qed.

(** C10: swapping the two documents leaves the number of common words and the
    two differences unchanged and exchanges the two section counts. *)
Theorem compare_swap (a b : Document) :
  let ab := DocumentAnalyzer.comparDocuments a b in
  let ba := DocumentAnalyzer.comparDocuments b a in
  sim_commonWords (cmp_similarities ab) = sim_commonWords (cmp_similarities ba)
  /\ diff_lengthDifference (cmp_differences ab) = diff_lengthDifference (cmp_differences ba)
  /\ diff_wordCountDifference (cmp_differences ab)
     = diff_wordCountDifference (cmp_differences ba)
  /\ sd_doc1Sections (cmp_structuralDifferences ab)
     = sd_doc2Sections (cmp_structuralDifferences ba)
  /\ sd_doc2Sections (cmp_structuralDifferences ab)
     = sd_doc1Sections (cmp_structuralDifferences ba).
Proof.
  simpl. unfold DocumentAnalyzer._findSimilarities, DocumentAnalyzer._findDifferences. simpl.
  rewrite !common_length.
  repeat split; try apply abs_diff_comm.
  f_equal. apply (comm_L (∩)).
Qed.

(** Two documents that divide the same text differently between title and
    section. *)
Lemma compare_identical_texts_witness :
  let doc1 := Sample.doc "Lease terms" [("Body", "Rent is due. Rent is late.")] in
  let doc2 := Sample.doc "Lease" [("Body", "terms Rent is due. Rent is late.")] in
  DocumentAnalyzer._extractAllText doc1 = DocumentAnalyzer._extractAllText doc2
  /\ (let r := DocumentAnalyzer.comparDocuments doc1 doc2 in
      sim_commonWords (cmp_similarities r)
        = size (CompareSpec.distinct_tokens (DocumentAnalyzer._extractAllText doc1))
      /\ sim_commonWords (cmp_similarities r)
        = size (CompareSpec.distinct_tokens (DocumentAnalyzer._extractAllText doc2))
      /\ diff_lengthDifference (cmp_differences r) = 0
      /\ diff_wordCountDifference (cmp_differences r) = 0).
Proof.
  intros doc1 doc2. split; [reflexivity|].
  apply (compare_identical_texts doc1 doc2). reflexivity.
Defined.

Example compare_identical_texts_count :
  sim_commonWords
    (DocumentAnalyzer._findSimilarities
       (Sample.doc "Lease terms" [("Body", "Rent is due. Rent is late.")])
       (Sample.doc "Lease" [("Body", "terms Rent is due. Rent is late.")])) = 6.
Proof. reflexivity. Qed.

(** ** Further properties of the analyzer *)

Section Substrings.
Import Js.

Lemma prefix_app (sub s t : string) :
  String.prefix sub s = true -> String.prefix sub (s +:+ t) = true.
Proof.
  revert s. induction sub as [|a sub IH]; intros s H; [destruct (s +:+ t); reflexivity|].
  destruct s as [|b s]; [discriminate|]. simpl in *.
  destruct (ascii_dec a b); [now apply IH | discriminate].
Qed.

Lemma includes_app_l (s t sub : string) :
  includes s sub = true -> includes (s +:+ t) sub = true.
Proof.
  induction s as [|c s IH].
  - cbn [includes]. rewrite orb_false_r. intros H. destruct sub; [|discriminate].
    change (EmptyString +:+ t) with t. destruct t; reflexivity.
  - intros H. pose proof (prefix_app sub (String c s) t) as Hp.
    change (String c s +:+ t) with (String c (s +:+ t)) in *.
    cbn [includes] in *. apply orb_true_iff in H as [H|H].
    + now rewrite (Hp H).
    + rewrite (IH H). apply orb_true_r.
Qed.

Lemma includes_app_r (s t sub : string) :
  includes t sub = true -> includes (s +:+ t) sub = true.
Proof.
  intros H. induction s as [|c s IH]; [exact H|].
  change (String c s +:+ t) with (String c (s +:+ t)).
  cbn [includes]. rewrite IH. apply orb_true_r.
Qed.

(** The flattened text holds the title and every section text. *)
Lemma text_fold_includes (sub : string) (sections : list Section_) (text : string) :
  includes text sub = true
  \/ (exists section, In section sections /\ includes (sec_content section) sub = true) ->
  includes
    (DocumentAnalyzer.forEach (fun text section => text +:+ " " +:+ sec_content section)
       sections text) sub = true.
Proof.
  unfold DocumentAnalyzer.forEach.
  revert text. induction sections as [|s sections IH]; intros text H; simpl.
  - destruct H as [H|[section [[] _]]]. exact H.
  - apply IH. destruct H as [H|[section [[<-|Hin] Hs]]].
    + left. now apply includes_app_l.
    + left. now apply includes_app_r, includes_app_r.
    + right. now exists section.
Qed.

Lemma text_includes_title (document : Document) (sub : string) :
  includes (content_title (doc_content document)) sub = true ->
  includes (DocumentAnalyzer._extractAllText document) sub = true.
Proof. intros H. apply text_fold_includes. now left. Qed.

Lemma text_includes_section (document : Document) (key : string) (section : Section_)
    (sub : string) :
  In (key, section) (content_sections (doc_content document)) ->
  includes (sec_content section) sub = true ->
  includes (DocumentAnalyzer._extractAllText document) sub = true.
Proof.
  intros Hin H. apply text_fold_includes. right. exists section. split; [|exact H].
  apply in_map_iff. now exists (key, section).
Qed.

End Substrings.

(** A section holding both placeholder marks makes the document incomplete. *)
Lemma placeholder_section_risk (document : Document) (key : string) (section : Section_) :
  In (key, section) (content_sections (doc_content document)) ->
  DocumentAnalyzer.is_placeholder (sec_content section) = true ->
  In DocumentAnalyzer.risk_incomplete (DocumentAnalyzer._identifyRisks document).
Proof.
  intros Hin Hempty. unfold DocumentAnalyzer.is_placeholder in Hempty.
  apply andb_true_iff in Hempty as [Hadd Hhere].
  unfold DocumentAnalyzer._identifyRisks, DocumentAnalyzer.is_placeholder.
  rewrite (text_includes_section document key section _ Hin Hadd).
  rewrite (text_includes_section document key section _ Hin Hhere).
  cbn [andb]. unfold DocumentAnalyzer.push.
  destruct (Js.includes _ "liable"), (Js.includes _ "may"); simpl; auto.
Qed.

(** X1: a section that the structure report marks as empty puts the
    incomplete_content risk on the document. *)
Theorem empty_section_is_a_risk (document : Document) (stats : SectionStats) :
  In stats (str_sections (DocumentAnalyzer._analyzeStructure document)) ->
  st_isEmpty stats = true ->
  In DocumentAnalyzer.risk_incomplete (DocumentAnalyzer._identifyRisks document).
Proof.
  unfold DocumentAnalyzer._analyzeStructure. cbn [str_sections].
  intros Hin Hempty. apply in_map_iff in Hin as [[key section] [<- Hin]].
  cbn [st_isEmpty] in Hempty.
  exact (placeholder_section_risk document key section Hin Hempty).
Qed.

Lemma empty_section_is_a_risk_witness :
  let document := Sample.doc "Lease" [("Terms", "[Add Terms content here]"); ("Rent", "Due monthly")] in
  let stats := {| st_name := "Terms"; st_wordCount := 4; st_isEmpty := true |} in
  In stats (str_sections (DocumentAnalyzer._analyzeStructure document))
  /\ st_isEmpty stats = true
  /\ In DocumentAnalyzer.risk_incomplete (DocumentAnalyzer._identifyRisks document).
Proof.
  intros document stats.
  assert (In stats (str_sections (DocumentAnalyzer._analyzeStructure document))) as Hin
      by (left; reflexivity).
  split; [exact Hin|]. split; [reflexivity|].
  exact (empty_section_is_a_risk document stats Hin eq_refl).
Defined.

Section RiskFacts.
Import Js.

Lemma prefix_includes (sub s : string) :
  String.prefix sub s = true -> includes s sub = true.
Proof. intros H. destruct s; cbn [includes]; rewrite H; reflexivity. Qed.

Lemma includes_tail (c : ascii) (s sub : string) :
  includes s sub = true -> includes (String c s) sub = true.
Proof. intros H. cbn [includes]. rewrite H. apply orb_true_r. Qed.

(** A word without a dot that starts the text starts its first sentence. *)
Lemma prefix_first_segment (sub text : string) :
  ReadabilitySpec.count_chars is_dot sub = 0 ->
  String.prefix sub (toLowerCase text) = true ->
  String.prefix sub (toLowerCase (fst (split_by_aux is_dot text))) = true.
Proof.
  revert text. induction sub as [|a sub IH]; intros text Hdot Hp.
  - destruct (toLowerCase (fst (split_by_aux is_dot text))); reflexivity.
  - destruct text as [|c text]; [discriminate|].
    cbn [ReadabilitySpec.count_chars] in Hdot.
    destruct (is_dot a) eqn:Ha; [discriminate|]. cbn [Nat.add] in Hdot.
    cbn [toLowerCase String.prefix] in Hp.
    destruct (ascii_dec a (lower_char c)) as [->|]; [|discriminate].
    assert (is_dot c = false) as Hc.
    { destruct (is_dot c) eqn:Hc; [|reflexivity].
      apply Ascii.eqb_eq in Hc. subst c. discriminate. }
    cbn [split_by_aux]. destruct (split_by_aux is_dot text) as [h t] eqn:Hsplit.
    rewrite Hc. cbn [fst toLowerCase String.prefix].
    destruct (ascii_dec (lower_char c) (lower_char c)); [|congruence].
    specialize (IH text Hdot Hp). now rewrite Hsplit in IH.
Qed.

(** A word without a dot that the text holds is held by one sentence. *)
Lemma includes_some_segment (sub text : string) :
  ReadabilitySpec.count_chars is_dot sub = 0 ->
  includes (toLowerCase text) sub = true ->
  exists segment,
    In segment (split_by is_dot text) /\ includes (toLowerCase segment) sub = true.
Proof.
  intros Hdot. induction text as [|c text IH]; intros H.
  - exists EmptyString. split; [now left | exact H].
  - cbn [toLowerCase includes] in H. apply orb_true_iff in H as [Hp|Hin].
    + exists (fst (split_by_aux is_dot (String c text))). split.
      * unfold split_by. destruct (split_by_aux is_dot (String c text)). now left.
      * apply prefix_includes. now apply prefix_first_segment.
    + destruct (IH Hin) as (segment & Hseg & Hsub).
      unfold split_by in *. cbn [split_by_aux].
      destruct (split_by_aux is_dot text) as [h t].
      destruct (is_dot c).
      * exists segment. split; [now right | exact Hsub].
      * destruct Hseg as [<-|Hseg].
        -- exists (String c h). split; [now left|].
           cbn [toLowerCase]. now apply includes_tail.
        -- exists segment. split; [now right | exact Hsub].
Qed.

(** The sentence that holds [may] gives a key point. *)
Lemma may_gives_key_point (text : string) :
  includes (toLowerCase text) "may" = true -> KeyPointsSpec.matches text <> [].
Proof.
  intros H. destruct (includes_some_segment "may" text eq_refl H) as (segment & Hseg & Hsub).
  assert (In (segment, "rights", "may")
             (List.filter KeyPointsSpec.is_match
                (KeyPointsSpec.scan_order (split_by is_dot text)))) as Hin.
  { apply filter_In. split; [|exact Hsub].
    unfold KeyPointsSpec.scan_order. apply in_flat_map. exists segment. split; [exact Hseg|].
    apply in_flat_map. exists ("rights", ["may"; "entitled to"; "has the right to"; "can"]).
    split; [right; left; reflexivity | left; reflexivity]. }
  unfold KeyPointsSpec.matches.
  destruct (List.filter KeyPointsSpec.is_match _); [destruct Hin | discriminate].
Qed.

End RiskFacts.

(** X2: the risks come in the order of the checks, incomplete_content, then
    liability_clause, then ambiguous_language, each at most once; a document
    with the liability_clause risk has a negative sentiment indicator, and a
    document with the ambiguous_language risk has a key point. *)
Theorem risks_in_check_order (document : Document) :
  let risks := DocumentAnalyzer._identifyRisks document in
  sublist risks
    [DocumentAnalyzer.risk_incomplete; DocumentAnalyzer.risk_liability;
     DocumentAnalyzer.risk_ambiguous]
  /\ NoDup risks
  /\ map risk_type
       [DocumentAnalyzer.risk_incomplete; DocumentAnalyzer.risk_liability;
        DocumentAnalyzer.risk_ambiguous]
     = ["incomplete_content"; "liability_clause"; "ambiguous_language"]
  /\ (In DocumentAnalyzer.risk_liability risks ->
      1 <= sen_negativeIndicators (DocumentAnalyzer._analyzeSentiment document))
  /\ (In DocumentAnalyzer.risk_ambiguous risks ->
      DocumentAnalyzer._extractKeyPoints document <> []).
Proof.
  cbv zeta.
  assert (In DocumentAnalyzer.risk_liability (DocumentAnalyzer._identifyRisks document) ->
          Js.includes (Js.toLowerCase (DocumentAnalyzer._extractAllText document)) "liable"
          = true) as Hliable.
  { unfold DocumentAnalyzer._identifyRisks, DocumentAnalyzer.push.
    destruct (DocumentAnalyzer.is_placeholder _), (Js.includes _ "liable"), (Js.includes _ "may");
      cbn [app In]; intros H; try reflexivity;
      repeat (destruct H as [H|H]; [discriminate|]); destruct H. }
  assert (In DocumentAnalyzer.risk_ambiguous (DocumentAnalyzer._identifyRisks document) ->
          Js.includes (Js.toLowerCase (DocumentAnalyzer._extractAllText document)) "may"
          = true) as Hmay.
  { unfold DocumentAnalyzer._identifyRisks, DocumentAnalyzer.push.
    destruct (DocumentAnalyzer.is_placeholder _), (Js.includes _ "liable"), (Js.includes _ "may");
      cbn [app In]; intros H; try reflexivity;
      repeat (destruct H as [H|H]; [discriminate|]); destruct H. }
  split; [|split; [|split; [reflexivity|split]]].
  - unfold DocumentAnalyzer._identifyRisks, DocumentAnalyzer.push.
    destruct (DocumentAnalyzer.is_placeholder _), (Js.includes _ "liable"), (Js.includes _ "may");
      cbn [app];
      repeat first [apply sublist_nil | apply sublist_skip | apply sublist_cons].
  - unfold DocumentAnalyzer._identifyRisks, DocumentAnalyzer.push.
    destruct (DocumentAnalyzer.is_placeholder _), (Js.includes _ "liable"), (Js.includes _ "may");
      cbn [app];
      repeat (apply NoDup_cons; split;
              [rewrite ?elem_of_cons, ?elem_of_nil; intuition discriminate|]);
      apply NoDup_nil_2.
  - intros H. apply Hliable in H.
    unfold DocumentAnalyzer._analyzeSentiment. cbv zeta. cbn [sen_negativeIndicators].
    unfold DocumentAnalyzer.negativeWords. cbn [List.filter]. rewrite H.
    destruct (Js.includes _ "breach"); cbn [length]; lia.
  - intros H. apply Hmay in H.
    unfold DocumentAnalyzer._extractKeyPoints. cbv zeta. rewrite all_key_points.
    pose proof (may_gives_key_point _ H) as Hne. unfold Js.slice0.
    destruct (KeyPointsSpec.matches _); [congruence | discriminate].
Qed.

(** X3: no word count is zero, not even for an empty text; the summary and
    the readability report give the same count, at most one more than the
    length of the text. *)
Theorem word_counts_positive (document : Document) :
  let text := DocumentAnalyzer._extractAllText document in
  sum_wordCount (DocumentAnalyzer._generateSummary document)
    = rd_wordCount (DocumentAnalyzer._calculateReadability document)
  /\ 1 <= sum_wordCount (DocumentAnalyzer._generateSummary document) <= S (String.length text)
  /\ Forall (fun stats => 1 <= st_wordCount stats)
            (str_sections (DocumentAnalyzer._analyzeStructure document)).
Proof.
  intros text. split; [reflexivity|]. split; [apply split_ws_length|].
  unfold DocumentAnalyzer._analyzeStructure. cbn [str_sections].
  apply List.Forall_forall. intros stats Hin.
  apply in_map_iff in Hin as [[key section] [<- _]]. cbn [st_wordCount].
  apply split_ws_length.
Qed.

Section SummaryFacts.
Import Js.

Lemma filter_length_bound {A} (f : A -> bool) (l : list A) :
  length (List.filter f l) <= length l.
Proof. induction l as [|x l IH]; simpl; [lia|]. destruct (f x); simpl; lia. Qed.

Lemma count_dots_le_terminators (s : string) :
  ReadabilitySpec.count_chars is_dot s <= ReadabilitySpec.count_chars is_terminator s.
Proof.
  induction s as [|c s IH]; simpl; [lia|].
  unfold is_terminator, is_dot in *. destruct (Ascii.eqb c "."); simpl; lia.
Qed.

Lemma nonblank_nonempty (s : string) :
  DocumentAnalyzer.nonblank s = true -> s <> EmptyString.
Proof. intros H ->. discriminate H. Qed.

Lemma join_nonempty (sep x : string) (l : list string) :
  x <> EmptyString -> DocumentAnalyzer.join sep (x :: l) <> EmptyString.
Proof.
  intros Hx. destruct x as [|c x]; [congruence|].
  destruct l; simpl; discriminate.
Qed.

End SummaryFacts.

(** X4: the summary counts no more sentences than the readability report,
    which also counts blank segments and splits on [!] and [?]; and the
    summary text is empty exactly when the summary counts no sentence. *)
Theorem summary_sentences (document : Document) :
  let summary := DocumentAnalyzer._generateSummary document in
  sum_sentenceCount summary
    <= rd_sentenceCount (DocumentAnalyzer._calculateReadability document)
  /\ (sum_sentenceCount summary = 0 <-> sum_text summary = EmptyString).
Proof.
  cbv zeta. unfold DocumentAnalyzer._generateSummary, DocumentAnalyzer._calculateReadability.
  cbn [sum_sentenceCount sum_text rd_sentenceCount].
  set (text := DocumentAnalyzer._extractAllText document).
  split.
  - etransitivity; [apply filter_length_bound|].
    rewrite !split_by_length. pose proof (count_dots_le_terminators text). lia.
  - destruct (List.filter DocumentAnalyzer.nonblank (Js.split_by Js.is_dot text))
      as [|x l] eqn:Hl.
    + split; reflexivity.
    + assert (DocumentAnalyzer.nonblank x = true) as Hx.
      { assert (In x (List.filter DocumentAnalyzer.nonblank (Js.split_by Js.is_dot text))) as Hin
            by (rewrite Hl; now left).
        now apply filter_In in Hin. }
      split; [discriminate|]. unfold Js.slice0. cbn [firstn]. intros Hjoin.
      now apply (join_nonempty ". " x (firstn 2 l) (nonblank_nonempty x Hx)) in Hjoin.
Qed.

Section LegalTermsFacts.
Import DocumentAnalyzer.

Lemma sort_insert_perm (x : LegalTerm) (l : list LegalTerm) :
  Permutation (sort_insert x l) (x :: l).
Proof.
  induction l as [|y l IH]; simpl; [reflexivity|].
  destruct (Nat.ltb _ _); [|reflexivity].
  rewrite IH. apply perm_swap.
Qed.

Lemma sort_perm (l : list LegalTerm) : Permutation (sort_by_occurrences l) l.
Proof.
  induction l as [|x l IH]; simpl; [reflexivity|].
  now rewrite sort_insert_perm, IH.
Qed.

End LegalTermsFacts.

(** X5: no legal term is listed twice, and every listed term is one of the
    fifteen of the fixed list, so there are at most fifteen entries. *)
Theorem legal_terms_distinct (document : Document) :
  let result := DocumentAnalyzer._extractLegalTerms document in
  NoDup (map lt_term result)
  /\ (forall e, In e result -> In (lt_term e) DocumentAnalyzer.commonLegalTerms)
  /\ length result <= 15.
Proof.
  cbv zeta. unfold DocumentAnalyzer._extractLegalTerms. cbv zeta.
  set (text := Js.toLowerCase (DocumentAnalyzer._extractAllText document)).
  rewrite found_terms.
  set (found := List.filter (Js.includes text) DocumentAnalyzer.commonLegalTerms).
  assert (map lt_term (map (LegalTermsSpec.entry text) found) = found) as Hterms.
  { rewrite map_map. unfold LegalTermsSpec.entry. cbn [lt_term]. apply map_id. }
  assert (Permutation (map lt_term (DocumentAnalyzer.sort_by_occurrences
                                      (map (LegalTermsSpec.entry text) found))) found) as Hperm.
  { rewrite <- Hterms at 2. apply Permutation_map, sort_perm. }
  split; [|split].
  - rewrite Hperm. apply NoDup_List_filter.
    unfold DocumentAnalyzer.commonLegalTerms.
    repeat (apply NoDup_cons; split;
            [rewrite ?elem_of_cons, ?elem_of_nil; intuition discriminate|]).
    apply NoDup_nil_2.
  - intros e He. apply sort_In, in_map_iff in He as [t [<- Ht]].
    apply filter_In in Ht. tauto.
  - rewrite (Permutation_length (sort_perm _)), length_map.
    etransitivity; [apply filter_length_bound | reflexivity].
Qed.

(** X6: two documents have no more common words than either has distinct
    tokens; the common terms reported are at most twenty, all different, and
    each is a token of both texts. *)
Theorem similarities_bounds (doc1 doc2 : Document) :
  let s := DocumentAnalyzer._findSimilarities doc1 doc2 in
  let tokens1 := CompareSpec.distinct_tokens (DocumentAnalyzer._extractAllText doc1) in
  let tokens2 := CompareSpec.distinct_tokens (DocumentAnalyzer._extractAllText doc2) in
  sim_commonWords s <= size tokens1
  /\ sim_commonWords s <= size tokens2
  /\ length (sim_commonTerms s) = Nat.min 20 (sim_commonWords s)
  /\ NoDup (sim_commonTerms s)
  /\ (forall word, word ∈ sim_commonTerms s -> word ∈ tokens1 /\ word ∈ tokens2).
Proof.
  cbv zeta. unfold DocumentAnalyzer._findSimilarities. cbv zeta.
  cbn [sim_commonWords sim_commonTerms].
  unfold CompareSpec.distinct_tokens, CompareSpec.tokens.
  set (l1 := Js.split_ws (Js.toLowerCase (DocumentAnalyzer._extractAllText doc1))).
  set (l2 := Js.split_ws (Js.toLowerCase (DocumentAnalyzer._extractAllText doc2))).
  rewrite common_length.
  split; [apply subseteq_size, intersection_subseteq_l|].
  split; [apply subseteq_size, intersection_subseteq_r|].
  split; [unfold Js.slice0; now rewrite length_firstn, common_length|].
  assert (NoDup (List.filter (fun word => Js.Set_has (Js.Set_of l2 []) word) (Js.Set_of l1 [])))
    as Hnd by apply NoDup_List_filter, Set_of_NoDup.
  split.
  - unfold Js.slice0. apply (sublist_NoDup _ _ Hnd), sublist_take.
  - intros word Hin. unfold Js.slice0 in Hin. apply subseteq_take in Hin.
    apply elem_of_List_filter in Hin as [H1 H2].
    apply Set_has_elem in H2. apply Set_of_elem in H1 as [H1 _], H2 as [H2 _].
    now rewrite !elem_of_list_to_set.
Qed.

(** ** Further properties of the generator *)

Section ObjFacts.
Context {V : Type}.

(** A new key that is not an array index goes last. *)
Lemma Obj_set_fresh (obj : list (string * V)) (key : string) (v : V) :
  Obj.array_index key = None ->
  ~ In key (map fst obj) -> Obj.set obj key v = obj ++ [(key, v)].
Proof.
  intros Hplain.
  induction obj as [|[k x] obj IH]; cbn [Obj.set map fst In app]; intros Hk; [reflexivity|].
  destruct (String.eqb_spec k key) as [->|Hne]; [tauto|].
  unfold Obj.enumerated_before. rewrite Hplain.
  rewrite IH; tauto.
Qed.

Lemma Obj_get_In (obj : list (string * V)) (key : string) (v : V) :
  Obj.get obj key = Some v -> In (key, v) obj.
Proof.
  induction obj as [|[k x] obj IH]; simpl; [discriminate|].
  destruct (String.eqb_spec k key) as [->|Hne].
  - intros [= ->]. now left.
  - intros H. right. now apply IH.
Qed.

End ObjFacts.

Section GenerateFacts.
Import DocumentGenerator.

Lemma later_0 (w : World) : Generated.later w 0 = w.
Proof. destruct w. unfold Generated.later. simpl. now rewrite Nat.add_0_r. Qed.

(** The loop of [_generateContent] appends one section per name, when the
    names are distinct, new to the object and no array indices. *)
Lemma generateContent_loop (props : list (string * string)) (names : list string) :
  forall (acc : list (string * Section_)) (w : World),
    List.NoDup names ->
    (forall name, In name names -> Obj.array_index name = None) ->
    (forall name, In name names -> ~ In name (map fst acc)) ->
    forEachM (fun sections section =>
        let* timestamp := new_Date in
        ret (Obj.set sections section
               {| sec_heading := section;
                  sec_content := Js.or_else (Obj.get props section) (placeholder section);
                  sec_timestamp := timestamp |}))%js
      names acc w
    = (Ok (acc ++ Generated.sections props w names), Generated.later w (length names)).
Proof.
  induction names as [|name names IH]; intros acc w Hnd Hplain Hfresh.
  - simpl. unfold ret. now rewrite app_nil_r, later_0.
  - apply List.NoDup_cons_iff in Hnd as [Hname Hnd].
    cbn [forEachM]. unfold bind at 1. unfold bind at 1. cbn [new_Date ret].
    rewrite Obj_set_fresh by ((apply Hplain; now left) || (apply Hfresh; now left)).
    rewrite IH; [|assumption|intros n Hn; apply Hplain; now right|].
    + unfold Generated.sections, Generated.later. cbn [imap clock ticks uuids drawn moment_format length].
      rewrite <- app_assoc. cbn [app]. f_equal; [|f_equal; lia].
      do 3 f_equal.
      * unfold Generated.section_at. cbn [clock ticks]. now rewrite Nat.add_0_r.
      * apply imap_ext. intros i x _. unfold Generated.section_at. cbn [clock ticks compose].
        do 3 f_equal. lia.
    + intros n Hn. rewrite map_app, in_app_iff. cbn [map fst In].
      intros [Hin|[<-|[]]]; [|tauto].
      apply (Hfresh n); [now right | assumption].
Qed.

Lemma generateContent_spec (template : Template) (contentData : ContentData) (w : World) :
  List.NoDup (tpl_sections template) ->
  (forall name, In name (tpl_sections template) -> Obj.array_index name = None) ->
  _generateContent template contentData w
  = (Ok {| content_title :=
             Js.or_else (Obj.get (cd_props contentData) "title") (tpl_title template);
           content_sections :=
             Generated.sections (cd_props contentData) w (tpl_sections template);
           content_extra := [] |},
     Generated.later w (length (tpl_sections template))).
Proof.
  intros Hnd Hplain. unfold _generateContent. cbv zeta. unfold bind at 1.
  rewrite generateContent_loop by (assumption || intros ? ? []).
  reflexivity.
Qed.

Lemma NoDup_by_eqb (l : list string) :
  (fix nodup (l : list string) : bool :=
     match l with
     | [] => true
     | x :: l' => negb (existsb (String.eqb x) l') && nodup l'
     end) l = true ->
  List.NoDup l.
Proof.
  induction l as [|x l IH]; intros H; [constructor|].
  apply andb_true_iff in H as [Hx Hl]. constructor; [|now apply IH].
  intros Hin. apply negb_true_iff in Hx.
  assert (existsb (String.eqb x) l = true) as Hex
      by (apply existsb_exists; exists x; split; [assumption | apply String.eqb_refl]).
  congruence.
Qed.

(** The sections of each registered template have different names. *)
Lemma templates_NoDup (ty : string) (template : Template) :
  Obj.get templates ty = Some template -> List.NoDup (tpl_sections template).
Proof.
  intros H. apply Obj_get_In in H. unfold templates in H. cbn [In] in H.
  repeat (destruct H as [[= <- <-]|H]; [apply NoDup_by_eqb; reflexivity|]).
  destruct H.
Qed.

(** No section of a registered template has an array index for name. *)
Lemma templates_plain (ty : string) (template : Template) :
  Obj.get templates ty = Some template ->
  forall name, In name (tpl_sections template) -> Obj.array_index name = None.
Proof.
  intros H. apply Obj_get_In in H. unfold templates in H. cbn [In] in H.
  repeat (destruct H as [[= <- <-]|H];
          [cbn [tpl_sections In]; intros name Hname;
           repeat (destruct Hname as [<-|Hname]; [reflexivity|]); destruct Hname|]).
  destruct H.
Qed.

(** What [generate] returns for a registered type. *)
Lemma generate_registered (options : Options) (w : World) (template : Template) :
  Obj.get templates (requested_type options) = Some template ->
  generate options w
  = (Ok (Generated.document options w template),
     Generated.later (Generated.start options w) (length (tpl_sections template))).
Proof.
  intros Hget. pose proof (templates_NoDup _ _ Hget) as Hnd.
  pose proof (templates_plain _ _ Hget) as Hplain.
  unfold requested_type in Hget.
  unfold generate. cbv zeta. unfold Obj.get_chain. rewrite Hget.
  destruct options as [caseId documentType content [t|]];
    cbn [opt_timestamp opt_caseId opt_documentType opt_content].
  all: unfold bind at 1; cbn [ret new_Date].
  all: unfold bind at 1; cbn [uuidv4].
  all: unfold bind at 1; cbn [moment_format_stamp moment_format].
  all: unfold bind at 1; rewrite generateContent_spec by assumption.
  all: reflexivity.
Qed.

(** [generate] returns a document only for a registered type. *)
Lemma generate_Ok_inv (options : Options) (w : World) (document : Document) (w' : World) :
  generate options w = (Ok document, w') ->
  exists template,
    Obj.get templates (requested_type options) = Some template
    /\ document = Generated.document options w template
    /\ w' = Generated.later (Generated.start options w) (length (tpl_sections template)).
Proof.
  intros Hgen.
  destruct (Obj.get templates (requested_type options)) as [template|] eqn:Hget.
  - rewrite (generate_registered options w template Hget) in Hgen.
    injection Hgen as <- <-. now exists template.
  - exfalso. unfold requested_type in Hget.
    unfold generate in Hgen. cbv zeta in Hgen. unfold Obj.get_chain in Hgen.
    rewrite Hget in Hgen. unfold bind, throw in Hgen.
    destruct (opt_timestamp options); cbn [ret new_Date] in Hgen;
      destruct (existsb _ Obj.prototype_keys); discriminate Hgen.
Qed.

End GenerateFacts.

Section GeneratedShape.
Import DocumentGenerator.



Lemma imap_In {A B} (h : nat -> A -> B) (l : list A) (x : A) :
  In x l -> exists i, In (h i x) (imap h l).
Proof.
  revert h. induction l as [|y l IH]; intros h Hin; [destruct Hin|].
  destruct Hin as [<-|Hin].
  - exists 0. now left.
  - destruct (IH (h ∘ S) Hin) as [i Hi]. exists (S i). right. exact Hi.
Qed.

Lemma registered_names (ty : string) :
  (exists template, Obj.get templates ty = Some template)
  <-> In ty ["contract"; "brief"; "memo"; "complaint"; "agreement"].
Proof.
  unfold templates. cbn [Obj.get In]. split.
  - intros [template H].
    repeat (match type of H with
            | context [String.eqb ?k ty] =>
                destruct (String.eqb_spec k ty) as [<-|_]; [tauto|]
            end).
    discriminate.
  - intros H. repeat (destruct H as [<-|H]; [eexists; reflexivity|]). destruct H.
Qed.

Lemma placeholder_detected (name : string) :
  DocumentAnalyzer.is_placeholder (placeholder name) = true.
Proof.
  unfold DocumentAnalyzer.is_placeholder, placeholder. apply andb_true_iff. split.
  - apply (includes_app_l "[Add" (" " +:+ name +:+ " content here]")). reflexivity.
  - apply (includes_app_r "[Add "), (includes_app_r name). reflexivity.
Qed.

Lemma or_else_unfilled (props : list (string * string)) (name d : string) :
  Generated.unfilled props name -> Js.or_else (Obj.get props name) d = d.
Proof. intros [->| ->]; reflexivity. Qed.

Lemma or_else_nonempty (x : option string) (d : string) :
  d <> EmptyString -> DocumentAnalyzer.is_empty_string (Js.or_else x d) = false.
Proof.
  intros Hd. destruct x as [[|c s]|]; simpl; try reflexivity;
    (destruct d; [congruence | reflexivity]).
Qed.

End GeneratedShape.




(** X9: a freshly generated document is always advised to be finalized and
    to be analyzed, and to be given an author exactly when its author is the
    default one. *)
Theorem generated_document_recommendations (options : Options) (w : World)
    (document : Document) (w' : World) :
  DocumentGenerator.generate options w = (Ok document, w') ->
  let recommendations := DocumentAnalyzer._generateRecommendations document in
  In {| rec_priority := "high";
        rec_text := "Document is still in draft status. Review and finalize before use." |}
     recommendations
  /\ In {| rec_priority := "medium";
           rec_text := "Run full legal analysis for comprehensive review" |}
        recommendations
  /\ (In {| rec_priority := "medium"; rec_text := "Assign proper author to document" |}
         recommendations
      <-> meta_author (doc_metadata document) = "System").
Proof.
  intros H. apply generate_Ok_inv in H as (template & Hget & -> & ->).
  unfold DocumentAnalyzer._generateRecommendations, Generated.document.
  cbn [doc_metadata meta_status meta_author doc_analysis]. cbv zeta.
  rewrite or_else_nonempty by discriminate.
  change (String.eqb "draft" "draft") with true. cbn [orb]. cbv iota.
  unfold DocumentAnalyzer.push. cbn [app].
  set (author := Js.or_else (Obj.get _ "author") "System").
  destruct (String.eqb_spec author "System") as [Heq|Hne];
    cbn [app In]; (split; [tauto|]); (split; [tauto|]).
  - split; [intros _; exact Heq | tauto].
  - split; [|tauto]. intros [H|[H|[]]]; discriminate.
Qed.

Lemma generated_document_recommendations_witness :
  let template :=
    {| tpl_title := "Legal Memorandum";
       tpl_sections := ["To"; "From"; "Date"; "Subject"; "Issue"; "Analysis"; "Conclusion"] |} in
  let document := Generated.document (memo_options None None) Sample.world template in
  let w' := Generated.later (Generated.start (memo_options None None) Sample.world) 7 in
  DocumentGenerator.generate (memo_options None None) Sample.world = (Ok document, w')
  /\ length (DocumentAnalyzer._generateRecommendations document) = 3
  /\ In {| rec_priority := "medium";
           rec_text := "Run full legal analysis for comprehensive review" |}
        (DocumentAnalyzer._generateRecommendations document).
Proof.
  intros template document w'.
  assert (DocumentGenerator.generate (memo_options None None) Sample.world = (Ok document, w'))
    as Hgen by reflexivity.
  split; [exact Hgen|]. split; [reflexivity|].
  apply (generated_document_recommendations _ _ _ _ Hgen).
Defined.

(** X10: whatever the registered type, a section of the generated document
    for which no content was given is reported as empty by the structure
    analysis, and the document carries the incomplete_content risk. *)
Theorem unfilled_section_flagged (options : Options) (w : World)
    (document : Document) (w' : World) (name : string) :
  DocumentGenerator.generate options w = (Ok document, w') ->
  In name (tpl_sections (doc_template document)) ->
  Generated.unfilled (content_props options) name ->
  In DocumentAnalyzer.risk_incomplete (DocumentAnalyzer._identifyRisks document)
  /\ exists stats,
       In stats (str_sections (DocumentAnalyzer._analyzeStructure document))
       /\ st_name stats = name
       /\ st_isEmpty stats = true.
Proof.
  intros H Hname Hun. apply generate_Ok_inv in H as (template & Hget & -> & ->).
  cbn [Generated.document doc_template] in Hname.
  set (document := Generated.document options w template).
  destruct (imap_In (Generated.section_at (content_props options) (Generated.start options w))
              _ name Hname) as [i Hi].
  unfold Generated.section_at in Hi. rewrite (or_else_unfilled _ _ _ Hun) in Hi.
  set (section := {| sec_heading := name;
                     sec_content := DocumentGenerator.placeholder name;
                     sec_timestamp := _ |}) in Hi.
  assert (In (name, section) (content_sections (doc_content document))) as Hin by exact Hi.
  split.
  - apply (placeholder_section_risk document name section Hin), placeholder_detected.
  - exists {| st_name := name;
              st_wordCount := length (Js.split_ws (DocumentGenerator.placeholder name));
              st_isEmpty := true |}.
    split; [|split; reflexivity].
    unfold DocumentAnalyzer._analyzeStructure. cbn [str_sections].
    apply in_map_iff. exists (name, section). split; [|exact Hin].
    cbn [sec_heading sec_content section]. now rewrite placeholder_detected.
Qed.

Lemma unfilled_section_flagged_witness :
  let options :=
    {| opt_caseId := None; opt_documentType := Some "contract";
       opt_content :=
         Some {| cd_props := [("Parties", "Acme and Bolt"); ("Terms", "Net thirty days")];
                 cd_tags := None |};
       opt_timestamp := None |} in
  let template :=
    {| tpl_title := "Legal Contract";
       tpl_sections := ["Header"; "Parties"; "Terms"; "Conditions"; "Signatures"] |} in
  let document := Generated.document options Sample.world template in
  let w' := Generated.later (Generated.start options Sample.world) 5 in
  DocumentGenerator.generate options Sample.world = (Ok document, w')
  /\ In "Conditions" (tpl_sections (doc_template document))
  /\ Generated.unfilled (content_props options) "Conditions"
  /\ In DocumentAnalyzer.risk_incomplete (DocumentAnalyzer._identifyRisks document).
Proof.
  intros options template document w'.
  assert (DocumentGenerator.generate options Sample.world = (Ok document, w')) as Hgen
      by reflexivity.
  assert (In "Conditions" (tpl_sections (doc_template document))) as Hin
      by (simpl; tauto).
  assert (Generated.unfilled (content_props options) "Conditions") as Hun
      by (left; reflexivity).
  split; [exact Hgen|]. split; [exact Hin|]. split; [exact Hun|].
  apply (unfilled_section_flagged options Sample.world document w' "Conditions" Hgen Hin Hun).
Defined.

(** X11: a series of updates reads the clock once each and adds their number
    to the version, as long as the version stays an integer from -2^53 to
    2^53; it keeps the identifier, the creation time, the type, the author,
    the status and the analysis attached, which is not cleared although the
    content may have changed. *)
Theorem updates_compose (updates : list Updates) (document : Document) (w : World) :
  exists document' w',
    forEachM DocumentGenerator.updateDocument updates document w = (Ok document', w')
    /\ (forall version : Z,
          (- 2 ^ 53 <= version)%Z ->
          (version + Z.of_nat (length updates) <= 2 ^ 53)%Z ->
          doc_version document = Num.of_Z version ->
          doc_version document' = Num.of_Z (version + Z.of_nat (length updates))
          /\ VersionSpec.integer (doc_version document')
             = Some (version + Z.of_nat (length updates))%Z)
    /\ ticks w' = ticks w + length updates
    /\ doc_id document' = doc_id document
    /\ meta_created (doc_metadata document') = meta_created (doc_metadata document)
    /\ doc_type document' = doc_type document
    /\ meta_author (doc_metadata document') = meta_author (doc_metadata document)
    /\ meta_status (doc_metadata document') = meta_status (doc_metadata document)
    /\ doc_analysis document' = doc_analysis document.
Proof.
  revert document w. induction updates as [|u updates IH]; intros document w.
  - exists document, w. cbn [forEachM ret length]. split; [reflexivity|].
    split; [|repeat split; lia].
    intros version H0 H53 ->. cbn [Z.of_nat]. rewrite Z.add_0_r in *.
    split; [reflexivity | apply integer_of_Z; lia].
  - cbn [forEachM]. unfold bind at 1.
    unfold DocumentGenerator.updateDocument at 1. cbv zeta. unfold bind at 1.
    cbn [new_Date ret].
    match goal with
    | |- context [forEachM _ updates ?d ?w1] =>
        destruct (IH d w1) as (d' & w' & Heq & Hv & Ht & Hid & Hc & Hty & Ha & Hs & Han)
    end.
    exists d', w'. rewrite Heq. split; [reflexivity|].
    cbn [doc_version doc_id doc_metadata meta_created doc_type meta_author meta_status
         doc_analysis ticks length] in *.
    split; [|repeat split; try assumption; lia].
    intros version H0 H53 Hversion. rewrite Nat2Z.inj_succ in *.
    replace (version + Z.succ (Z.of_nat (length updates)))%Z
      with (version + 1 + Z.of_nat (length updates))%Z by lia.
    apply Hv; [lia | lia |].
    rewrite Hversion. apply add_one_exact. lia.
Qed.

(** Three updates of a draft at version 1 give version 4. *)
Lemma updates_compose_witness :
  exists document' w',
    forEachM DocumentGenerator.updateDocument
      [VersionSpec.no_updates; VersionSpec.no_updates; VersionSpec.no_updates]
      (VersionSpec.at_version 1) Sample.world = (Ok document', w')
    /\ doc_version document' = Num.of_Z 4.
Proof.
  destruct (updates_compose
              [VersionSpec.no_updates; VersionSpec.no_updates; VersionSpec.no_updates]
              (VersionSpec.at_version 1) Sample.world) as (document' & w' & Heq & Hversion & _).
  exists document', w'. split; [exact Heq|].
  destruct (Hversion 1%Z) as [H4 _]; [lia | vm_compute; discriminate | reflexivity |].
  exact H4.
Defined.

(** ** Case manager *)

Section CaseFacts.
Import CaseManagerOps.

Lemma existsb_eqb_elem (x : string) (l : list string) :
  existsb (String.eqb x) l = true <-> x ∈ l.
Proof. apply (Set_has_elem l x). Qed.

Lemma existsb_eqb_not_elem (x : string) (l : list string) :
  existsb (String.eqb x) l = false <-> x ∉ l.
Proof. rewrite <- existsb_eqb_elem. destruct (existsb _ l); intuition congruence. Qed.

Lemma push_new_elem (documents : list string) (docId x : string) :
  x ∈ push_new documents docId <-> x ∈ documents \/ x = docId.
Proof.
  unfold push_new. destruct (existsb (String.eqb docId) documents) eqn:H.
  - apply existsb_eqb_elem in H. split; [tauto|]. intros [?| ->]; assumption.
  - rewrite elem_of_app, list_elem_of_singleton. tauto.
Qed.

Lemma push_new_NoDup (documents : list string) (docId : string) :
  NoDup documents -> NoDup (push_new documents docId).
Proof.
  unfold push_new. destruct (existsb (String.eqb docId) documents) eqn:H; [tauto|].
  apply existsb_eqb_not_elem in H. intros Hnd. apply NoDup_app.
  split; [assumption|]. split; [|apply NoDup_singleton].
  intros x Hx Hd. apply list_elem_of_singleton in Hd. now subst.
Qed.

Lemma push_new_prefix (documents : list string) (docId : string) :
  documents `prefix_of` push_new documents docId.
Proof.
  unfold push_new. destruct (existsb _ documents); [reflexivity|].
  now apply prefix_app_r.
Qed.

Lemma push_all_elem (ids documents : list string) (x : string) :
  x ∈ fold_left push_new ids documents <-> x ∈ documents \/ x ∈ ids.
Proof.
  revert documents. induction ids as [|id ids IH]; intros documents; simpl.
  - rewrite elem_of_nil. tauto.
  - rewrite IH, push_new_elem, elem_of_cons. tauto.
Qed.

Lemma push_all_NoDup (ids documents : list string) :
  NoDup documents -> NoDup (fold_left push_new ids documents).
Proof.
  revert documents. induction ids as [|id ids IH]; intros documents H; simpl; [exact H|].
  now apply IH, push_new_NoDup.
Qed.

Lemma push_all_prefix (ids documents : list string) :
  documents `prefix_of` fold_left push_new ids documents.
Proof.
  revert documents. induction ids as [|id ids IH]; intros documents; simpl; [reflexivity|].
  etransitivity; [apply push_new_prefix | apply IH].
Qed.

End CaseFacts.

(** X12: on an identifier that names no case, every operation of the case
    manager throws [Case not found], also a status update with an invalid
    status, and neither the manager nor the clock is touched. *)
Theorem missing_case_rejected (cm : CaseManager) (caseId : string) (w : World) :
  cm_cases cm !! caseId = None ->
  let not_found {A} : Result A * World := (Throw (Error "Case not found"), w) in
  (forall documentId, CaseManagerOps.addDocumentToCase cm caseId documentId w = not_found)
  /\ (forall documentIds, CaseManagerOps.addDocumentsToCase cm caseId documentIds w = not_found)
  /\ CaseManagerOps.getDocuments cm caseId w = not_found
  /\ (forall documentId, CaseManagerOps.removeDocumentFromCase cm caseId documentId w = not_found)
  /\ (forall status, CaseManagerOps.updateCaseStatus cm caseId status w = not_found)
  /\ CaseManagerOps.getCase cm caseId w = not_found.
Proof.
  intros H. cbv zeta.
  unfold CaseManagerOps.addDocumentToCase, CaseManagerOps.addDocumentsToCase,
    CaseManagerOps.getDocuments, CaseManagerOps.removeDocumentFromCase,
    CaseManagerOps.updateCaseStatus, CaseManagerOps.getCase.
  rewrite H. repeat split.
Qed.

Lemma missing_case_rejected_witness :
  cm_cases CaseManagerOps.empty !! "case-1" = None
  /\ CaseManagerOps.getDocuments CaseManagerOps.empty "case-1" Sample.world
     = (Throw (Error "Case not found"), Sample.world).
Proof.
  assert (cm_cases CaseManagerOps.empty !! "case-1" = None) as H by reflexivity.
  split; [exact H|].
  apply (missing_case_rejected CaseManagerOps.empty "case-1" Sample.world H).
Defined.

(** X13: the status of an existing case is updated exactly for the five
    valid statuses; another status is thrown back by name and changes
    nothing; a valid one is stored with a fresh modification time, and
    neither the documents of the case nor any other case change. *)
Theorem updateCaseStatus_valid_or_rejected (cm : CaseManager) (caseId status : string)
    (caseObj : Case) (w : World) :
  cm_cases cm !! caseId = Some caseObj ->
  (In status ["open"; "active"; "pending"; "closed"; "archived"] ->
   exists caseObj' cm' w',
     CaseManagerOps.updateCaseStatus cm caseId status w = (Ok (caseObj', cm'), w')
     /\ cm_cases cm' !! caseId = Some caseObj'
     /\ case_status caseObj' = status
     /\ case_modifiedAt caseObj' = clock w (ticks w)
     /\ case_documents caseObj' = case_documents caseObj
     /\ case_id caseObj' = case_id caseObj
     /\ forall other, other <> caseId -> cm_cases cm' !! other = cm_cases cm !! other)
  /\ (~ In status ["open"; "active"; "pending"; "closed"; "archived"] ->
      CaseManagerOps.updateCaseStatus cm caseId status w
      = (Throw (Error ("Invalid status: " +:+ status)), w)).
Proof.
  intros Hcase. unfold CaseManagerOps.updateCaseStatus. rewrite Hcase.
  fold CaseManagerOps.validStatuses.
  destruct (existsb (String.eqb status) CaseManagerOps.validStatuses) eqn:Hvalid.
  - split; [|intros Hn; apply existsb_eqb_elem, list_elem_of_In in Hvalid; tauto].
    intros _. do 3 eexists. split; [reflexivity|].
    cbn [CaseManagerOps.with_case cm_cases CaseManagerOps.set_status case_status
         case_modifiedAt case_documents case_id].
    split; [apply lookup_insert_eq|]. repeat split.
    intros other Hother. now apply lookup_insert_ne.
  - split; [|reflexivity].
    intros Hin. apply list_elem_of_In, existsb_eqb_elem in Hin. congruence.
Qed.

Lemma updateCaseStatus_valid_or_rejected_witness :
  cm_cases SampleCase.manager !! "case-1" = Some SampleCase.case
  /\ ~ In "reopened" ["open"; "active"; "pending"; "closed"; "archived"]
  /\ CaseManagerOps.updateCaseStatus SampleCase.manager "case-1" "reopened" Sample.world
     = (Throw (Error "Invalid status: reopened"), Sample.world).
Proof.
  assert (cm_cases SampleCase.manager !! "case-1" = Some SampleCase.case) as H by reflexivity.
  assert (~ In "reopened" ["open"; "active"; "pending"; "closed"; "archived"]) as Hn
      by (simpl; intuition discriminate).
  split; [exact H|]. split; [exact Hn|].
  exact (proj2 (updateCaseStatus_valid_or_rejected SampleCase.manager "case-1" "reopened"
                  SampleCase.case Sample.world H) Hn).
Defined.

(** X14: adding a document to a case lists it once: the documents stay
    without duplicates, and adding it a second time changes nothing, not
    even the modification time, and does not read the clock. *)
Theorem addDocumentToCase_idempotent (cm : CaseManager) (caseId documentId : string)
    (caseObj : Case) (w : World) :
  cm_cases cm !! caseId = Some caseObj ->
  exists caseObj' cm' w',
    CaseManagerOps.addDocumentToCase cm caseId documentId w = (Ok (caseObj', cm'), w')
    /\ cm_cases cm' !! caseId = Some caseObj'
    /\ documentId ∈ case_documents caseObj'
    /\ (NoDup (case_documents caseObj) -> NoDup (case_documents caseObj'))
    /\ CaseManagerOps.addDocumentToCase cm' caseId documentId w' = (Ok (caseObj', cm'), w').
Proof.
  intros Hcase. unfold CaseManagerOps.addDocumentToCase at 1. rewrite Hcase.
  destruct (existsb (String.eqb documentId) (case_documents caseObj)) eqn:Hin.
  - exists caseObj, cm, w. split; [reflexivity|]. split; [exact Hcase|].
    split; [now apply existsb_eqb_elem|]. split; [tauto|].
    unfold CaseManagerOps.addDocumentToCase. now rewrite Hcase, Hin.
  - do 3 eexists. split; [reflexivity|].
    cbn [cm_cases CaseManagerOps.set_documents case_documents].
    split; [apply lookup_insert_eq|].
    split; [rewrite elem_of_app, list_elem_of_singleton; tauto|].
    split.
    + intros Hnd. pose proof (push_new_NoDup _ documentId Hnd) as H.
      unfold CaseManagerOps.push_new in H. now rewrite Hin in H.
    + unfold CaseManagerOps.addDocumentToCase. cbn [cm_cases].
      rewrite lookup_insert_eq. cbn [CaseManagerOps.set_documents case_documents].
      assert (existsb (String.eqb documentId) (case_documents caseObj ++ [documentId]) = true)
        as -> by (apply existsb_eqb_elem; rewrite elem_of_app, list_elem_of_singleton; tauto).
      reflexivity.
Qed.

Lemma addDocumentToCase_idempotent_witness :
  cm_cases SampleCase.manager !! "case-1" = Some SampleCase.case
  /\ exists caseObj' cm' w',
       CaseManagerOps.addDocumentToCase SampleCase.manager "case-1" "doc-3" Sample.world
       = (Ok (caseObj', cm'), w')
       /\ cm_cases cm' !! "case-1" = Some caseObj'
       /\ "doc-3" ∈ case_documents caseObj'
       /\ (NoDup (case_documents SampleCase.case) -> NoDup (case_documents caseObj'))
       /\ CaseManagerOps.addDocumentToCase cm' "case-1" "doc-3" w' = (Ok (caseObj', cm'), w').
Proof.
  assert (cm_cases SampleCase.manager !! "case-1" = Some SampleCase.case) as H by reflexivity.
  split; [exact H|].
  exact (addDocumentToCase_idempotent SampleCase.manager "case-1" "doc-3"
           SampleCase.case Sample.world H).
Defined.

(** X15: removing a document leaves the other documents of the case in
    their order and the document absent; removing a document that has just
    been added to a case that did not list it gives back the list as it
    was. *)
Theorem remove_after_add (cm : CaseManager) (caseId documentId : string)
    (caseObj : Case) (w : World) :
  cm_cases cm !! caseId = Some caseObj ->
  exists c1 cm1 w1 c2 cm2 w2,
    CaseManagerOps.addDocumentToCase cm caseId documentId w = (Ok (c1, cm1), w1)
    /\ CaseManagerOps.removeDocumentFromCase cm1 caseId documentId w1 = (Ok (c2, cm2), w2)
    /\ cm_cases cm2 !! caseId = Some c2
    /\ (documentId ∉ case_documents c2)
    /\ case_documents c2
       = List.filter (fun id => negb (String.eqb id documentId)) (case_documents caseObj)
    /\ ((documentId ∉ case_documents caseObj) ->
        case_documents c2 = case_documents caseObj).
Proof.
  intros Hcase.
  assert (forall l : list string,
             documentId ∉ List.filter (fun id => negb (String.eqb id documentId)) l) as Hgone.
  { intros l Hin. apply elem_of_List_filter in Hin as [_ Hin].
    now rewrite String.eqb_refl in Hin. }
  assert (forall l : list string,
             (documentId ∉ l) ->
             List.filter (fun id => negb (String.eqb id documentId)) l = l) as Hkeep.
  { induction l as [|x l IH]; intros Hn; [reflexivity|]. cbn [List.filter].
    apply not_elem_of_cons in Hn as [Hx Hl].
    destruct (String.eqb_spec x documentId) as [->|_]; [congruence|].
    cbn [negb]. now rewrite IH. }
  unfold CaseManagerOps.addDocumentToCase. rewrite Hcase.
  destruct (existsb (String.eqb documentId) (case_documents caseObj)) eqn:Hin.
  - do 6 eexists. split; [reflexivity|].
    unfold CaseManagerOps.removeDocumentFromCase. rewrite Hcase.
    split; [reflexivity|]. cbn [CaseManagerOps.with_case cm_cases
      CaseManagerOps.set_documents case_documents].
    split; [apply lookup_insert_eq|]. split; [apply Hgone|]. split; [reflexivity|].
    apply Hkeep.
  - do 6 eexists. split; [reflexivity|].
    unfold CaseManagerOps.removeDocumentFromCase. cbn [cm_cases].
    rewrite lookup_insert_eq. split; [reflexivity|].
    cbn [CaseManagerOps.with_case cm_cases CaseManagerOps.set_documents case_documents].
    split; [apply lookup_insert_eq|]. split; [apply Hgone|].
    assert (List.filter (fun id => negb (String.eqb id documentId))
              (case_documents caseObj ++ [documentId])
            = List.filter (fun id => negb (String.eqb id documentId)) (case_documents caseObj))
      as Hfilter.
    { rewrite List.filter_app. cbn [List.filter]. rewrite String.eqb_refl. cbn [negb].
      apply app_nil_r. }
    split; [exact Hfilter|]. intros Hn. rewrite Hfilter. now apply Hkeep.
Qed.

Lemma remove_after_add_witness :
  cm_cases SampleCase.manager !! "case-1" = Some SampleCase.case
  /\ exists c1 cm1 w1 c2 cm2 w2,
       CaseManagerOps.addDocumentToCase SampleCase.manager "case-1" "doc-3" Sample.world
       = (Ok (c1, cm1), w1)
       /\ CaseManagerOps.removeDocumentFromCase cm1 "case-1" "doc-3" w1 = (Ok (c2, cm2), w2)
       /\ cm_cases cm2 !! "case-1" = Some c2
       /\ ("doc-3" ∉ case_documents c2)
       /\ case_documents c2
          = List.filter (fun id => negb (String.eqb id "doc-3")) (case_documents SampleCase.case)
       /\ (("doc-3" ∉ case_documents SampleCase.case) ->
           case_documents c2 = case_documents SampleCase.case).
Proof.
  assert (cm_cases SampleCase.manager !! "case-1" = Some SampleCase.case) as H by reflexivity.
  split; [exact H|].
  exact (remove_after_add SampleCase.manager "case-1" "doc-3" SampleCase.case Sample.world H).
Defined.

(** X16: adding documents in bulk keeps the documents already listed, in
    front and in their order, lists every document passed, nothing else, and
    makes no duplicate; the modification time is refreshed even when nothing
    is added. *)
Theorem addDocumentsToCase_lists (cm : CaseManager) (caseId : string)
    (documentIds : list string) (caseObj : Case) (w : World) :
  cm_cases cm !! caseId = Some caseObj ->
  exists caseObj' cm' w',
    CaseManagerOps.addDocumentsToCase cm caseId documentIds w = (Ok (caseObj', cm'), w')
    /\ cm_cases cm' !! caseId = Some caseObj'
    /\ case_documents caseObj `prefix_of` case_documents caseObj'
    /\ (forall x, x ∈ case_documents caseObj'
                  <-> x ∈ case_documents caseObj \/ x ∈ documentIds)
    /\ (NoDup (case_documents caseObj) -> NoDup (case_documents caseObj'))
    /\ case_modifiedAt caseObj' = clock w (ticks w)
    /\ ticks w' = S (ticks w).
Proof.
  intros Hcase. unfold CaseManagerOps.addDocumentsToCase. rewrite Hcase.
  do 3 eexists. split; [reflexivity|].
  cbn [CaseManagerOps.with_case cm_cases CaseManagerOps.set_documents case_documents
       case_modifiedAt ticks].
  split; [apply lookup_insert_eq|]. split; [apply push_all_prefix|].
  split; [intros x; apply push_all_elem|]. split; [apply push_all_NoDup|].
  split; reflexivity.
Qed.

Lemma addDocumentsToCase_lists_witness :
  cm_cases SampleCase.manager !! "case-1" = Some SampleCase.case
  /\ exists caseObj' cm' w',
       CaseManagerOps.addDocumentsToCase SampleCase.manager "case-1"
         ["doc-3"; "doc-1"; "doc-3"] Sample.world = (Ok (caseObj', cm'), w')
       /\ case_documents caseObj' = ["doc-1"; "doc-2"; "doc-3"].
Proof.
  assert (cm_cases SampleCase.manager !! "case-1" = Some SampleCase.case) as H by reflexivity.
  split; [exact H|].
  destruct (addDocumentsToCase_lists SampleCase.manager "case-1" ["doc-3"; "doc-1"; "doc-3"]
              SampleCase.case Sample.world H) as (c & cm' & w' & Heq & _).
  exists c, cm', w'. split; [exact Heq|].
  unfold CaseManagerOps.addDocumentsToCase in Heq. rewrite H in Heq.
  injection Heq as <- _ _. reflexivity.
Defined.

(** X17: adding documents one by one with [addDocumentToCase] lists the same
    documents, in the same order, as adding them in bulk. *)
Theorem add_one_by_one_as_bulk (documentIds : list string) (cm : CaseManager)
    (caseId : string) (caseObj : Case) (w : World) :
  cm_cases cm !! caseId = Some caseObj ->
  exists c1 cm1 w1 c2 cm2 w2,
    forEachM (fun state documentId =>
                CaseManagerOps.addDocumentToCase (snd state) caseId documentId)
             documentIds (caseObj, cm) w = (Ok (c1, cm1), w1)
    /\ CaseManagerOps.addDocumentsToCase cm caseId documentIds w = (Ok (c2, cm2), w2)
    /\ case_documents c1 = case_documents c2
    /\ cm_cases cm1 !! caseId = Some c1.
Proof.
  intros Hcase.
  assert (exists c1 cm1 w1,
             forEachM (fun state documentId =>
                         CaseManagerOps.addDocumentToCase (snd state) caseId documentId)
                      documentIds (caseObj, cm) w = (Ok (c1, cm1), w1)
             /\ case_documents c1
                = fold_left CaseManagerOps.push_new documentIds (case_documents caseObj)
             /\ cm_cases cm1 !! caseId = Some c1) as (c1 & cm1 & w1 & H1 & Hdocs & Hc1).
  { revert cm caseObj w Hcase.
    induction documentIds as [|d ids IH]; intros cm caseObj w Hcase.
    - exists caseObj, cm, w. repeat split; assumption.
    - cbn [forEachM fold_left]. unfold bind at 1. cbn [snd].
      unfold CaseManagerOps.addDocumentToCase at 1. rewrite Hcase.
      unfold CaseManagerOps.push_new at 2.
      destruct (existsb (String.eqb d) (case_documents caseObj)) eqn:Hin.
      + cbn [ret]. apply (IH cm caseObj w Hcase).
      + unfold bind at 1. cbn [new_Date ret].
        match goal with
        | |- context [forEachM _ ids (?c, ?m) ?w0] =>
            destruct (IH m c w0) as (c1 & cm1 & w1 & H1 & Hdocs & Hc1);
              [cbn [cm_cases]; apply lookup_insert_eq|]
        end.
        exists c1, cm1, w1. split; [exact H1|]. split; [exact Hdocs | exact Hc1]. }
  exists c1, cm1, w1. unfold CaseManagerOps.addDocumentsToCase. rewrite Hcase.
  do 3 eexists. split; [exact H1|]. split; [reflexivity|].
  split; [exact Hdocs | exact Hc1].
Qed.

Lemma add_one_by_one_as_bulk_witness :
  cm_cases SampleCase.manager !! "case-1" = Some SampleCase.case
  /\ exists c1 cm1 w1 c2 cm2 w2,
       forEachM (fun state documentId =>
                   CaseManagerOps.addDocumentToCase (snd state) "case-1" documentId)
                ["doc-3"; "doc-1"] (SampleCase.case, SampleCase.manager) Sample.world
       = (Ok (c1, cm1), w1)
       /\ CaseManagerOps.addDocumentsToCase SampleCase.manager "case-1" ["doc-3"; "doc-1"]
            Sample.world = (Ok (c2, cm2), w2)
       /\ case_documents c1 = case_documents c2
       /\ cm_cases cm1 !! "case-1" = Some c1.
Proof.
  assert (cm_cases SampleCase.manager !! "case-1" = Some SampleCase.case) as H by reflexivity.
  split; [exact H|].
  exact (add_one_by_one_as_bulk ["doc-3"; "doc-1"] SampleCase.manager "case-1"
           SampleCase.case Sample.world H).
Defined.

(** X18: a case that has just been created can be read back under the
    identifier drawn for it and has no documents; its status is the one
    given, valid or not, or [open] when none or an empty one is given; the
    cases under other identifiers are as before. *)
Theorem createCase_then_read (cm : CaseManager) (caseName : string)
    (metadata : CaseMetadata) (w : World) :
  exists caseObj cm' w',
    CaseManagerOps.createCase cm caseName metadata w = (Ok (caseObj, cm'), w')
    /\ case_id caseObj = uuids w (drawn w)
    /\ CaseManagerOps.getCase cm' (case_id caseObj) w' = (Ok caseObj, w')
    /\ CaseManagerOps.getDocuments cm' (case_id caseObj) w' = (Ok [], w')
    /\ case_name caseObj = caseName
    /\ case_status caseObj = Js.or_else (Obj.get (cmeta_props metadata) "status") "open"
    /\ case_priority caseObj = Js.or_else (Obj.get (cmeta_props metadata) "priority") "medium"
    /\ (forall other, other <> case_id caseObj ->
                      cm_cases cm' !! other = cm_cases cm !! other).
Proof.
  unfold CaseManagerOps.createCase. cbv zeta.
  unfold bind at 1. cbn [uuidv4]. unfold bind at 1. cbn [new_Date].
  unfold bind at 1. cbn [new_Date ret].
  do 3 eexists. split; [reflexivity|].
  cbn [case_id case_name case_status case_priority case_documents].
  unfold CaseManagerOps.getCase, CaseManagerOps.getDocuments. cbn [cm_cases].
  rewrite lookup_insert_eq. cbn [case_documents ret].
  repeat split. intros other Hother. now apply lookup_insert_ne.
Qed.

(** ** The facade *)

Section FacadeFacts.

(** [createDocument] up to the storing of the generated document. *)
Lemma createDocument_generated (this : LegalDocumentManager)
    (caseId documentType : option string) (content : option ContentData) (w : World) :
  In (DocumentGenerator.default documentType "memo")
     ["contract"; "brief"; "memo"; "complaint"; "agreement"] ->
  exists document w1,
    (let* timestamp := new_Date in
     DocumentGenerator.generate
       {| opt_caseId := caseId; opt_documentType := documentType;
          opt_content := content; opt_timestamp := Some timestamp |})%js w
    = (Ok document, w1)
    /\ doc_id document = uuids w (drawn w)
    /\ doc_caseId document = caseId.
Proof.
  intros Hty. apply registered_names in Hty as [template Hget].
  unfold bind at 1. cbn [new_Date].
  match goal with
  | |- context [DocumentGenerator.generate ?o ?w0] =>
      rewrite (generate_registered o w0 template Hget)
  end.
  do 2 eexists. split; [reflexivity|]. split; reflexivity.
Qed.

Lemma addDocumentToCase_keeps_cases (cm cm' : CaseManager) (caseId documentId : string)
    (caseObj : Case) (w w' : World) :
  CaseManagerOps.addDocumentToCase cm caseId documentId w = (Ok (caseObj, cm'), w') ->
  cm_cases cm' !! caseId = Some caseObj
  /\ documentId ∈ case_documents caseObj
  /\ forall other, is_Some (cm_cases cm !! other) -> is_Some (cm_cases cm' !! other).
Proof.
  unfold CaseManagerOps.addDocumentToCase.
  destruct (cm_cases cm !! caseId) as [c|] eqn:Hc; [|discriminate].
  destruct (existsb (String.eqb documentId) (case_documents c)) eqn:Hin.
  - intros [= <- <- <-]. split; [exact Hc|]. split; [|tauto].
    apply existsb_exists in Hin as (x & Hx & Heq). apply String.eqb_eq in Heq as <-.
    now apply list_elem_of_In.
  - unfold bind at 1. cbn [new_Date ret]. intros [= <- <- <-]. cbn [cm_cases].
    split; [apply lookup_insert_eq|].
    split; [cbn [CaseManagerOps.set_documents case_documents]; set_solver|].
    intros other Hother. destruct (decide (caseId = other)) as [<-|Hne].
    + rewrite lookup_insert_eq. eauto.
    + now rewrite lookup_insert_ne.
Qed.

End FacadeFacts.

(** X19: when the case passed to [createDocument] is not a case of the case
    manager, the call throws, but the document generated for it has already
    been stored, under the identifier drawn and holding the unknown case
    identifier; the case manager is as before. *)
Theorem createDocument_unknown_case_keeps_document (this : LegalDocumentManager)
    (caseId : string) (documentType : option string) (content : option ContentData)
    (w : World) :
  caseId <> EmptyString ->
  cm_cases (fm_caseManager this) !! caseId = None ->
  In (DocumentGenerator.default documentType "memo")
     ["contract"; "brief"; "memo"; "complaint"; "agreement"] ->
  exists this' w' document,
    Facade.createDocument this (Some caseId) documentType content w
    = (Throw (Error "Case not found"), this', w')
    /\ fm_documents this' !! uuids w (drawn w) = Some document
    /\ doc_caseId document = Some caseId
    /\ fm_caseManager this' = fm_caseManager this
    /\ fm_cases this' = fm_cases this.
Proof.
  intros Hne Hcase Hty.
  destruct (createDocument_generated this (Some caseId) documentType content w Hty)
    as (document & w1 & Hgen & Hid & Hcid).
  unfold Facade.createDocument. rewrite Hgen. cbv zeta.
  destruct caseId as [|c s]; [congruence|]. cbn [Facade.truthy fm_caseManager].
  unfold CaseManagerOps.addDocumentToCase. rewrite Hcase. cbn [throw].
  do 2 eexists. exists document. split; [reflexivity|]. cbn [fm_documents fm_caseManager fm_cases].
  rewrite <- Hid. split; [apply lookup_insert_eq|]. repeat split. exact Hcid.
Qed.

Lemma createDocument_unknown_case_keeps_document_witness :
  exists this' w' document,
    Facade.createDocument Facade.empty (Some "case-9") (Some "brief") None Sample.world
    = (Throw (Error "Case not found"), this', w')
    /\ fm_documents this' !! uuids Sample.world (drawn Sample.world) = Some document
    /\ doc_caseId document = Some "case-9"
    /\ fm_caseManager this' = fm_caseManager Facade.empty
    /\ fm_cases this' = fm_cases Facade.empty.
Proof.
  apply (createDocument_unknown_case_keeps_document Facade.empty "case-9" (Some "brief") None
           Sample.world).
  - discriminate.
  - reflexivity.
  - cbn. tauto.
Defined.

(** X20: for a registered type, and a case that is a case of the case
    manager when one is passed, [createDocument] succeeds: the document is
    stored under the identifier drawn, the documents stored under other
    identifiers are as before, and the document is listed by the case; when
    no case is passed, or an empty one, the case manager is as before. *)
Theorem createDocument_stores_and_links (this : LegalDocumentManager)
    (caseId documentType : option string) (content : option ContentData) (w : World) :
  In (DocumentGenerator.default documentType "memo")
     ["contract"; "brief"; "memo"; "complaint"; "agreement"] ->
  (forall cid, Facade.truthy caseId = Some cid ->
               is_Some (cm_cases (fm_caseManager this) !! cid)) ->
  exists result this' w',
    Facade.createDocument this caseId documentType content w = (Ok result, this', w')
    /\ cdr_success result = true
    /\ doc_id (cdr_document result) = uuids w (drawn w)
    /\ doc_caseId (cdr_document result) = caseId
    /\ fm_documents this' !! doc_id (cdr_document result) = Some (cdr_document result)
    /\ (forall other, other <> doc_id (cdr_document result) ->
                      fm_documents this' !! other = fm_documents this !! other)
    /\ match Facade.truthy caseId with
       | Some cid =>
           exists caseObj,
             cm_cases (fm_caseManager this') !! cid = Some caseObj
             /\ doc_id (cdr_document result) ∈ case_documents caseObj
       | None => fm_caseManager this' = fm_caseManager this
       end.
Proof.
  intros Hty Hknown.
  destruct (createDocument_generated this caseId documentType content w Hty)
    as (document & w1 & Hgen & Hid & Hcid).
  unfold Facade.createDocument. rewrite Hgen. cbv zeta.
  destruct (Facade.truthy caseId) as [cid|] eqn:Htruthy.
  - destruct (Hknown cid eq_refl) as [c Hc]. cbn [fm_caseManager].
    destruct (CaseManagerOps.addDocumentToCase (fm_caseManager this) cid (doc_id document) w1)
      as [[[c' cm']|e] w2] eqn:Hadd.
    + apply addDocumentToCase_keeps_cases in Hadd as (Hc' & Hin & _).
      do 3 eexists. split; [reflexivity|].
      cbn [cdr_success cdr_document fm_documents fm_caseManager].
      split; [reflexivity|]. split; [exact Hid|]. split; [exact Hcid|].
      split; [apply lookup_insert_eq|].
      split; [intros other Hother; now apply lookup_insert_ne|].
      exists c'. split; assumption.
    + exfalso. unfold CaseManagerOps.addDocumentToCase in Hadd. rewrite Hc in Hadd.
      destruct (existsb (String.eqb (doc_id document)) (case_documents c)); discriminate.
  - do 3 eexists. split; [reflexivity|].
    cbn [cdr_success cdr_document fm_documents fm_caseManager].
    split; [reflexivity|]. split; [exact Hid|]. split; [exact Hcid|].
    split; [apply lookup_insert_eq|].
    split; [intros other Hother; now apply lookup_insert_ne|]. reflexivity.
Qed.

Lemma createDocument_stores_and_links_witness :
  exists result this' w',
    Facade.createDocument SampleCase.facade (Some "case-1") (Some "contract") None Sample.world
    = (Ok result, this', w')
    /\ exists caseObj,
         cm_cases (fm_caseManager this') !! "case-1" = Some caseObj
         /\ doc_id (cdr_document result) ∈ case_documents caseObj.
Proof.
  destruct (createDocument_stores_and_links SampleCase.facade (Some "case-1") (Some "contract")
              None Sample.world) as (result & this' & w' & Heq & _ & _ & _ & _ & _ & Hcase).
  - cbn. tauto.
  - intros cid [= <-]. exists SampleCase.case. reflexivity.
  - exists result, this', w'. split; [exact Heq | exact Hcase].
Defined.

(** X21: every case registered with the facade is a case of its case
    manager: [createCase] and [createDocument] keep this true, whether they
    return or throw, and [createCase] registers the case it returns. *)
Theorem facade_cases_known (this : LegalDocumentManager) :
  cases_known this ->
  (forall caseName metadata w,
      let '(result, this', _) := Facade.createCase this caseName metadata w in
      cases_known this'
      /\ exists caseObj,
           result = Ok caseObj /\ case_id caseObj ∈ fm_cases this'
           /\ cm_cases (fm_caseManager this') !! case_id caseObj = Some caseObj
           /\ fm_documents this' = fm_documents this)
  /\ (forall caseId documentType content w,
         let '(_, this', _) := Facade.createDocument this caseId documentType content w in
         cases_known this' /\ fm_cases this' = fm_cases this).
Proof.
  intros Hinv. split.
  - intros caseName metadata w. unfold Facade.createCase, CaseManagerOps.createCase.
    cbv zeta. unfold bind at 1. cbn [uuidv4]. unfold bind at 1. cbn [new_Date].
    unfold bind at 1. cbn [new_Date ret]. split.
    + intros id Hid. cbn [fm_cases fm_caseManager cm_cases case_id] in *.
      apply elem_of_union in Hid as [Hid|Hid].
      * apply elem_of_singleton in Hid as ->. rewrite lookup_insert_eq. eauto.
      * destruct (decide (uuids w (drawn w) = id)) as [->|Hne].
        -- rewrite lookup_insert_eq. eauto.
        -- rewrite lookup_insert_ne by assumption. now apply Hinv.
    + eexists. split; [reflexivity|]. cbn [fm_cases fm_caseManager cm_cases case_id fm_documents].
      split; [set_solver|]. split; [apply lookup_insert_eq | reflexivity].
  - intros caseId documentType content w. unfold Facade.createDocument.
    match goal with
    | |- context [bind new_Date ?k w] => destruct (bind new_Date k w) as [[document|e] w1]
    end; [|split; [exact Hinv | reflexivity]].
    cbv zeta. destruct (Facade.truthy caseId) as [cid|]; [|split; [exact Hinv | reflexivity]].
    cbn [fm_caseManager fm_cases].
    destruct (CaseManagerOps.addDocumentToCase (fm_caseManager this) cid (doc_id document) w1)
      as [[[c' cm']|e] w2] eqn:Hadd; [|split; [exact Hinv | reflexivity]].
    apply addDocumentToCase_keeps_cases in Hadd as (_ & _ & Hkeep).
    split; [|reflexivity]. intros id Hid. cbn [fm_cases fm_caseManager] in *.
    apply Hkeep. now apply Hinv.
Qed.

Lemma facade_cases_known_witness :
  cases_known SampleCase.facade
  /\ (let '(_, this', _) :=
        Facade.createCase SampleCase.facade "Roe v. Doe" (mkCaseMetadata [] None None None)
          Sample.world in
      cases_known this').
Proof.
  assert (cases_known SampleCase.facade) as H.
  { intros id Hid. change (id ∈ ({[ "case-1" ]} : gset string)) in Hid.
    apply elem_of_singleton in Hid as ->. exists SampleCase.case. reflexivity. }
  split; [exact H|].
  destruct (facade_cases_known SampleCase.facade H) as [Hcreate _].
  specialize (Hcreate "Roe v. Doe" (mkCaseMetadata [] None None None) Sample.world).
  destruct (Facade.createCase SampleCase.facade "Roe v. Doe"
              (mkCaseMetadata [] None None None) Sample.world) as [[result this'] w'].
  exact (proj1 Hcreate).
Defined.

(** ** The file manager: folders *)

Section FolderFacts.

Lemma insert_keeps {V} (m : gmap string V) (i k : string) (x : V) :
  is_Some (m !! k) -> is_Some (<[i := x]> m !! k).
Proof.
  intros H. apply lookup_insert_is_Some. destruct (decide (i = k)); [now left | now right].
Qed.

(** [createFolder] always returns: what it leaves in the environment. *)
Lemma createFolder_runs (folders : gmap string Folder) (folderName : string)
    (parentFolderId : option string) (w : World) :
  exists folder folders',
    FileManager.createFolder folders folderName parentFolderId w
    = (Ok (folder, folders'),
       mkWorld (clock w) (S (S (ticks w))) (uuids w) (S (drawn w)) (moment_format w)).
Proof.
  unfold FileManager.createFolder. unfold bind at 1. cbn [uuidv4].
  unfold bind at 1. cbn [new_Date]. unfold bind at 1. cbn [new_Date ret].
  do 2 eexists. reflexivity.
Qed.

End FolderFacts.

(** X22: [createFolder] keeps the folder map closed under children: when
    every child listed by a folder is a folder of the map, this still holds
    after the call; the folder returned is in the map under its identifier,
    and no folder leaves the map. *)
Theorem createFolder_children_known (folders : gmap string Folder) (folderName : string)
    (parentFolderId : option string) (w : World) :
  FileManager.children_known folders ->
  exists folder folders' w',
    FileManager.createFolder folders folderName parentFolderId w = (Ok (folder, folders'), w')
    /\ FileManager.children_known folders'
    /\ folder_id folder = uuids w (drawn w)
    /\ folders' !! folder_id folder = Some folder
    /\ (forall id, is_Some (folders !! id) -> is_Some (folders' !! id)).
Proof.
  intros Hinv. unfold FileManager.createFolder. unfold bind at 1. cbn [uuidv4].
  unfold bind at 1. cbn [new_Date]. unfold bind at 1. cbn [new_Date ret].
  set (fid := uuids w (drawn w)).
  set (folder := mkFolder fid folderName parentFolderId [] [] _ _).
  assert (FileManager.children_known (<[fid := folder]> folders)) as Hinv1.
  { intros id f child Hf Hchild. apply insert_keeps.
    destruct (decide (fid = id)) as [<-|Hne].
    - rewrite lookup_insert_eq in Hf. injection Hf as <-. cbn in Hchild. set_solver.
    - rewrite lookup_insert_ne in Hf by assumption. exact (Hinv id f child Hf Hchild). }
  destruct (Facade.truthy parentFolderId) as [p|].
  2: { do 3 eexists. split; [reflexivity|]. rewrite lookup_insert_eq.
       split; [exact Hinv1|]. split; [reflexivity|].
       split; [exact (lookup_insert_eq _ _ _)|].
       intros id. apply insert_keeps. }
  destruct (<[fid := folder]> folders !! p) as [parent|] eqn:Hparent.
  2: { do 3 eexists. split; [reflexivity|]. rewrite lookup_insert_eq.
       split; [exact Hinv1|]. split; [reflexivity|].
       split; [exact (lookup_insert_eq _ _ _)|].
       intros id. apply insert_keeps. }
  assert (is_Some (<[p := FileManager.add_child parent fid]> (<[fid := folder]> folders) !! fid))
    as [stored Hstored] by (apply insert_keeps; rewrite lookup_insert_eq; eauto).
  do 3 eexists. split; [reflexivity|]. rewrite Hstored.
  assert (folder_id stored = fid) as Hsid.
  { destruct (decide (p = fid)) as [->|Hne].
    + rewrite lookup_insert_eq in Hstored, Hparent. injection Hparent as <-.
      injection Hstored as <-. reflexivity.
    + rewrite lookup_insert_ne, lookup_insert_eq in Hstored by assumption.
      injection Hstored as <-. reflexivity. }
  split; [|split; [exact Hsid|split; [rewrite Hsid; exact Hstored
                                     | intros id Hid; now do 2 apply insert_keeps]]].
  intros id f child Hf Hchild. destruct (decide (p = id)) as [<-|Hne].
  - rewrite lookup_insert_eq in Hf. injection Hf as <-.
    cbn [FileManager.add_child folder_children] in Hchild.
    apply elem_of_app in Hchild as [Hchild|Hchild].
    + apply insert_keeps. exact (Hinv1 p parent child Hparent Hchild).
    + apply list_elem_of_singleton in Hchild as ->.
      apply insert_keeps. rewrite lookup_insert_eq. eauto.
  - rewrite lookup_insert_ne in Hf by assumption.
    apply insert_keeps. exact (Hinv1 id f child Hf Hchild).
Qed.

Lemma createFolder_children_known_witness :
  FileManager.children_known SampleCase.folders
  /\ exists folder folders' w',
       FileManager.createFolder SampleCase.folders "Exhibits" (Some "folder-1") Sample.world
       = (Ok (folder, folders'), w')
       /\ FileManager.children_known folders'.
Proof.
  assert (FileManager.children_known SampleCase.folders) as H.
  { intros id f child Hf Hchild. unfold SampleCase.folders in Hf.
    apply lookup_singleton_Some in Hf as [_ <-]. cbn in Hchild. set_solver. }
  split; [exact H|].
  destruct (createFolder_children_known SampleCase.folders "Exhibits" (Some "folder-1")
              Sample.world H) as (folder & folders' & w' & Heq & Hinv & _).
  exists folder, folders', w'. split; [exact Heq | exact Hinv].
Defined.

(** X23: a folder created under an existing parent, with an identifier new
    to the map: the parent lists it as its last child and is otherwise as
    before, its modification time included; the folder returned has no
    children and names the parent; every other folder is as before; the
    clock is read twice. *)
Theorem createFolder_under_parent (folders : gmap string Folder) (folderName : string)
    (parentId : string) (parent : Folder) (w : World) :
  parentId <> EmptyString ->
  folders !! parentId = Some parent ->
  folders !! uuids w (drawn w) = None ->
  exists folder folders' w',
    FileManager.createFolder folders folderName (Some parentId) w = (Ok (folder, folders'), w')
    /\ folder = mkFolder (uuids w (drawn w)) folderName (Some parentId) [] []
                         (clock w (ticks w)) (clock w (S (ticks w)))
    /\ folders' !! folder_id folder = Some folder
    /\ folders' !! parentId
       = Some (mkFolder (folder_id parent) (folder_name parent) (folder_parentId parent)
                        (folder_children parent ++ [folder_id folder])
                        (folder_documents parent) (folder_created parent)
                        (folder_modified parent))
    /\ (forall other, other <> parentId -> other <> folder_id folder ->
                      folders' !! other = folders !! other)
    /\ ticks w' = S (S (ticks w)).
Proof.
  intros Hne Hparent Hfresh.
  assert (uuids w (drawn w) <> parentId) as Hdiff by (intros Heq; congruence).
  unfold FileManager.createFolder. unfold bind at 1. cbn [uuidv4].
  unfold bind at 1. cbn [new_Date]. unfold bind at 1. cbn [new_Date ret ticks].
  destruct parentId as [|c s]; [congruence|]. cbn [Facade.truthy].
  rewrite (lookup_insert_ne folders _ _ _ Hdiff), Hparent.
  rewrite lookup_insert_ne by congruence. rewrite lookup_insert_eq.
  do 3 eexists. split; [reflexivity|]. split; [reflexivity|]. cbn [folder_id].
  split; [rewrite lookup_insert_ne by congruence; apply lookup_insert_eq|].
  split; [apply lookup_insert_eq|]. split; [|reflexivity].
  intros other H1 H2. now rewrite !lookup_insert_ne by congruence.
Qed.

Lemma createFolder_under_parent_witness :
  exists folder folders' w',
    FileManager.createFolder SampleCase.folders "Exhibits" (Some "folder-1") Sample.world
    = (Ok (folder, folders'), w')
    /\ option_map folder_children (folders' !! "folder-1") = Some [folder_id folder].
Proof.
  destruct (createFolder_under_parent SampleCase.folders "Exhibits" "folder-1" SampleCase.root
              Sample.world) as (folder & folders' & w' & Heq & _ & _ & Hp & _).
  - discriminate.
  - reflexivity.
  - vm_compute. reflexivity.
  - exists folder, folders', w'. split; [exact Heq|]. rewrite Hp. reflexivity.
Defined.

(** X24: the parent passed to [createFolder] is not checked: when it is not
    a folder of the map, the folder returned still names it, and the map has
    no folder under that name; but when the identifier drawn is the parent
    passed, the new folder lists itself as its only child. *)
Theorem createFolder_missing_parent (folders : gmap string Folder) (folderName : string)
    (parentId : string) (w : World) :
  parentId <> EmptyString ->
  folders !! parentId = None ->
  exists folder folders' w',
    FileManager.createFolder folders folderName (Some parentId) w = (Ok (folder, folders'), w')
    /\ folder_parentId folder = Some parentId
    /\ folders' !! folder_id folder = Some folder
    /\ (folder_id folder <> parentId ->
        folders' !! parentId = None /\ folder_children folder = [])
    /\ (folder_id folder = parentId -> folder_children folder = [parentId]).
Proof.
  intros Hne Hparent.
  unfold FileManager.createFolder. unfold bind at 1. cbn [uuidv4].
  unfold bind at 1. cbn [new_Date]. unfold bind at 1. cbn [new_Date ret ticks].
  destruct parentId as [|c s]; [congruence|]. cbn [Facade.truthy].
  destruct (decide (uuids w (drawn w) = String c s)) as [Heq|Hdiff].
  - rewrite Heq, !lookup_insert_eq. do 3 eexists. split; [reflexivity|].
    cbn [FileManager.add_child folder_parentId folder_id folder_children app].
    split; [reflexivity|]. split; [apply lookup_insert_eq|]. split; [congruence | reflexivity].
  - rewrite (lookup_insert_ne folders _ _ _ Hdiff), Hparent, lookup_insert_eq.
    do 3 eexists. split; [reflexivity|]. cbn [folder_parentId folder_id folder_children].
    split; [reflexivity|]. split; [apply lookup_insert_eq|]. split; [|congruence].
    intros _. split; [|reflexivity]. now rewrite lookup_insert_ne.
Qed.

Lemma createFolder_missing_parent_witness :
  exists folder folders' w',
    FileManager.createFolder SampleCase.folders "Exhibits" (Some "folder-7") Sample.world
    = (Ok (folder, folders'), w')
    /\ folder_parentId folder = Some "folder-7".
Proof.
  destruct (createFolder_missing_parent SampleCase.folders "Exhibits" "folder-7" Sample.world)
    as (folder & folders' & w' & Heq & Hp & _).
  - discriminate.
  - reflexivity.
  - exists folder, folders', w'. split; [exact Heq | exact Hp].
Defined.

(** ** Exporting a document *)

Section ExportFacts.
Import Js.

Lemma append_assoc (s t u : string) : (s +:+ t) +:+ u = s +:+ (t +:+ u).
Proof.
  induction s as [|c s IH]; [reflexivity|].
  change (String c ((s +:+ t) +:+ u) = String c (s +:+ (t +:+ u))). now f_equal.
Qed.

Lemma prefix_refl (s : string) : String.prefix s s = true.
Proof.
  induction s as [|c s IH]; [reflexivity|]. simpl.
  destruct (ascii_dec c c); [exact IH | congruence].
Qed.

Lemma includes_refl (s : string) : includes s s = true.
Proof. destruct s; cbn [includes]; rewrite prefix_refl; reflexivity. Qed.

Lemma repeat_length (c : ascii) (n : nat) :
  String.length (Exporter.repeat (String c EmptyString) n) = n.
Proof.
  induction n as [|n IH]; [reflexivity|].
  change (S (String.length (Exporter.repeat (String c EmptyString) n)) = S n). now f_equal.
Qed.

(** A loop that appends one piece per element shows every piece. *)
Lemma fold_append_includes {A} (step : string -> A -> string) (piece : A -> string)
    (l : list A) (x : A) :
  (forall acc y, step acc y = acc +:+ piece y) ->
  In x l ->
  forall init, includes (fold_left step l init) (piece x) = true.
Proof.
  intros Hstep. 
  assert (forall l init sub, includes init sub = true ->
                             includes (fold_left step l init) sub = true) as Hkeep.
  { clear l. induction l as [|y l IH]; intros init sub H; [exact H|].
    cbn [fold_left]. apply IH. rewrite Hstep. now apply includes_app_l. }
  induction l as [|y l IH]; intros Hin init; [destruct Hin|].
  cbn [fold_left]. destruct Hin as [->|Hin]; [|now apply IH].
  apply Hkeep. rewrite Hstep. apply includes_app_r, includes_refl.
Qed.

End ExportFacts.

(** X25: [exportDocument] throws exactly for a format other than [txt],
    [html], [json] and [pdf], [txt] being the format when none is given.
    For these four it returns, and reads and changes nothing of the
    environment: a result in the format asked, named after the document and
    the format, or, only when the serialisation to JSON fails, a failure
    carrying the message of that error. *)
Theorem exportDocument_outcome (host : Host) (document : Document)
    (format : option string) (w : World) :
  let requested := DocumentGenerator.default format "txt" in
  (~ In requested ["txt"; "html"; "json"; "pdf"] ->
   Exporter.exportDocument host document format w
   = (Throw (Error ("Unsupported format: " +:+ requested)), w))
  /\ (In requested ["txt"; "html"; "json"; "pdf"] ->
      exists result,
        Exporter.exportDocument host document format w = (Ok result, w)
        /\ match result with
           | Exported format' filename content =>
               format' = requested
               /\ filename = doc_name document +:+ "." +:+ requested
               /\ (requested = "txt" -> content = Exporter._exportAsText host document)
               /\ (requested = "html" -> content = Exporter._exportAsHTML document)
               /\ (requested = "json" -> JSON_stringify host document = Ok content)
               /\ (requested = "pdf"
                   -> content = "[PDF Export: " +:+ doc_name document +:+ "]")
           | ExportFailed message =>
               requested = "json"
               /\ exists error,
                    JSON_stringify host document = Throw error
                    /\ message = error_message error
           end).
Proof.
  cbv zeta. unfold Exporter.exportDocument. cbv zeta.
  set (requested := DocumentGenerator.default format "txt"). clearbody requested.
  split.
  - intros Hnot.
    destruct (existsb (String.eqb requested) Exporter.supportedFormats) eqn:Hin; [|reflexivity].
    exfalso. apply Hnot. apply existsb_exists in Hin as (x & Hx & Heq).
    apply String.eqb_eq in Heq as ->. exact Hx.
  - intros Hin.
    assert (existsb (String.eqb requested) Exporter.supportedFormats = true) as ->
        by (apply existsb_exists; exists requested; split;
            [exact Hin | apply String.eqb_refl]).
    cbn [In] in Hin. destruct Hin as [<-|[<-|[<-|[<-|[]]]]].
    + eexists. split; [reflexivity|]. repeat split; discriminate.
    + eexists. split; [reflexivity|]. repeat split; discriminate.
    + unfold Exporter.render.
      change (String.eqb "json" "txt") with false.
      change (String.eqb "json" "html") with false.
      change (String.eqb "json" "json") with true. cbv iota.
      destruct (JSON_stringify host document) as [content|error] eqn:Hjson.
      * eexists. split; [reflexivity|]. repeat split; try discriminate.
      * eexists. split; [reflexivity|]. split; [reflexivity|]. now exists error.
    + eexists. split; [reflexivity|]. repeat split; discriminate.
Qed.

(** X26: both exports show every section as it is: the text export contains
    its heading, underlined by as many dashes as the heading has characters,
    and its content; the HTML export contains the heading and the content
    between their tags, unescaped. *)
Theorem exports_show_sections (host : Host) (document : Document) (section : Section_) :
  In section (Exporter.sections_of document) ->
  let dashes := Exporter.repeat "-" (String.length (sec_heading section)) in
  String.length dashes = String.length (sec_heading section)
  /\ Js.includes (Exporter._exportAsText host document)
       (sec_heading section +:+ Exporter.nl +:+ dashes +:+ Exporter.nl
        +:+ sec_content section +:+ Exporter.nl +:+ Exporter.nl) = true
  /\ Js.includes (Exporter._exportAsHTML document)
       ("<h2>" +:+ sec_heading section +:+ "</h2>" +:+ Exporter.nl
        +:+ "<p>" +:+ sec_content section +:+ "</p>" +:+ Exporter.nl) = true.
Proof.
  intros Hin. cbv zeta. split; [apply repeat_length|]. split.
  - unfold Exporter._exportAsText. cbv zeta.
    apply (fold_append_includes _
             (fun s => sec_heading s +:+ Exporter.nl
                       +:+ Exporter.repeat "-" (String.length (sec_heading s)) +:+ Exporter.nl
                       +:+ sec_content s +:+ Exporter.nl +:+ Exporter.nl)
             _ section); [|exact Hin].
    intros acc y. cbv beta. now rewrite !append_assoc.
  - unfold Exporter._exportAsHTML. cbv zeta. apply includes_app_l.
    apply (fold_append_includes _
             (fun s => "<h2>" +:+ sec_heading s +:+ "</h2>" +:+ Exporter.nl
                       +:+ "<p>" +:+ sec_content s +:+ "</p>" +:+ Exporter.nl)
             _ section); [|exact Hin].
    intros acc y. cbv beta. now rewrite !append_assoc.
Qed.

Lemma exports_show_sections_witness :
  let section := snd (Sample.section "Issue" "<b>Whether</b> the lease ended.") in
  let document := Sample.doc "Memo" [("Issue", "<b>Whether</b> the lease ended.")] in
  In section (Exporter.sections_of document)
  /\ Js.includes (Exporter._exportAsHTML document)
       ("<h2>Issue</h2>" +:+ Exporter.nl
        +:+ "<p><b>Whether</b> the lease ended.</p>" +:+ Exporter.nl) = true.
Proof.
  cbv zeta.
  assert (In (snd (Sample.section "Issue" "<b>Whether</b> the lease ended."))
             (Exporter.sections_of
                (Sample.doc "Memo" [("Issue", "<b>Whether</b> the lease ended.")]))) as H
      by (cbn; tauto).
  split; [exact H|].
  exact (proj2 (proj2 (exports_show_sections
                         (mkHost (fun _ => EmptyString) (fun _ => Ok EmptyString)) _ _ H))).
Defined.
